(** * Sistema de psicologia: the auth gate, the student search, the
    appointment store, the login endpoint and the PDF export, embedded from the
    TypeScript sources and checked against the specification.

    Conventions of the embedding.
    - A JavaScript string is a [string] holding its UTF-8 bytes. The
      whitespace class of [\s] and of [trim] is the whole class of the
      language, read off the bytes. The case mappings are written out for
      strings of ASCII characters and whitespace; on other strings they are
      those of an [Engine], and the store's ILIKE on such text is an input
      as well.
    - Lengths on the PDF page are millimetres, as exact rationals ([Q]); the
      rounding of the source's floating-point additions is not modelled.
    - What the sources call in libraries (the session and profile lookups, the
      text wrapper, the table renderer, the date formatter, the clock) is an
      input of the model. *)

From Stdlib Require Import String Ascii List Bool Arith ZArith QArith Lia Lqa.
From Stdlib Require Import DecimalString.
From Stdlib Require DecimalPos.
From stdpp Require Import base option list gmap strings sorting.

Import ListNotations.
Local Open Scope string_scope.
Local Open Scope list_scope.

(** stdpp freezes [String.append] under [simpl]; the proofs below compute
    with it. *)
#[global] Arguments String.append !s1 s2 : simpl nomatch.

(* ===================================================================== *)
(** ** JavaScript string primitives used by the sources *)
(* ===================================================================== *)

Module JS.

(** The number of a byte. *)
Definition code (c : ascii) : N := N_of_ascii c.

(** The ASCII members of the class [\s], which are also the ASCII characters
    [trim] strips: tab, line feed, vertical tab, form feed, carriage return,
    space. *)
Definition is_ws (c : ascii) : bool :=
  match c with
  | "009" | "010" | "011" | "012" | "013" | " " => true
  | _ => false
  end%char.

(** A continuation byte of UTF-8. *)
Definition is_cont (c : ascii) : bool := ((128 <=? code c) && (code c <? 192))%N.

Definition is_ascii_char (c : ascii) : bool := (code c <? 128)%N.

(** U+00A0 is C2 A0. *)
Definition ws2 (a b : ascii) : bool := ((code a =? 194) && (code b =? 160))%N.

(** U+1680 is E1 9A 80; U+2000 to U+200A, U+2028, U+2029 and U+202F are
    E2 80 followed by 80 to 8A, A8, A9 and AF; U+205F is E2 81 9F; U+3000 is
    E3 80 80; U+FEFF is EF BB BF. *)
Definition ws3 (a b c : ascii) : bool :=
  (((code a =? 225) && (code b =? 154) && (code c =? 128)) ||
   ((code a =? 226) && (code b =? 128) &&
      (((128 <=? code c) && (code c <=? 138)) ||
       (code c =? 168) || (code c =? 169) || (code c =? 175))) ||
   ((code a =? 226) && (code b =? 129) && (code c =? 159)) ||
   ((code a =? 227) && (code b =? 128) && (code c =? 128)) ||
   ((code a =? 239) && (code b =? 187) && (code c =? 191)))%N.

(** One whitespace character, as its bytes. *)
Definition is_blank (w : string) : bool :=
  match w with
  | String a EmptyString => is_ws a
  | String a (String b EmptyString) => ws2 a b
  | String a (String b (String c EmptyString)) => ws3 a b c
  | _ => false
  end.

(** A string read for its whitespace: each whitespace character is one
    piece, every other byte is a piece of its own. *)
Inductive piece :=
| Blank (w : string)
| Other (c : ascii).

Fixpoint pieces (s : string) : list piece :=
  match s with
  | EmptyString => []
  | String a r =>
      if is_ws a then Blank (String a EmptyString) :: pieces r
      else
        match r with
        | EmptyString => [Other a]
        | String b r2 =>
            if ws2 a b then Blank (String a (String b EmptyString)) :: pieces r2
            else
              match r2 with
              | EmptyString => Other a :: pieces r
              | String c r3 =>
                  if ws3 a b c
                  then Blank (String a (String b (String c EmptyString))) :: pieces r3
                  else Other a :: pieces r
              end
        end
  end.

Definition piece_text (p : piece) : string :=
  match p with
  | Blank w => w
  | Other c => String c EmptyString
  end.

Fixpoint unpieces (l : list piece) : string :=
  match l with
  | [] => EmptyString
  | p :: l' => piece_text p +:+ unpieces l'
  end.

Definition is_Blank (p : piece) : bool :=
  match p with Blank _ => true | Other _ => false end.

(** [s] is made of whitespace characters only. *)
Definition blanks (s : string) : bool := forallb is_Blank (pieces s).

(** [s] begins with a whitespace character. *)
Definition starts_ws (s : string) : bool :=
  match s with
  | EmptyString => false
  | String a r =>
      is_ws a ||
      match r with
      | EmptyString => false
      | String b r2 =>
          ws2 a b ||
          match r2 with
          | EmptyString => false
          | String c _ => ws3 a b c
          end
      end
  end.

Fixpoint dropBlanks (l : list piece) : list piece :=
  match l with
  | Blank _ :: l' => dropBlanks l'
  | _ => l
  end.

(** [s.trim()]: the whitespace characters at either end are dropped. *)
Definition trim_pieces (l : list piece) : list piece :=
  rev (dropBlanks (rev (dropBlanks l))).

Definition trim (s : string) : string := unpieces (trim_pieces (pieces s)).

(** [s.trimStart()]; the same whitespace is what [parseInt] skips. *)
Definition trimStart (s : string) : string := unpieces (dropBlanks (pieces s)).


(** [s.replace(/\s+/g, rep)]: scanning left to right, every maximal run of
    whitespace characters is one match. [in_run] tells that the previous
    character belonged to the run being replaced. *)
Fixpoint replace_ws_go (rep : string) (in_run : bool) (l : list piece) : string :=
  match l with
  | [] => EmptyString
  | Blank _ :: l' =>
      if in_run then replace_ws_go rep true l'
      else rep +:+ replace_ws_go rep true l'
  | Other c :: l' => String c (replace_ws_go rep false l')
  end.

Definition replace_ws (rep s : string) : string :=
  replace_ws_go rep false (pieces s).

(** [s.split(/\s+/)]: the stretches between the maximal whitespace runs,
    empty stretches at either end included. [stretch] is the one being
    read. *)
Fixpoint split_ws_go (stretch : string) (in_run : bool) (l : list piece) : list string :=
  match l with
  | [] => [stretch]
  | Blank _ :: l' =>
      if in_run then split_ws_go stretch true l'
      else stretch :: split_ws_go EmptyString true l'
  | Other c :: l' => split_ws_go (stretch +:+ String c EmptyString) false l'
  end.

Definition split_ws (s : string) : list string :=
  split_ws_go EmptyString false (pieces s).

(** No whitespace character begins within [w] when [w] is followed by [s]. *)
Fixpoint clear_of_ws (w s : string) : bool :=
  match w with
  | EmptyString => true
  | String c w' => negb (starts_ws (w +:+ s)) && clear_of_ws w' s
  end.


Fixpoint is_ascii (s : string) : bool :=
  match s with
  | EmptyString => true
  | String c r => is_ascii_char c && is_ascii r
  end.

(** [s.length]: the number of UTF-16 code units of the string whose UTF-8
    bytes are [s]; a character of four bytes takes two units. *)
Fixpoint str_length (s : string) : nat :=
  match s with
  | EmptyString => O
  | String c r =>
      ((if is_cont c then 0 else if (240 <=? code c)%N then 2 else 1)
       + str_length r)%nat
  end.

Definition is_lower (c : ascii) : bool :=
  let n := nat_of_ascii c in (97 <=? n)%nat && (n <=? 122)%nat.

Definition is_upper (c : ascii) : bool :=
  let n := nat_of_ascii c in (65 <=? n)%nat && (n <=? 90)%nat.

Definition upper_char (c : ascii) : ascii :=
  if is_lower c then ascii_of_nat (nat_of_ascii c - 32) else c.

Definition lower_char (c : ascii) : ascii :=
  if is_upper c then ascii_of_nat (nat_of_ascii c + 32) else c.

Fixpoint map_chars (f : ascii -> ascii) (s : string) : string :=
  match s with
  | EmptyString => EmptyString
  | String c r => String (f c) (map_chars f r)
  end.

(** The case mappings of the engine ([String.prototype.toUpperCase] and
    [toLowerCase]), consulted for text that holds more than ASCII characters
    and whitespace. *)
Record Engine := {
  upperCase : string -> string;
  lowerCase : string -> string
}.

Definition is_basic_piece (p : piece) : bool :=
  match p with
  | Blank _ => true
  | Other c => is_ascii_char c
  end.

(** [s] is made of ASCII characters and whitespace characters only. *)
Definition basic (s : string) : bool := forallb is_basic_piece (pieces s).

(** [s.toUpperCase()] and [s.toLowerCase()]: on text made of ASCII characters
    and whitespace the letters a to z, or A to Z, are mapped and everything
    else is copied; any other text is mapped by the engine. *)
Definition toUpperCase (e : Engine) (s : string) : string :=
  if basic s then map_chars upper_char s else upperCase e s.

Definition toLowerCase (e : Engine) (s : string) : string :=
  if basic s then map_chars lower_char s else lowerCase e s.

(** An engine for the examples, whose texts need no mapping beyond ASCII. *)
Definition ascii_engine : Engine :=
  {| upperCase := map_chars upper_char; lowerCase := map_chars lower_char |}.

(** [s || d] on strings: the empty string is falsy. *)
Definition or_else (s d : string) : string :=
  match s with
  | EmptyString => d
  | _ => s
  end.

(** [o || d] where [o] may be [undefined] or [null]. *)
Definition opt_or_else (o : option string) (d : string) : string :=
  match o with
  | Some s => or_else s d
  | None => d
  end.

Definition nonempty (s : string) : bool :=
  match s with EmptyString => false | _ => true end.

(** [hay.startsWith(needle)] and [hay.includes(needle)]. *)
Fixpoint startsWith (hay needle : string) : bool :=
  match needle, hay with
  | EmptyString, _ => true
  | String _ _, EmptyString => false
  | String a n, String b h => Ascii.eqb a b && startsWith h n
  end.

Fixpoint includes (hay needle : string) : bool :=
  startsWith hay needle ||
  match hay with
  | EmptyString => false
  | String _ r => includes r needle
  end.

(** Template-literal interpolation of a non-negative integer. *)
Definition of_nat (n : nat) : string := NilEmpty.string_of_uint (Nat.to_uint n).

(** *** Facts about the whitespace reading *)

Lemma code_eq a n : code a = n -> a = ascii_of_N n.
Proof. intros <-. unfold code. now rewrite ascii_N_embedding. Qed.

Lemma is_ws_not_cont a : is_ws a = true -> is_cont a = false.
Proof. destruct a as [[] [] [] [] [] [] [] []]; simpl; intros H; try discriminate H; reflexivity. Qed.

Lemma ws2_spec a b : ws2 a b = true -> a = "194"%char /\ b = "160"%char.
Proof.
  unfold ws2. rewrite andb_true_iff, !N.eqb_eq. intros [Ha Hb].
  apply code_eq in Ha, Hb. now subst.
Qed.

Lemma ws2_facts a b :
  ws2 a b = true -> is_ws a = false /\ is_cont a = false /\ is_cont b = true.
Proof. intros [-> ->]%ws2_spec. repeat split. Qed.

Lemma ws2_lead a b : ws2 a b = true -> is_ascii_char a = false.
Proof. now intros [-> ->]%ws2_spec. Qed.

Lemma is_cont_range c : (128 <= code c < 192)%N -> is_cont c = true.
Proof.
  intros [H1 H2]. unfold is_cont. apply andb_true_iff.
  split; [now apply N.leb_le | now apply N.ltb_lt].
Qed.

Ltac split_bool :=
  repeat match goal with
  | H : (_ || _)%bool = true |- _ => apply orb_prop in H; destruct H as [H|H]
  | H : (_ && _)%bool = true |- _ =>
      let H1 := fresh in apply andb_prop in H; destruct H as [H1 H]
  | H : (_ =? _)%N = true |- _ => apply N.eqb_eq in H
  | H : (_ <=? _)%N = true |- _ => apply N.leb_le in H
  end.

Lemma ws3_facts a b c :
  ws3 a b c = true ->
  is_ws a = false /\ ws2 a b = false /\ is_cont a = false /\
  is_cont b = true /\ is_cont c = true.
Proof.
  unfold ws3. intros H. split_bool.
  all: assert (Hc : is_cont c = true) by (apply is_cont_range; lia).
  all: repeat match goal with
       | E : code ?x = _ |- _ => apply code_eq in E; subst x
       end.
  all: repeat split; exact Hc.
Qed.

Lemma ws3_lead a b c : ws3 a b c = true -> is_ascii_char a = false.
Proof.
  unfold ws3. intros H. split_bool.
  all: unfold is_ascii_char.
  all: repeat match goal with
       | E : code ?x = _ |- _ => try rewrite E; clear E
       end.
  all: reflexivity.
Qed.

Lemma is_blank_nonempty w : is_blank w = true -> w <> "".
Proof. destruct w; [discriminate|congruence]. Qed.

(** A whitespace character at the head of a string is read as one piece,
    whatever follows it. *)
Lemma pieces_blank w r :
  is_blank w = true -> pieces (w +:+ r) = Blank w :: pieces r.
Proof.
  destruct w as [|a [|b [|c [|d w]]]]; simpl; try discriminate.
  - intros ->. reflexivity.
  - intros H. pose proof (ws2_facts a b H) as (-> & _ & _). now rewrite H.
  - intros H. pose proof (ws3_facts a b c H) as (-> & -> & _ & _ & _). now rewrite H.
Qed.

(** A byte that begins no whitespace character is a piece of its own. *)
Lemma pieces_other a r :
  starts_ws (String a r) = false -> pieces (String a r) = Other a :: pieces r.
Proof.
  simpl. destruct (is_ws a); [discriminate|].
  destruct r as [|b r2]; [reflexivity|].
  destruct (ws2 a b); [discriminate|].
  destruct r2 as [|c r3]; [reflexivity|].
  destruct (ws3 a b c); [discriminate|reflexivity].
Qed.

Lemma starts_ws_cases s :
  (exists w r, s = w +:+ r /\ is_blank w = true /\ starts_ws s = true) \/
  (s = "" \/ exists a r, s = String a r) /\ starts_ws s = false.
Proof.
  destruct s as [|a r]; [right; auto|].
  simpl.
  destruct (is_ws a) eqn:Ha.
  { left. exists (String a ""), r. auto. }
  destruct r as [|b r2]; [right; eauto|].
  destruct (ws2 a b) eqn:Hab.
  { left. exists (String a (String b "")), r2. auto. }
  destruct r2 as [|c r3]; [right; eauto|].
  destruct (ws3 a b c) eqn:Habc.
  { left. exists (String a (String b (String c ""))), r3. auto. }
  right. eauto.
Qed.

Lemma length_append (a b : string) :
  String.length (a +:+ b) = (String.length a + String.length b)%nat.
Proof. induction a as [|x a IH]; simpl; [reflexivity | now rewrite IH]. Qed.

(** Induction along the whitespace reading of a string. *)
Lemma pieces_ind (P : string -> Prop) :
  P "" ->
  (forall w r, is_blank w = true -> P r -> P (w +:+ r)) ->
  (forall a r, starts_ws (String a r) = false -> P r -> P (String a r)) ->
  forall s, P s.
Proof.
  intros Hnil Hblank Hother s.
  assert (Hn : forall n s, (String.length s <= n)%nat -> P s).
  { clear s. induction n as [|n IH]; intros s Hlen.
    - destruct s; [exact Hnil | simpl in Hlen; lia].
    - destruct (starts_ws_cases s) as [(w & r & -> & Hw & _) | [[-> | (a & r & ->)] Hs]].
      + apply Hblank; [exact Hw|]. apply IH.
        pose proof (is_blank_nonempty w Hw) as Hne.
        destruct w; [congruence|]. simpl in Hlen.
        rewrite length_append in Hlen. lia.
      + exact Hnil.
      + apply Hother; [exact Hs|]. apply IH. simpl in Hlen. lia. }
  now apply (Hn (String.length s)).
Qed.

Lemma append_assoc (a b c : string) : (a +:+ b) +:+ c = a +:+ (b +:+ c).
Proof. induction a as [|x a IH]; simpl; [reflexivity | f_equal; exact IH]. Qed.

Lemma append_nil_r (a : string) : a +:+ "" = a.
Proof. induction a as [|x a IH]; simpl; [reflexivity | f_equal; exact IH]. Qed.

Lemma unpieces_app l1 l2 : unpieces (l1 ++ l2) = unpieces l1 +:+ unpieces l2.
Proof.
  induction l1 as [|p l1 IH]; simpl; [reflexivity|].
  now rewrite IH, append_assoc.
Qed.

(** The pieces of a string, put together again, are the string. *)
Lemma unpieces_pieces s : unpieces (pieces s) = s.
Proof.
  induction s as [|w r Hw IH|a r Ha IH] using pieces_ind; [reflexivity| |].
  - rewrite (pieces_blank w r Hw). simpl. now rewrite IH.
  - rewrite (pieces_other a r Ha). simpl. now rewrite IH.
Qed.

Lemma starts_ws_ascii a r :
  is_ascii_char a = true -> is_ws a = false -> starts_ws (String a r) = false.
Proof.
  intros Ha Hw. destruct (starts_ws (String a r)) eqn:E; [|reflexivity].
  exfalso. simpl in E. rewrite Hw in E. simpl in E.
  destruct r as [|b r2]; [discriminate|].
  destruct (ws2 a b) eqn:E2.
  - apply ws2_lead in E2. congruence.
  - simpl in E. destruct r2 as [|c r3]; [discriminate|].
    apply ws3_lead in E. congruence.
Qed.

Lemma trimStart_ascii a r :
  is_ascii_char a = true -> is_ws a = false -> trimStart (String a r) = String a r.
Proof.
  intros Ha Hw. unfold trimStart.
  rewrite (pieces_other a r (starts_ws_ascii a r Ha Hw)). simpl.
  now rewrite unpieces_pieces.
Qed.

(** Every piece read as whitespace is a whitespace character. *)
Definition piece_ok (p : piece) : Prop :=
  match p with
  | Blank w => is_blank w = true
  | Other _ => True
  end.

Lemma pieces_ok s : Forall piece_ok (pieces s).
Proof.
  induction s as [|w r Hw IH|a r Ha IH] using pieces_ind; [constructor| |].
  - rewrite (pieces_blank w r Hw). now constructor.
  - rewrite (pieces_other a r Ha). now constructor.
Qed.

(** A list of whitespace characters is read back as it is, whatever
    follows. *)
Lemma pieces_blank_list l r :
  Forall piece_ok l -> forallb is_Blank l = true ->
  pieces (unpieces l +:+ r) = l ++ pieces r.
Proof.
  induction 1 as [|p l Hp _ IH]; simpl; [reflexivity|].
  destruct p as [w|c]; [|discriminate]. simpl. intros Hl.
  rewrite append_assoc, (pieces_blank w _ Hp). now rewrite IH.
Qed.

Lemma pieces_blanks_app pre r :
  blanks pre = true -> pieces (pre +:+ r) = pieces pre ++ pieces r.
Proof.
  intros Hb. rewrite <- (unpieces_pieces pre) at 1.
  apply pieces_blank_list; [apply pieces_ok | exact Hb].
Qed.

(** [t] is empty or begins with a byte that continues no character. *)
Definition clean_start (t : string) : bool :=
  match t with
  | EmptyString => true
  | String b _ => negb (is_cont b)
  end.

Lemma ws2_cont a b : is_cont b = false -> ws2 a b = false.
Proof.
  intros Hb. destruct (ws2 a b) eqn:E; [|reflexivity].
  apply ws2_facts in E as (_ & _ & E). congruence.
Qed.

Lemma ws3_cont2 a b c : is_cont b = false -> ws3 a b c = false.
Proof.
  intros Hb. destruct (ws3 a b c) eqn:E; [|reflexivity].
  apply ws3_facts in E as (_ & _ & _ & E & _). congruence.
Qed.

Lemma ws3_cont3 a b c : is_cont c = false -> ws3 a b c = false.
Proof.
  intros Hb. destruct (ws3 a b c) eqn:E; [|reflexivity].
  apply ws3_facts in E as (_ & _ & _ & _ & E). congruence.
Qed.

Lemma starts_ws_app a r t :
  clean_start t = true -> starts_ws (String a r) = false ->
  starts_ws (String a (r +:+ t)) = false.
Proof.
  intros Ht. simpl. destruct (is_ws a); [discriminate|]. simpl.
  destruct r as [|b r2].
  - intros _. simpl. destruct t as [|x t2]; [reflexivity|].
    simpl in Ht. apply negb_true_iff in Ht. rewrite (ws2_cont a x Ht). simpl.
    destruct t2 as [|y t3]; [reflexivity|]. apply ws3_cont2. exact Ht.
  - simpl. destruct (ws2 a b); [discriminate|]. simpl.
    destruct r2 as [|c r3]; [|trivial].
    intros _. simpl. destruct t as [|x t2]; [reflexivity|].
    simpl in Ht. apply negb_true_iff in Ht. apply ws3_cont3. exact Ht.
Qed.

(** No whitespace character lies across the end of [s] when what follows
    begins with a byte that continues no character. *)
Lemma pieces_app s t :
  clean_start t = true -> pieces (s +:+ t) = pieces s ++ pieces t.
Proof.
  intros Ht. induction s as [|w r Hw IH|a r Ha IH] using pieces_ind; [reflexivity| |].
  - rewrite append_assoc, !(pieces_blank w _ Hw), IH. reflexivity.
  - change (String a r +:+ t) with (String a (r +:+ t)).
    rewrite (pieces_other a _ (starts_ws_app a r t Ht Ha)), (pieces_other a r Ha), IH.
    reflexivity.
Qed.

Lemma is_blank_clean w r : is_blank w = true -> clean_start (w +:+ r) = true.
Proof.
  destruct w as [|a [|b [|c [|d w]]]]; simpl; try discriminate.
  - intros H. now rewrite (is_ws_not_cont a H).
  - intros H. now pose proof (ws2_facts a b H) as (_ & -> & _).
  - intros H. now pose proof (ws3_facts a b c H) as (_ & _ & -> & _ & _).
Qed.

Lemma blanks_clean s r : blanks s = true -> clean_start r = true -> clean_start (s +:+ r) = true.
Proof.
  intros Hb Hr. destruct (starts_ws_cases s) as [(w & x & -> & Hw & _) | [[-> | (a & x & ->)] Hs]].
  - rewrite append_assoc. now apply is_blank_clean.
  - exact Hr.
  - unfold blanks in Hb. rewrite (pieces_other a x Hs) in Hb. discriminate Hb.
Qed.

Lemma blanks_clean_start s : blanks s = true -> clean_start s = true.
Proof.
  intros Hb. rewrite <- (append_nil_r s). now apply blanks_clean.
Qed.

Lemma pieces_pad pre s post :
  blanks pre = true -> blanks post = true ->
  pieces (pre +:+ s +:+ post) = pieces pre ++ pieces s ++ pieces post.
Proof.
  intros Hpre Hpost.
  rewrite (pieces_blanks_app pre _ Hpre), (pieces_app s post (blanks_clean_start _ Hpost)).
  reflexivity.
Qed.

Lemma dropBlanks_app b l : forallb is_Blank b = true -> dropBlanks (b ++ l) = dropBlanks l.
Proof.
  induction b as [|p b IH]; simpl; [reflexivity|].
  destruct p; [|discriminate]. exact IH.
Qed.

Lemma dropBlanks_all b : forallb is_Blank b = true -> dropBlanks b = [].
Proof. intros Hb. rewrite <- (app_nil_r b). now rewrite dropBlanks_app. Qed.

Lemma dropBlanks_split l :
  exists b, forallb is_Blank b = true /\ l = b ++ dropBlanks l /\
            (dropBlanks l = [] \/ exists c l', dropBlanks l = Other c :: l').
Proof.
  induction l as [|p l (b & Hb & Hl & Hd)].
  - exists []. repeat split. now left.
  - destruct p as [w|c].
    + exists (Blank w :: b). simpl. split; [exact Hb|]. split; [now f_equal | exact Hd].
    + exists []. simpl. repeat split. right. eauto.
Qed.

Lemma forallb_rev {A} (f : A -> bool) l : forallb f (rev l) = forallb f l.
Proof.
  induction l as [|x l IH]; [reflexivity|].
  simpl. rewrite forallb_app, IH. simpl. rewrite andb_true_r. apply andb_comm.
Qed.

Lemma trim_pieces_pad b l b' :
  forallb is_Blank b = true -> forallb is_Blank b' = true ->
  trim_pieces (b ++ l ++ b') = trim_pieces l.
Proof.
  intros Hb Hb'. unfold trim_pieces. rewrite (dropBlanks_app b _ Hb).
  destruct (dropBlanks_split l) as (b0 & Hb0 & Hl & [Hd | (c & l' & Hd)]).
  - rewrite Hd in *. rewrite app_nil_r in Hl. subst l.
    rewrite (dropBlanks_all (b0 ++ b')); [reflexivity|].
    rewrite forallb_app. now rewrite Hb0, Hb'.
  - assert (E1 : dropBlanks (l ++ b') = dropBlanks l ++ b').
    { rewrite Hl at 1. rewrite <- app_assoc, (dropBlanks_app b0 _ Hb0), Hd.
      reflexivity. }
    rewrite E1, rev_app_distr, dropBlanks_app; [reflexivity|].
    now rewrite forallb_rev.
Qed.

(** Whitespace around a string does not survive [trim]. *)
Lemma trim_padded pre s post :
  blanks pre = true -> blanks post = true -> trim (pre +:+ s +:+ post) = trim s.
Proof.
  intros Hpre Hpost. unfold trim.
  rewrite (pieces_pad pre s post Hpre Hpost). now rewrite trim_pieces_pad.
Qed.

Lemma Forall_ok_app_l l1 l2 : Forall piece_ok (l1 ++ l2) -> Forall piece_ok l1.
Proof. intros H. now apply Forall_app in H as [H _]. Qed.

Lemma blanks_unpieces b :
  Forall piece_ok b -> forallb is_Blank b = true -> blanks (unpieces b) = true.
Proof.
  intros Hok Hb. unfold blanks.
  rewrite <- (append_nil_r (unpieces b)), (pieces_blank_list b "" Hok Hb).
  simpl. now rewrite app_nil_r.
Qed.

(** [trim] takes whitespace off both ends and nothing else. *)
Lemma trim_split s :
  exists pre post,
    s = pre +:+ trim s +:+ post /\ blanks pre = true /\ blanks post = true.
Proof.
  pose proof (pieces_ok s) as Hok.
  destruct (dropBlanks_split (pieces s)) as (b & Hb & Hl & _).
  destruct (dropBlanks_split (rev (dropBlanks (pieces s)))) as (b' & Hb' & Hl' & _).
  assert (Hmid : dropBlanks (pieces s) = trim_pieces (pieces s) ++ rev b').
  { unfold trim_pieces. rewrite <- rev_app_distr, <- Hl'. now rewrite rev_involutive. }
  assert (Hall : pieces s = b ++ trim_pieces (pieces s) ++ rev b') by congruence.
  exists (unpieces b), (unpieces (rev b')).
  split; [|split].
  - unfold trim. rewrite <- !unpieces_app, <- Hall. symmetry. apply unpieces_pieces.
  - apply blanks_unpieces; [|exact Hb].
    rewrite Hall in Hok. now apply Forall_ok_app_l in Hok.
  - apply blanks_unpieces; [|now rewrite forallb_rev].
    rewrite Hall in Hok. apply Forall_app in Hok as [_ Hok].
    now apply Forall_app in Hok as [_ Hok].
Qed.



(** *** [replace] and [split] *)

Lemma split_ws_go_nonempty stretch b l : split_ws_go stretch b l <> [].
Proof.
  revert stretch b. induction l as [|p l IH]; intros stretch b; simpl; [discriminate|].
  destruct p; [destruct b|]; auto; discriminate.
Qed.

Lemma concat_cons sep x l :
  l <> [] -> String.concat sep (x :: l) = x +:+ sep +:+ String.concat sep l.
Proof. destruct l; [congruence | reflexivity]. Qed.

Lemma concat_split_ws_go rep l stretch b :
  String.concat rep (split_ws_go stretch b l) = stretch +:+ replace_ws_go rep b l.
Proof.
  revert stretch b. induction l as [|p l IH]; intros stretch b; simpl.
  - now rewrite append_nil_r.
  - destruct p as [w|c]; [destruct b|].
    + apply IH.
    + rewrite concat_cons by apply split_ws_go_nonempty. now rewrite IH.
    + rewrite IH, append_assoc. reflexivity.
Qed.

(** [s.replace(/\s+/g, rep)] is [s.split(/\s+/).join(rep)]. *)
Lemma replace_ws_join rep s : replace_ws rep s = String.concat rep (split_ws s).
Proof. unfold replace_ws, split_ws. now rewrite concat_split_ws_go. Qed.

(** A stretch in which no whitespace character begins is copied by
    [replace]. *)
Lemma replace_ws_word rep w s :
  clear_of_ws w s = true -> replace_ws rep (w +:+ s) = w +:+ replace_ws rep s.
Proof.
  unfold replace_ws. induction w as [|c w IH]; [reflexivity|].
  cbn [clear_of_ws]. intros [Hc Hw]%andb_prop. apply negb_true_iff in Hc.
  change (String c w +:+ s) with (String c (w +:+ s)) in *.
  rewrite (pieces_other c _ Hc). simpl. f_equal. now apply IH.
Qed.

Lemma replace_ws_go_run rep b l :
  forallb is_Blank b = true -> replace_ws_go rep true (b ++ l) = replace_ws_go rep true l.
Proof.
  induction b as [|p b IH]; simpl; [reflexivity|].
  destruct p; [|discriminate]. exact IH.
Qed.

Lemma replace_ws_go_start rep s :
  starts_ws s = false ->
  replace_ws_go rep true (pieces s) = replace_ws_go rep false (pieces s).
Proof.
  intros Hs. destruct s as [|a r]; [reflexivity|].
  now rewrite (pieces_other a r Hs).
Qed.

(** A maximal run of whitespace characters, however long, becomes one
    [rep]. *)
Lemma replace_ws_run rep run s :
  run <> "" -> blanks run = true -> starts_ws s = false ->
  replace_ws rep (run +:+ s) = rep +:+ replace_ws rep s.
Proof.
  intros Hne Hb Hs. unfold replace_ws. rewrite (pieces_blanks_app run s Hb).
  unfold blanks in Hb.
  destruct (pieces run) as [|p b] eqn:Hp.
  - exfalso. apply Hne. rewrite <- (unpieces_pieces run), Hp. reflexivity.
  - simpl in Hb. destruct p; [|discriminate]. simpl. f_equal.
    rewrite (replace_ws_go_run rep b _ Hb). now apply replace_ws_go_start.
Qed.

(** *** Case mapping on ASCII text *)

Lemma map_chars_app f a b : map_chars f (a +:+ b) = map_chars f a +:+ map_chars f b.
Proof. induction a as [|x a IH]; simpl; [reflexivity | f_equal; exact IH]. Qed.

Lemma map_chars_app_inv f s x y :
  map_chars f s = x +:+ y ->
  exists s1 s2, s = s1 +:+ s2 /\ map_chars f s1 = x /\ map_chars f s2 = y.
Proof.
  revert s. induction x as [|c x IH]; intros s Hs.
  - exists "", s. auto.
  - destruct s as [|d s]; [discriminate Hs|]. simpl in Hs. injection Hs as Hc Hs.
    destruct (IH s Hs) as (s1 & s2 & -> & H1 & H2).
    exists (String d s1), s2. simpl. now rewrite Hc, H1.
Qed.

Lemma upper_char_idem c : upper_char (upper_char c) = upper_char c.
Proof. destruct c as [[] [] [] [] [] [] [] []]; reflexivity. Qed.

Lemma upper_lower_char c : upper_char (lower_char c) = upper_char c.
Proof. destruct c as [[] [] [] [] [] [] [] []]; reflexivity. Qed.

Lemma lower_upper_char c : lower_char (upper_char c) = lower_char c.
Proof. destruct c as [[] [] [] [] [] [] [] []]; reflexivity. Qed.

Lemma upper_char_cases c :
  upper_char c = c \/ (lower_char (upper_char c) = c /\ upper_char c <> c).
Proof. destruct c as [[] [] [] [] [] [] [] []]; (left; reflexivity) || (right; split; [reflexivity|discriminate]). Qed.

(** *** The bytes of whitespace are not letters *)

Definition not_letter (c : ascii) : bool := negb (is_lower c) && negb (is_upper c).

Fixpoint no_letter (s : string) : bool :=
  match s with
  | EmptyString => true
  | String c r => not_letter c && no_letter r
  end.

Lemma not_ascii_not_letter c : is_ascii_char c = false -> not_letter c = true.
Proof. destruct c as [[] [] [] [] [] [] [] []]; simpl; intros H; try discriminate H; reflexivity. Qed.

Lemma is_cont_not_ascii c : is_cont c = true -> is_ascii_char c = false.
Proof. destruct c as [[] [] [] [] [] [] [] []]; simpl; intros H; try discriminate H; reflexivity. Qed.

Lemma is_ws_not_letter c : is_ws c = true -> not_letter c = true.
Proof. destruct c as [[] [] [] [] [] [] [] []]; simpl; intros H; try discriminate H; reflexivity. Qed.

Lemma is_blank_no_letter w : is_blank w = true -> no_letter w = true.
Proof.
  destruct w as [|a [|b [|c [|d w]]]]; simpl; try discriminate.
  - intros H. now rewrite (is_ws_not_letter a H).
  - intros H. pose proof (ws2_facts a b H) as (_ & _ & Hb).
    rewrite (not_ascii_not_letter a (ws2_lead a b H)).
    now rewrite (not_ascii_not_letter b (is_cont_not_ascii b Hb)).
  - intros H. pose proof (ws3_facts a b c H) as (_ & _ & _ & Hb & Hc).
    rewrite (not_ascii_not_letter a (ws3_lead a b c H)).
    rewrite (not_ascii_not_letter b (is_cont_not_ascii b Hb)).
    now rewrite (not_ascii_not_letter c (is_cont_not_ascii c Hc)).
Qed.

Lemma no_letter_app a b : no_letter (a +:+ b) = no_letter a && no_letter b.
Proof. induction a as [|x a IH]; simpl; [reflexivity | now rewrite IH, andb_assoc]. Qed.

Lemma blanks_no_letter s : blanks s = true -> no_letter s = true.
Proof.
  unfold blanks.
  induction s as [|w r Hw IH|a r Ha IH] using pieces_ind; [reflexivity| |].
  - rewrite (pieces_blank w r Hw). simpl. intros Hr.
    now rewrite no_letter_app, (is_blank_no_letter w Hw), (IH Hr).
  - rewrite (pieces_other a r Ha). discriminate.
Qed.

Lemma upper_char_not_letter c : not_letter c = true -> upper_char c = c.
Proof. destruct c as [[] [] [] [] [] [] [] []]; simpl; intros H; try discriminate H; reflexivity. Qed.

Lemma lower_char_not_letter c : not_letter c = true -> lower_char c = c.
Proof. destruct c as [[] [] [] [] [] [] [] []]; simpl; intros H; try discriminate H; reflexivity. Qed.

Lemma upper_char_inv c : not_letter (upper_char c) = true -> upper_char c = c.
Proof. destruct c as [[] [] [] [] [] [] [] []]; simpl; intros H; try discriminate H; reflexivity. Qed.

Lemma map_upper_no_letter s : no_letter s = true -> map_chars upper_char s = s.
Proof.
  induction s as [|c s IH]; simpl; [reflexivity|].
  intros [Hc Hs]%andb_prop. now rewrite (upper_char_not_letter c Hc), (IH Hs).
Qed.

Lemma map_lower_no_letter s : no_letter s = true -> map_chars lower_char s = s.
Proof.
  induction s as [|c s IH]; simpl; [reflexivity|].
  intros [Hc Hs]%andb_prop. now rewrite (lower_char_not_letter c Hc), (IH Hs).
Qed.

Lemma map_upper_inv s : no_letter (map_chars upper_char s) = true -> map_chars upper_char s = s.
Proof.
  induction s as [|c s IH]; simpl; [reflexivity|].
  intros [Hc Hs]%andb_prop. now rewrite (upper_char_inv c Hc), (IH Hs).
Qed.

(** *** Text of ASCII characters and whitespace *)

Lemma is_ascii_app a b : is_ascii (a +:+ b) = is_ascii a && is_ascii b.
Proof. induction a as [|x a IH]; simpl; [reflexivity | now rewrite IH, andb_assoc]. Qed.

Lemma is_ascii_basic s : is_ascii s = true -> basic s = true.
Proof.
  unfold basic.
  induction s as [|w r Hw IH|a r Ha IH] using pieces_ind; [reflexivity| |].
  - rewrite (pieces_blank w r Hw), is_ascii_app. simpl.
    intros [_ Hr]%andb_prop. now apply IH.
  - rewrite (pieces_other a r Ha). simpl.
    intros [Hc Hr]%andb_prop. rewrite Hc. now apply IH.
Qed.

Lemma is_ascii_clean s r : is_ascii s = true -> clean_start r = true -> clean_start (s +:+ r) = true.
Proof.
  destruct s as [|c s]; [auto|]. simpl. intros [Hc _]%andb_prop _.
  destruct c as [[] [] [] [] [] [] [] []]; simpl in *; try discriminate Hc; reflexivity.
Qed.

Lemma blanks_basic s : blanks s = true -> basic s = true.
Proof.
  unfold blanks, basic. induction (pieces s) as [|p l IH]; simpl; [reflexivity|].
  destruct p; [|discriminate]. exact IH.
Qed.

Lemma basic_pad pre core post :
  blanks pre = true -> is_ascii core = true -> blanks post = true ->
  basic (pre +:+ core +:+ post) = true.
Proof.
  intros Hpre Hcore Hpost. unfold basic.
  rewrite (pieces_pad pre core post Hpre Hpost), !forallb_app.
  fold (basic pre) (basic core) (basic post).
  now rewrite (blanks_basic pre Hpre), (is_ascii_basic core Hcore), (blanks_basic post Hpost).
Qed.

Lemma toUpperCase_basic e s : basic s = true -> toUpperCase e s = map_chars upper_char s.
Proof. unfold toUpperCase. now intros ->. Qed.

Lemma toLowerCase_basic e s : basic s = true -> toLowerCase e s = map_chars lower_char s.
Proof. unfold toLowerCase. now intros ->. Qed.

Lemma startsWith_cons a n b h :
  startsWith (String b h) (String a n) = Ascii.eqb a b && startsWith h n.
Proof. reflexivity. Qed.

Lemma startsWith_spec hay needle :
  startsWith hay needle = true <-> exists post, hay = needle +:+ post.
Proof.
  revert hay. induction needle as [|a n IH]; intros hay.
  - simpl. destruct hay; split; eauto.
  - destruct hay as [|b h].
    + simpl. split; [discriminate | intros [post H]; discriminate H].
    + rewrite startsWith_cons, andb_true_iff, Ascii.eqb_eq, IH. split.
      * intros [-> [post ->]]. now exists post.
      * intros [post H]. simpl in H. injection H as -> ->. eauto.
Qed.

(** [includes] is the substring test. *)
Lemma includes_spec hay needle :
  includes hay needle = true <-> exists pre post, hay = pre +:+ needle +:+ post.
Proof.
  induction hay as [|b h IH].
  - change (includes "" needle) with (startsWith "" needle || false).
    rewrite orb_false_r, startsWith_spec. split.
    + intros [post H]. now exists "", post.
    + intros (pre & post & H). destruct pre; [now exists post | discriminate H].
  - change (includes (String b h) needle)
      with (startsWith (String b h) needle || includes h needle).
    rewrite orb_true_iff, startsWith_spec, IH. split.
    + intros [[post H] | (pre & post & ->)].
      * now exists "", post.
      * now exists (String b pre), post.
    + intros (pre & post & H). destruct pre as [|c pre]; simpl in H.
      * left. now exists post.
      * right. injection H as -> ->. now exists pre, post.
Qed.

(** U+00A0, the no-break space, and U+3000, the ideographic space. *)
Definition NBSP : string := String "194" (String "160" EmptyString).
Definition IDSP : string := String "227" (String "128" (String "128" EmptyString)).

Example replace_nbsp :
  replace_ws "_" ("Ana" +:+ NBSP +:+ " Torres" +:+ IDSP) = "Ana_Torres_".
Proof. reflexivity. Qed.

Example trim_unicode : trim (IDSP +:+ " admin" +:+ NBSP) = "admin".
Proof. reflexivity. Qed.

End JS.

(* ===================================================================== *)
(** ** The session/profile gate (src/components/RequireAuth.tsx) *)
(* ===================================================================== *)

Module Gate.
Import JS.

(** [enum UserRole] of src/types.ts with the string each member stands for. *)
Inductive UserRole :=
| ADMIN | SUPERVISOR | SUBDIRECTOR | DOCENTE | DOCENTE_INGLES | SECRETARIA
| PSICOLOGA | AUXILIAR | ADMINISTRATIVO | STUDENT | PARENT.

Definition role_value (r : UserRole) : string :=
  match r with
  | ADMIN => "admin"
  | SUPERVISOR => "supervisor"
  | SUBDIRECTOR => "subdirector"
  | DOCENTE => "docente"
  | DOCENTE_INGLES => "docente_ingles"
  | SECRETARIA => "secretaria"
  | PSICOLOGA => "psicologa"
  | AUXILIAR => "auxiliar"
  | ADMINISTRATIVO => "administrativo"
  | STUDENT => "student"
  | PARENT => "parent"
  end.

(** [interface Profile]. The row comes from the store and is only cast to the
    interface, so [role] is whatever text the row holds, or nothing. *)
Record Profile := {
  id : string;
  email : string;
  role : option string;
  full_name : string;
  created_at : string;
  birth_date : option string;
  dni : option string;
  active : option bool
}.

(** An awaited promise either resolves or rejects (the [catch] branch). *)
Inductive Awaited (A : Type) :=
| Resolved (a : A)
| Rejected (err : string).
Arguments Resolved {A} a.
Arguments Rejected {A} err.

(** [{ data: { session } }] of [supabase.auth.getSession()]. *)
Record Session := { user_id : string }.

(** [{ data: profile, error }] of the [profiles] query ending in [.single()]. *)
Record ProfileResponse := {
  data : option Profile;
  error : option string
}.

(** The three [useState] cells of the component. *)
Record GateState := {
  loading : bool;
  user : option Profile;
  forbidden : bool
}.

Definition initial_state : GateState :=
  {| loading := true; user := None; forbidden := false |}.

Definition setLoading (b : bool) (st : GateState) : GateState :=
  {| loading := b; user := user st; forbidden := forbidden st |}.
Definition setUser (p : Profile) (st : GateState) : GateState :=
  {| loading := loading st; user := Some p; forbidden := forbidden st |}.
Definition setForbidden (b : bool) (st : GateState) : GateState :=
  {| loading := loading st; user := user st; forbidden := b |}.

(** What one run of [checkAuth] leaves behind: the component state and the
    address assigned to [window.location.href], if any. *)
Record Outcome := {
  state : GateState;
  href : option string
}.

(** What the component returns for a state. *)
Inductive View := Spinner | Forbidden403 | Children.

Definition render (st : GateState) : View :=
  if loading st then Spinner
  else if forbidden st then Forbidden403
  else Children.

(** [role.toUpperCase().trim()] *)
Definition normalize (e : Engine) (r : string) : string := trim (toUpperCase e r).

Section CheckAuth.

(** The case mappings of the engine the component runs on. *)
Variable engine : Engine.

(** [import.meta.env.VITE_PORTAL_URL] and the built-in
    [encodeURIComponent]. *)
Variable portalUrl : string.
Variable encodeURIComponent : string -> string.

(** The props, the address being visited, and the value [isMounted] has
    when the awaits have returned. *)
Variable allowedRoles : list UserRole.
Variable currentUrl : string.
Variable isMounted : bool.

Definition loginUrl : string :=
  portalUrl +:+ "?view=login&returnTo=" +:+ encodeURIComponent currentUrl.

Definition isAllowed (userRole : string) : bool :=
  existsb (fun r => String.eqb (normalize engine (role_value r)) userRole) allowedRoles.

Definition stopLoading (st : GateState) : Outcome :=
  {| state := if isMounted then setLoading false st else st; href := None |}.

Definition checkAuth
    (getSession : Awaited (option Session))
    (fetchProfile : string -> Awaited ProfileResponse)
    (st : GateState) : Outcome :=
  match getSession with
  | Rejected _ => stopLoading st
  | Resolved None =>
      {| state := st; href := if isMounted then Some loginUrl else None |}
  | Resolved (Some session) =>
      match fetchProfile (user_id session) with
      | Rejected _ => stopLoading st
      | Resolved resp =>
          match error resp, data resp with
          | None, Some userProfile =>
              let userRole := normalize engine (opt_or_else (role userProfile) "") in
              if isMounted
              then {| state :=
                        setLoading false
                          (if negb (isAllowed userRole)
                           then setForbidden true st
                           else setUser userProfile st);
                      href := None |}
              else {| state := st; href := None |}
          | _, _ => stopLoading st
          end
      end
  end.

End CheckAuth.

Definition sample_profile : Profile :=
  {| id := "u-1"; email := "p@example.org"; role := Some " Psicologa ";
     full_name := "P"; created_at := "2026-01-01"; birth_date := None;
     dni := None; active := Some true |}.

(** The gate as it runs for one navigation of a mounted component. *)
Definition gate_view e portal enc allowed url sess fetch (st : GateState) : View :=
  render (state (checkAuth e portal enc allowed url true sess fetch st)).

(** Two strings that differ only in the case of their ASCII letters. *)
Inductive case_variant : string -> string -> Prop :=
| cv_nil : case_variant "" ""
| cv_cons c d s t :
    (d = c \/ d = upper_char c \/ d = lower_char c) ->
    case_variant s t ->
    case_variant (String c s) (String d t).

(** [s] is [r] up to letter case, with whitespace characters around it. *)
Definition role_variant (s r : string) : Prop :=
  exists pre core post,
    s = pre +:+ core +:+ post /\
    blanks pre = true /\ blanks post = true /\
    case_variant r core.

Lemma case_variant_upper s t :
  case_variant s t -> map_chars upper_char t = map_chars upper_char s.
Proof.
  induction 1 as [|c d s t Hcd _ IH]; simpl; [reflexivity|].
  rewrite IH. f_equal.
  destruct Hcd as [-> | [-> | ->]];
    [reflexivity | apply upper_char_idem | apply upper_lower_char].
Qed.

Lemma upper_char_eq c d :
  upper_char d = upper_char c -> d = c \/ d = upper_char c \/ d = lower_char c.
Proof.
  intros H.
  destruct (upper_char_cases c) as [Hc | [Hc _]], (upper_char_cases d) as [Hd | [Hd _]].
  - left. congruence.
  - right. right. rewrite <- Hd, H. now rewrite lower_upper_char.
  - right. left. congruence.
  - left. rewrite <- Hd, H. exact Hc.
Qed.

Lemma upper_eq_case_variant r t :
  map_chars upper_char t = map_chars upper_char r -> case_variant r t.
Proof.
  revert t. induction r as [|c r IH]; intros [|d t] H; simpl in H; try discriminate H.
  - constructor.
  - injection H as Hc Ht. constructor; [now apply upper_char_eq | now apply IH].
Qed.

Lemma ascii_char_case c d :
  is_ascii_char c = true -> (d = c \/ d = upper_char c \/ d = lower_char c) ->
  is_ascii_char d = true.
Proof.
  intros Hc [-> | [-> | ->]]; [exact Hc| |];
    destruct c as [[] [] [] [] [] [] [] []]; simpl in *; try discriminate Hc; reflexivity.
Qed.

Lemma case_variant_ascii r t : case_variant r t -> is_ascii r = true -> is_ascii t = true.
Proof.
  induction 1 as [|c d s t Hcd _ IH]; simpl; [reflexivity|].
  intros [Hc Hs]%andb_prop. now rewrite (ascii_char_case c d Hc Hcd), (IH Hs).
Qed.

(** A spelling of an ASCII role that differs from it in letter case and in
    whitespace around it normalises to what the role normalises to. *)
Lemma normalize_role_variant e s r :
  is_ascii r = true -> role_variant s r -> normalize e s = normalize e r.
Proof.
  intros Hr (pre & core & post & -> & Hpre & Hpost & Hcv).
  pose proof (case_variant_ascii _ _ Hcv Hr) as Hcore.
  unfold normalize.
  rewrite (toUpperCase_basic e _ (basic_pad pre core post Hpre Hcore Hpost)).
  rewrite (toUpperCase_basic e r (is_ascii_basic r Hr)).
  rewrite !map_chars_app.
  rewrite (map_upper_no_letter pre (blanks_no_letter pre Hpre)).
  rewrite (map_upper_no_letter post (blanks_no_letter post Hpost)).
  rewrite (trim_padded _ _ _ Hpre Hpost).
  now rewrite (case_variant_upper _ _ Hcv).
Qed.

(** What the members of [UserRole] normalise to, on every engine. *)
Lemma normalize_role_value e r :
  is_ascii (role_value r) = true /\
  normalize e (role_value r) = map_chars upper_char (role_value r).
Proof. destruct r; split; reflexivity. Qed.

(** A text of ASCII characters and whitespace that normalises to what an
    ASCII word without whitespace at its ends normalises to is a spelling
    of that word. *)
Lemma normalize_basic_inv e s r :
  basic s = true ->
  normalize e s = map_chars upper_char r -> role_variant s r.
Proof.
  unfold normalize. intros Hs. rewrite (toUpperCase_basic e s Hs). intros Hn.
  destruct (trim_split (map_chars upper_char s)) as (pre & post & Hsplit & Hpre & Hpost).
  rewrite Hn in Hsplit.
  apply map_chars_app_inv in Hsplit as (s1 & s23 & -> & H1 & H23).
  apply map_chars_app_inv in H23 as (s2 & s3 & -> & H2 & H3).
  exists s1, s2, s3. split; [reflexivity|].
  assert (E1 : map_chars upper_char s1 = s1).
  { apply map_upper_inv. rewrite H1. now apply blanks_no_letter. }
  assert (E3 : map_chars upper_char s3 = s3).
  { apply map_upper_inv. rewrite H3. now apply blanks_no_letter. }
  rewrite E1 in H1. rewrite E3 in H3. subst pre post.
  repeat split; auto. now apply upper_eq_case_variant.
Qed.

Lemma isAllowed_spec e allowed userRole :
  isAllowed e allowed userRole = true <->
  exists r, In r allowed /\ normalize e (role_value r) = userRole.
Proof.
  unfold isAllowed. rewrite existsb_exists.
  split; intros (r & Hin & H); exists r; split; auto; now apply String.eqb_eq.
Qed.

(** One run of [checkAuth] never clears the [forbidden] cell. *)
Lemma forbidden_sticky e portal enc allowed url mounted sess fetch st :
  forbidden st = true ->
  forbidden (state (checkAuth e portal enc allowed url mounted sess fetch st)) = true.
Proof.
  intros Hf. unfold checkAuth, stopLoading.
  destruct sess as [[s|]|]; simpl; auto; [|destruct mounted; auto].
  destruct (fetch (user_id s)) as [resp|]; simpl; [|destruct mounted; auto].
  destruct (error resp), (data resp); simpl; try (destruct mounted; simpl; auto).
  destruct (negb _); simpl; auto.
Qed.

Lemma opt_or_else_empty s : opt_or_else (Some s) "" = s.
Proof. destruct s; reflexivity. Qed.

(** A failed profile lookup, whatever its form, leaves a freshly mounted gate
    with [loading] cleared and nothing else set; [render] then falls through
    to its last line. *)
Lemma lookup_failure_state e portal enc allowed url uid fetch :
  (match fetch uid with
   | Rejected _ => True
   | Resolved resp => error resp <> None \/ data resp = None
   end) ->
  checkAuth e portal enc allowed url true (Resolved (Some {| user_id := uid |})) fetch
    initial_state
  = {| state := {| loading := false; user := None; forbidden := false |};
       href := None |}.
Proof.
  unfold checkAuth, stopLoading. simpl.
  destruct (fetch uid) as [resp|err]; [|reflexivity].
  intros [H|H].
  - destruct (error resp); [reflexivity | congruence].
  - rewrite H. destruct (error resp); reflexivity.
Qed.

(** What a mounted gate shows after a run that found a session and a
    profile. *)
Lemma gate_view_profile e portal enc allowed url uid fetch p st :
  fetch uid = Resolved {| data := Some p; error := None |} ->
  gate_view e portal enc allowed url (Resolved (Some {| user_id := uid |})) fetch st
  = if forbidden st then Forbidden403
    else if isAllowed e allowed (normalize e (opt_or_else (role p) ""))
         then Children else Forbidden403.
Proof.
  intros Hfetch. unfold gate_view, checkAuth. simpl. rewrite Hfetch. simpl.
  destruct (isAllowed e allowed _); simpl; unfold render; simpl;
    destruct (forbidden st); reflexivity.
Qed.

(** C5: a session is present and the profile query answers with an error and
    no row. The gate stops loading, sets neither [forbidden] nor [user], does
    not redirect, and what it renders is its children (not a blank view): the
    claim's "renders neither the 403 view nor the children" does not hold of
    the component. *)
Theorem profile_lookup_error_renders_children (e : Engine) :
  let fetch := fun _ : string =>
    Resolved {| data := None; error := Some "JSON object requested, multiple (or no) rows returned" |} in
  let out :=
    checkAuth e "https://portal.example" (fun u => u) [PSICOLOGA; ADMIN; SUPERVISOR]
      "https://app.example/history" true
      (Resolved (Some {| user_id := "u-1" |})) fetch initial_state in
  loading (state out) = false /\
  forbidden (state out) = false /\
  user (state out) = None /\
  href out = None /\
  render (state out) = Children.
Proof. cbv zeta. rewrite lookup_failure_state; simpl; auto. Qed.

(** A profile with the role "docente", which the gate of [App] denies, and
    one with the role "psicologa", which it allows. *)
Definition profile_with_role (r : string) : Profile :=
  {| id := "u-1"; email := "p@example.org"; role := Some r;
     full_name := "P"; created_at := "2026-01-01"; birth_date := None;
     dni := None; active := Some true |}.

(** C6, as stated, fails: a mounted gate that has denied a profile keeps the
    403 view on its next run although that run finds a session and a profile
    whose role, normalised, is an allowed one. *)
Lemma denied_gate_stays_denied :
  let allowed := [PSICOLOGA; ADMIN; SUPERVISOR] in
  let run role st :=
    state (checkAuth ascii_engine "https://portal.example" (fun u => u) allowed
             "https://app.example/" true (Resolved (Some {| user_id := "u-1" |}))
             (fun _ => Resolved {| data := Some (profile_with_role role);
                                   error := None |}) st) in
  let denied := run "docente" initial_state in
  render denied = Forbidden403 /\
  render (run "psicologa" denied) = Forbidden403 /\
  In PSICOLOGA allowed /\
  normalize ascii_engine (role_value PSICOLOGA) = normalize ascii_engine "psicologa" /\
  render (run "psicologa" initial_state) = Children.
Proof. cbv zeta. repeat split; simpl; auto. Qed.

(** C6, amended: with a session and a successful profile lookup, a mounted
    gate that has not denied access before renders the children exactly when
    the profile's role, upper-cased and trimmed, equals an allowed role
    normalised the same way, and the 403 view otherwise; a role that is an
    allowed one up to letter case and surrounding whitespace gets the
    children, and a role made of ASCII characters and whitespace gets them
    only if it is such a spelling of an allowed role. A gate that has denied
    access before shows the 403 view whatever the role. *)
Theorem gate_role_decision e portal enc allowed url uid fetch p st :
  fetch uid = Resolved {| data := Some p; error := None |} ->
  let v := gate_view e portal enc allowed url
             (Resolved (Some {| user_id := uid |})) fetch st in
  (forbidden st = false ->
     (v = Children <->
        exists r, In r allowed /\
                  trim (toUpperCase e (role_value r))
                  = trim (toUpperCase e (opt_or_else (role p) ""))) /\
     (v <> Children -> v = Forbidden403) /\
     (forall r s, In r allowed -> role p = Some s ->
                  role_variant s (role_value r) -> v = Children) /\
     (forall s, role p = Some s -> basic s = true ->
                (v = Children <->
                 exists r, In r allowed /\ role_variant s (role_value r)))) /\
  (forbidden st = true -> v = Forbidden403).
Proof.
  intros Hfetch v.
  assert (Hv : v = if forbidden st then Forbidden403
                   else if isAllowed e allowed (normalize e (opt_or_else (role p) ""))
                        then Children else Forbidden403).
  { subst v. now apply gate_view_profile. }
  split; [|intros Hf; now rewrite Hv, Hf].
  intros Hf. rewrite Hf in Hv.
  assert (Hiff : v = Children <->
     exists r, In r allowed /\
               normalize e (role_value r) = normalize e (opt_or_else (role p) "")).
  { rewrite Hv, <- isAllowed_spec. destruct (isAllowed e allowed _); split; congruence. }
  assert (Hvar : forall r s, In r allowed -> role p = Some s ->
                             role_variant s (role_value r) -> v = Children).
  { intros r s Hin Hrole Hvar. apply Hiff. exists r. split; [exact Hin|].
    rewrite Hrole, opt_or_else_empty. symmetry.
    apply normalize_role_variant; [apply (normalize_role_value e) | exact Hvar]. }
  split; [exact Hiff|]. split; [|split; [exact Hvar|]].
  - rewrite Hv. destruct (isAllowed e allowed _); congruence.
  - intros s Hrole Hs. split.
    + intros Hc. apply Hiff in Hc as (r & Hin & Hn). exists r. split; [exact Hin|].
      rewrite Hrole, opt_or_else_empty in Hn.
      apply (normalize_basic_inv e); [exact Hs|].
      rewrite <- Hn. apply normalize_role_value.
    + intros (r & Hin & Hvar'). now apply (Hvar r s).
Qed.

(** The gate of [App], freshly mounted, admits a profile whose role is
    spelled " Psicologa ". *)
Lemma gate_role_decision_witness :
  gate_view ascii_engine "https://portal.example" (fun u => u)
    [PSICOLOGA; ADMIN; SUPERVISOR]
    "https://app.example/" (Resolved (Some {| user_id := "u-1" |}))
    (fun _ => Resolved {| data := Some sample_profile; error := None |})
    initial_state = Children.
Proof.
  refine (proj1 (proj2 (proj2 (proj1 (gate_role_decision ascii_engine
                          "https://portal.example" (fun u => u)
                          [PSICOLOGA; ADMIN; SUPERVISOR] "https://app.example/" "u-1"
                          (fun _ => Resolved {| data := Some sample_profile;
                                                error := None |})
                          sample_profile initial_state
                          eq_refl) eq_refl))) PSICOLOGA " Psicologa " _ eq_refl _).
  - simpl. auto.
  - exists " ", "Psicologa", " ". repeat split.
    repeat first
      [ apply cv_nil
      | apply cv_cons;
        [ first [ left; reflexivity | right; left; reflexivity ] | ] ].
Defined.

End Gate.

(* ===================================================================== *)
(** ** Student search (StudentSearchModal, searchStudents) *)
(* ===================================================================== *)

Module Search.
Import JS.

Record Classroom := {
  level : string;
  grade : string;
  section : string
}.

(** A row of [students] joined to its classroom. The name columns are
    nullable: the view reads them as [student.first_name || '']. *)
Record Student := {
  id : string;
  first_name : option string;
  last_name : option string;
  classrooms : option Classroom
}.

Inductive Column := first_name_col | last_name_col.

Definition column_of (c : Column) (r : Student) : option string :=
  match c with
  | first_name_col => first_name r
  | last_name_col => last_name r
  end.

(** [col.ilike.%word%]: the pattern the source builds around a word. *)
Record Cond := ilike_contains {
  cond_column : Column;
  cond_word : string
}.

(** The request a query builder holds: every [.or(...)] call appends one
    [or=(...)] parameter to it, [.limit(n)] sets the row limit. *)
Record Query := {
  or_params : list (list Cond);
  row_limit : option nat
}.

Definition from_students : Query := {| or_params := []; row_limit := None |}.

Definition q_or (group : list Cond) (q : Query) : Query :=
  {| or_params := or_params q ++ [group]; row_limit := row_limit q |}.

Definition q_limit (n : nat) (q : Query) : Query :=
  {| or_params := or_params q; row_limit := Some n |}.

(** A character that the filter syntax of the request or a LIKE pattern
    reads specially: [%], [_] and [*] (wildcards), [,], [(] and [)] (the
    shape of an [or] filter), [.] and [:] (the parts of one condition), the
    double quote and the backslash (quoting and escaping). *)
Definition reserved (c : ascii) : bool :=
  match c with
  | "%" | "_" | "*" | "," | "(" | ")" | "." | ":" | "034" | "\" => true
  | _ => false
  end%char.

(** A word the source can put into [ilike.%word%] as it is. *)
Fixpoint plain_word (w : string) : bool :=
  match w with
  | EmptyString => true
  | String c r => negb (reserved c) && plain_word r
  end.

Section Store.

(** What the store makes of [col.ilike.%word%] where this development does
    not fix it: for a word with a reserved character, which the source passes
    on unescaped, and for text beyond ASCII, where the outcome depends on the
    collation of the store. *)
Variable storeIlike : string -> string -> bool.

(** [text ILIKE '%word%']: for a plain word, on text of ASCII characters and
    whitespace, containment up to the case of the letters a to z. *)
Definition ilike (text word : string) : bool :=
  if plain_word word && basic text && basic word
  then includes (map_chars lower_char text) (map_chars lower_char word)
  else storeIlike text word.

(** A null column matches nothing. *)
Definition cond_holds (r : Student) (c : Cond) : bool :=
  match column_of (cond_column c) r with
  | Some text => ilike text (cond_word c)
  | None => false
  end.

(** How the store answers a request: a row is selected when it satisfies every
    parameter of the request, an [or] parameter being satisfied by any one of
    its conditions; the limit cuts the selection. Rows come in table order. *)
Definition row_selected (q : Query) (r : Student) : bool :=
  forallb (fun group => existsb (cond_holds r) group) (or_params q).

Definition run_query (q : Query) (table : list Student) : list Student :=
  let rows := List.filter (row_selected q) table in
  match row_limit q with
  | Some n => firstn n rows
  | None => rows
  end.

(** [searchTerm.trim().split(/\s+/).filter(w => w.length > 0)] *)
Definition search_words (searchTerm : string) : list string :=
  List.filter nonempty (split_ws (trim searchTerm)).

Definition word_group (word : string) : list Cond :=
  [ilike_contains first_name_col word; ilike_contains last_name_col word].

(** The query [searchStudents] sends, and the rows it stores with
    [setStudents] when the round trip succeeds. For words that are plain the
    request means what [search_query] holds. *)
Definition search_query (searchTerm : string) : Query :=
  q_limit 10
    (fold_left (fun query word => q_or (word_group word) query)
       (search_words searchTerm) from_students).

Definition searchStudents (searchTerm : string) (table : list Student) : list Student :=
  run_query (search_query searchTerm) table.

(** A record matches a token in its first or last name. *)
Definition token_matches (word : string) (r : Student) : bool :=
  existsb (cond_holds r) (word_group word).

Definition mk_student (i f l : string) : Student :=
  {| id := i; first_name := Some f; last_name := Some l; classrooms := None |}.

(** A store for the examples, whose texts are ASCII and whose words are
    plain. *)
Definition ascii_store (text word : string) : bool :=
  includes (map_chars lower_char text) (map_chars lower_char word).

Lemma fold_q_or_params words q :
  or_params (fold_left (fun query word => q_or (word_group word) query) words q)
  = or_params q ++ List.map word_group words.
Proof.
  revert q. induction words as [|w ws IH]; intros q; simpl.
  - now rewrite app_nil_r.
  - rewrite IH. simpl. now rewrite <- app_assoc.
Qed.

Lemma row_selected_search term r :
  row_selected (search_query term) r
  = forallb (fun w => token_matches w r) (search_words term).
Proof.
  unfold row_selected, search_query. simpl.
  rewrite fold_q_or_params. simpl.
  induction (search_words term) as [|w ws IH]; simpl; [reflexivity|].
  now rewrite IH.
Qed.

Lemma firstn_In_filter {A} (f : A -> bool) n l x :
  In x (firstn n (List.filter f l)) -> In x l /\ f x = true.
Proof.
  intros H. apply filter_In.
  rewrite <- (firstn_skipn n (List.filter f l)). apply in_or_app. now left.
Qed.

Lemma searchStudents_eq term table :
  searchStudents term table
  = firstn 10
      (List.filter (fun r => forallb (fun w => token_matches w r) (search_words term))
         table).
Proof.
  unfold searchStudents, run_query. simpl. f_equal.
  apply filter_ext. intros r. apply row_selected_search.
Qed.

(** What [token_matches] tests: the word matches the first name or the
    last name. *)
Lemma token_matches_spec word r :
  token_matches word r = true <->
  (exists text,
     (first_name r = Some text \/ last_name r = Some text) /\
     ilike text word = true).
Proof.
  unfold token_matches, word_group, cond_holds. simpl.
  rewrite orb_false_r, orb_true_iff. split.
  - intros [Hm|Hm].
    + destruct (first_name r) as [t|] eqn:E; [|discriminate]. eauto.
    + destruct (last_name r) as [t|] eqn:E; [|discriminate]. eauto.
  - intros (t & [E|E] & Hm); rewrite E; auto.
Qed.

(** On text of ASCII characters and whitespace a plain word matches when,
    lower-cased, it occurs in the lower-cased text. *)
Lemma ilike_basic text word :
  plain_word word = true -> basic text = true -> basic word = true ->
  (ilike text word = true <->
   exists pre post,
     map_chars lower_char text = pre +:+ map_chars lower_char word +:+ post).
Proof.
  intros Hp Ht Hw. unfold ilike. rewrite Hp, Ht, Hw. simpl.
  apply includes_spec.
Qed.

End Store.

Example search_two_tokens :
  List.map id
    (searchStudents ascii_store "  ana   garcia "
       [ mk_student "1" "Ana" "Lopez";
         mk_student "2" "Ana Maria" "GARCIA";
         mk_student "3" "Garciana" "Ruiz";
         mk_student "4" "Luis" "Garcia" ])
  = ["2"; "3"].
Proof. vm_compute. reflexivity. Qed.

(** The words are cut at every whitespace character, not only at the ASCII
    ones. *)
Example search_words_nbsp :
  search_words ("ana" +:+ NBSP +:+ "garcia" +:+ IDSP) = ["ana"; "garcia"].
Proof. reflexivity. Qed.

(** C1, as stated, fails: the query "ana garcia" over a table holding only
    Ana Lopez returns nothing, although that record matches the token "ana". *)
Lemma any_token_search_fails :
  ~ (forall term table r w,
       (2 <= length (search_words term))%nat ->
       In r table -> In w (search_words term) ->
       token_matches ascii_store w r = true ->
       In r (searchStudents ascii_store term table)).
Proof.
  intros H.
  specialize (H "ana garcia" [mk_student "1" "Ana" "Lopez"]
                (mk_student "1" "Ana" "Lopez") "ana").
  vm_compute in H. apply H; auto.
Qed.

(** C1, amended: for a query whose words are plain (none holds a character
    that the filter syntax or a LIKE pattern reads specially), the search
    returns, in table order and cut at ten rows, the records that match
    EVERY token of the query, each token in the first or in the last name by
    the store's case-insensitive containment test; on names of ASCII
    characters and whitespace that test is containment up to the case of
    the letters. So every returned record matches all the tokens, and when
    at most ten records do, each of them is returned. *)
Theorem search_requires_every_token storeIlike term table :
  Forall (fun w => plain_word w = true) (search_words term) ->
  let every_token r :=
    forallb (fun w => token_matches storeIlike w r) (search_words term) in
  searchStudents storeIlike term table = firstn 10 (List.filter every_token table) /\
  (forall r, In r (searchStudents storeIlike term table) ->
     In r table /\
     forall w, In w (search_words term) ->
       exists text, (first_name r = Some text \/ last_name r = Some text) /\
                    ilike storeIlike text w = true) /\
  ((length (List.filter every_token table) <= 10)%nat ->
   forall r, In r table ->
     (forall w, In w (search_words term) ->
        exists text, (first_name r = Some text \/ last_name r = Some text) /\
                     ilike storeIlike text w = true) ->
     In r (searchStudents storeIlike term table)) /\
  (forall w text, In w (search_words term) -> basic w = true -> basic text = true ->
     (ilike storeIlike text w = true <->
      exists pre post,
        map_chars lower_char text = pre +:+ map_chars lower_char w +:+ post)).
Proof.
  intros Hplain every_token. split; [apply searchStudents_eq|]. split; [|split].
  - intros r Hr. rewrite searchStudents_eq in Hr.
    apply firstn_In_filter in Hr as [Hin Hall]. split; [exact Hin|].
    intros w Hw. apply token_matches_spec. unfold every_token in Hall.
    rewrite forallb_forall in Hall. now apply Hall.
  - intros Hlen r Hin Hall. rewrite searchStudents_eq.
    rewrite firstn_all2 by exact Hlen.
    apply filter_In. split; [exact Hin|].
    apply forallb_forall. intros w Hw. apply token_matches_spec. now apply Hall.
  - intros w text Hw Hbw Hbt. apply ilike_basic; [|exact Hbt|exact Hbw].
    rewrite List.Forall_forall in Hplain. now apply Hplain.
Qed.

Lemma search_requires_every_token_witness :
  searchStudents ascii_store "ana garcia"
    [ mk_student "1" "Ana" "Lopez"; mk_student "2" "Ana Maria" "GARCIA" ]
  = [ mk_student "2" "Ana Maria" "GARCIA" ].
Proof.
  refine (eq_trans
            (proj1 (search_requires_every_token ascii_store "ana garcia"
                      [ mk_student "1" "Ana" "Lopez"; mk_student "2" "Ana Maria" "GARCIA" ]
                      _))
            _).
  - repeat constructor.
  - vm_compute. reflexivity.
Defined.

End Search.

(* ===================================================================== *)
(** ** Appointments: the store and the operations that write to it
       (Schedule, NewAttention, and the local server's endpoints) *)
(* ===================================================================== *)

Module Appointments.

(** A row of the appointments table, without its key. *)
Record Appointment := {
  psychologist_id : string;
  student_id : option string;
  student_name : string;
  grade : string;
  date : string;
  time : string;
  status : string;
  created_at : string
}.

(** The row an update with the payload [{ status }] leaves. *)
Definition set_status (s : string) (a : Appointment) : Appointment :=
  {| psychologist_id := psychologist_id a;
     student_id := student_id a;
     student_name := student_name a;
     grade := grade a;
     date := date a;
     time := time a;
     status := s;
     created_at := created_at a |}.

(** The scheduling form. *)
Record FormData := {
  fd_student_name : string;
  fd_grade : string;
  fd_date : string;
  fd_time : string
}.

(** [ORDER BY date ASC, time ASC] on text columns. *)
Definition before_b (x y : Appointment) : bool :=
  match String.compare (date x) (date y) with
  | Lt => true
  | Eq => String.leb (time x) (time y)
  | Gt => false
  end.

Definition sample_appointment (st : string) : Appointment :=
  {| psychologist_id := "u-1"; student_id := None;
     student_name := "Kevin Quispe"; grade := "5to Secundaria";
     date := "2026-03-02"; time := "09:00"; status := st;
     created_at := "2026-02-27T10:00:00Z" |}.

Definition sample_table (st : string) : gmap string Appointment :=
  {[ "a-1" := sample_appointment st ]}.

Section Store.

Context `{Countable Id}.

(** The table: [id] is its primary key. *)
Abbreviation Table := (gmap Id Appointment).

Definition by_date_time (x y : Id * Appointment) : Prop := before_b x.2 y.2.

#[local] Instance by_date_time_dec : RelDecision by_date_time.
Proof. intros x y. unfold by_date_time. apply _. Defined.

(** [insert([{ ...formData, psychologist_id, status: 'pending' }])] and the
    server's [INSERT], whose status column defaults to ['pending']. The store
    supplies the key and the creation time; a key already taken is refused. *)
Definition insert_pending (new_id : Id) (created : string) (fd : FormData)
    (uid : string) (db : Table) : Table :=
  match db !! new_id with
  | Some _ => db
  | None =>
      <[new_id :=
          {| psychologist_id := uid;
             student_id := None;
             student_name := fd_student_name fd;
             grade := fd_grade fd;
             date := fd_date fd;
             time := fd_time fd;
             status := "pending";
             created_at := created |}]> db
  end.

(** [.update({ status }).eq('id', id)] and
    [UPDATE appointments SET status = ? WHERE id = ?]. *)
Definition updateStatus (id : Id) (s : string) (db : Table) : Table :=
  alter (set_status s) id db.

(** [.eq('psychologist_id', user.id).eq('status', 'pending')
     .order('date').order('time')] of [Schedule.fetchAppointments]. *)
Definition fetchAppointments (uid : string) (db : Table) : list (Id * Appointment) :=
  merge_sort by_date_time
    (filter (fun ia => psychologist_id ia.2 = uid /\ status ia.2 = "pending")
       (map_to_list db)).

(** The same query cut at five rows, for the dashboard. *)
Definition dashboardAppointments (uid : string) (db : Table) : list (Id * Appointment) :=
  take 5 (fetchAppointments uid db).

(** [GET /api/appointments]. *)
Definition get_api_appointments (db : Table) : list (Id * Appointment) :=
  merge_sort by_date_time
    (filter (fun ia => status ia.2 = "pending") (map_to_list db)).

(** The writes the application performs on the table. *)
Inductive Op :=
| HandleAdd (new_id : Id) (created : string) (fd : FormData) (uid : string)
    (* Schedule.handleAdd, POST /api/appointments *)
| CancelButton (id : Id)
    (* Schedule: updateStatus(appt.id, 'cancelled') *)
| HandleSubmit (attention_inserted : bool) (apptFromState : option Id)
    (* NewAttention.handleSubmit *)
| PatchStatus (id : Id) (s : string).
    (* PATCH /api/appointments/:id/status *)

Definition step (op : Op) (db : Table) : Table :=
  match op with
  | HandleAdd new_id created fd uid => insert_pending new_id created fd uid db
  | CancelButton id => updateStatus id "cancelled" db
  | HandleSubmit true (Some id) => updateStatus id "completed" db
  | HandleSubmit _ _ => db
  | PatchStatus id s => updateStatus id s db
  end.

Definition run (ops : list Op) (db : Table) : Table :=
  fold_left (fun d op => step op d) ops db.

(** The write that [op] makes to the status of appointment [id], if any. *)
Definition writes_status (op : Op) (id : Id) : option string :=
  match op with
  | CancelButton j => if decide (j = id) then Some "cancelled" else None
  | HandleSubmit true (Some j) => if decide (j = id) then Some "completed" else None
  | PatchStatus j s => if decide (j = id) then Some s else None
  | _ => None
  end.

Lemma set_status_idem s t a : set_status s (set_status t a) = set_status s a.
Proof. reflexivity. Qed.

Lemma set_status_same a : set_status (status a) a = a.
Proof. destruct a; reflexivity. Qed.

Lemma updateStatus_lookup id s (db : Table) j :
  updateStatus id s db !! j
  = if decide (id = j) then set_status s <$> db !! j else db !! j.
Proof.
  unfold updateStatus. destruct (decide (id = j)) as [->|Hne].
  - apply lookup_alter_eq.
  - now apply lookup_alter_ne.
Qed.

(** One write: the row stays, only its status may change, and it changes to
    what [writes_status] says. *)
Lemma step_lookup op (db : Table) id a :
  db !! id = Some a ->
  step op db !! id = Some (set_status (default (status a) (writes_status op id)) a).
Proof.
  intros Ha. destruct op as [n c fd uid | j | [] [j|] | j s]; simpl;
    rewrite ?set_status_same; try exact Ha.
  - unfold insert_pending. destruct (db !! n) eqn:En; [exact Ha|].
    rewrite lookup_insert_ne; [exact Ha | congruence].
  - rewrite updateStatus_lookup. destruct (decide (j = id)) as [->|];
      simpl; rewrite ?set_status_same, Ha; reflexivity.
  - rewrite updateStatus_lookup. destruct (decide (j = id)) as [->|];
      simpl; rewrite ?set_status_same, Ha; reflexivity.
  - rewrite updateStatus_lookup. destruct (decide (j = id)) as [->|];
      simpl; rewrite ?set_status_same, Ha; reflexivity.
Qed.

Lemma run_lookup ops (db : Table) id a :
  db !! id = Some a ->
  exists s, run ops db !! id = Some (set_status s a).
Proof.
  revert db a. induction ops as [|op ops IH]; intros db a Ha; simpl.
  - exists (status a). now rewrite set_status_same.
  - destruct (IH _ _ (step_lookup op db id a Ha)) as [s Hs].
    exists s. now rewrite Hs, set_status_idem.
Qed.

Lemma not_pending_after_cancel id s (db : Table) a row :
  db !! id = Some a -> s <> "pending" ->
  updateStatus id s db !! id = Some row -> status row <> "pending".
Proof.
  intros Ha Hs. rewrite updateStatus_lookup, decide_True, Ha by reflexivity.
  simpl. intros [= <-]. exact Hs.
Qed.

(** C7, amended: a write of the application to an appointment that exists
    leaves the appointment in the table and changes at most its status: the
    cancel button stores "cancelled", a session logged from the appointment
    stores "completed", the server's PATCH stores the status it is sent, and
    every other write leaves the row as it is. None of them looks at the
    status the row has. After any sequence of writes the row differs from the
    original in its status at most. *)
Theorem appointment_writes_status_only ops op (db : Table) id a :
  db !! id = Some a ->
  (exists s, run ops db !! id = Some (set_status s a)) /\
  step op db !! id
    = Some (set_status (default (status a) (writes_status op id)) a) /\
  step (CancelButton id) db !! id = Some (set_status "cancelled" a) /\
  step (HandleSubmit true (Some id)) db !! id = Some (set_status "completed" a) /\
  (forall s, step (PatchStatus id s) db !! id = Some (set_status s a)).
Proof.
  intros Ha. split; [now apply run_lookup|].
  split; [now apply step_lookup|].
  repeat split; intros; rewrite (step_lookup _ db id a Ha); simpl;
    now rewrite decide_True.
Qed.

(** C8: a pending appointment is listed by the pending-appointment queries;
    once its status is set to "cancelled" none of them lists it, the table
    still holds it under the same id with status "cancelled" and every other
    field as before, and the other rows are untouched. *)
Theorem cancel_removes_from_pending (db : Table) id a :
  db !! id = Some a ->
  let db' := updateStatus id "cancelled" db in
  (status a = "pending" ->
     (id, a) ∈ fetchAppointments (psychologist_id a) db /\
     (id, a) ∈ get_api_appointments db) /\
  (forall uid row, (id, row) ∉ fetchAppointments uid db') /\
  (forall uid row, (id, row) ∉ dashboardAppointments uid db') /\
  (forall row, (id, row) ∉ get_api_appointments db') /\
  db' !! id = Some (set_status "cancelled" a) /\
  (forall j, j <> id -> db' !! j = db !! j).
Proof.
  intros Ha db'.
  split.
  { intros Hp. unfold fetchAppointments, get_api_appointments.
    rewrite !merge_sort_Permutation, !list_elem_of_filter, elem_of_map_to_list.
    simpl. auto. }
  assert (Hfetch : forall uid row, (id, row) ∉ fetchAppointments uid db').
  { intros uid row. unfold fetchAppointments.
    rewrite merge_sort_Permutation, list_elem_of_filter, elem_of_map_to_list.
    simpl. intros [[_ Hst] Hrow].
    now apply (not_pending_after_cancel id "cancelled" db a row). }
  split; [exact Hfetch|]. split; [|split; [|split]].
  - intros uid row Hin. apply (Hfetch uid row).
    unfold dashboardAppointments in Hin. now apply (subseteq_take 5).
  - intros row. unfold get_api_appointments.
    rewrite merge_sort_Permutation, list_elem_of_filter, elem_of_map_to_list.
    simpl. intros [Hst Hrow].
    now apply (not_pending_after_cancel id "cancelled" db a row).
  - subst db'. now rewrite updateStatus_lookup, decide_True, Ha.
  - intros j Hj. subst db'. rewrite updateStatus_lookup, decide_False; auto.
Qed.

End Store.

(** The pending list of a psychologist comes ordered by date, then time, and
    leaves out what is not pending or belongs to someone else. *)
Example fetchAppointments_ordered :
  let appt d t st who :=
    {| psychologist_id := who; student_id := None; student_name := "E";
       grade := "1ro"; date := d; time := t; status := st; created_at := "" |} in
  let db : gmap string Appointment :=
    {[ "a" := appt "2026-03-02" "10:30" "pending" "u-1";
       "b" := appt "2026-03-01" "09:00" "pending" "u-1";
       "c" := appt "2026-03-02" "08:00" "pending" "u-1";
       "d" := appt "2026-02-27" "08:00" "cancelled" "u-1";
       "e" := appt "2026-02-28" "08:00" "pending" "u-2" ]} in
  (fetchAppointments "u-1" db).*1 = ["b"; "c"; "a"].
Proof. vm_compute. reflexivity. Qed.

(** C7, as stated, fails: an appointment that was cancelled after the form
    for logging a session had been opened from it is set to "completed" when
    the form is submitted. *)
Lemma settled_status_overwritten :
  ~ (forall (op : Op) (db : gmap string Appointment) id a,
       db !! id = Some a ->
       status a = "completed" \/ status a = "cancelled" ->
       exists a', step op db !! id = Some a' /\ status a' = status a).
Proof.
  intros Hclaim.
  destruct (Hclaim (HandleSubmit true (Some "a-1")) (sample_table "cancelled")
              "a-1" (sample_appointment "cancelled") eq_refl (or_intror eq_refl))
    as (a' & Hstep & Hst).
  vm_compute in Hstep. injection Hstep as <-. discriminate Hst.
Qed.

Lemma appointment_writes_status_only_witness :
  sample_table "cancelled" !! "a-1" = Some (sample_appointment "cancelled") /\
  step (HandleSubmit true (Some "a-1")) (sample_table "cancelled") !! "a-1"
    = Some (sample_appointment "completed").
Proof.
  split; [reflexivity|].
  exact (proj1 (proj2 (proj2 (proj2
    (appointment_writes_status_only [] (CancelButton "a-1")
       (sample_table "cancelled") "a-1" (sample_appointment "cancelled")
       eq_refl))))).
Defined.

Lemma cancel_removes_from_pending_witness :
  sample_table "pending" !! "a-1" = Some (sample_appointment "pending") /\
  (forall uid row,
     ("a-1", row) ∉ fetchAppointments uid
                      (updateStatus "a-1" "cancelled" (sample_table "pending"))) /\
  updateStatus "a-1" "cancelled" (sample_table "pending") !! "a-1"
    = Some (sample_appointment "cancelled").
Proof.
  split; [reflexivity|].
  pose proof (cancel_removes_from_pending (sample_table "pending") "a-1"
                (sample_appointment "pending") eq_refl) as (_ & H1 & _ & _ & H4 & _).
  split; [exact H1 | exact H4].
Defined.

End Appointments.

(* ===================================================================== *)
(** ** The local server's login endpoint (server.ts, POST /api/login) *)
(* ===================================================================== *)

Module Login.

(** A column value, and the value of a property of a row object. *)
Inductive Value :=
| VNull
| VNum (n : Z)
| VStr (s : string).

(** A row of [users]; the text columns are nullable. *)
Record UserRow := {
  id : Z;
  username : Value;
  password : Value;
  full_name : Value
}.

(** The object [SELECT * FROM users] yields for a row. *)
Definition select_star (r : UserRow) : gmap string Value :=
  {[ "id" := VNum (id r);
     "username" := username r;
     "password" := password r;
     "full_name" := full_name r ]}.

(** [column = ?] with a text parameter: true for equal text only. *)
Definition sql_eq (column : Value) (param : string) : bool :=
  match column with
  | VStr s => String.eqb s param
  | _ => false
  end.

Definition credentials_match (u p : string) (r : UserRow) : bool :=
  sql_eq (username r) u && sql_eq (password r) p.

(** The JSON body of a response of this endpoint. *)
Record Body := {
  success : bool;
  user : option (gmap string Value);
  message : option string
}.

Record Response := {
  http_status : nat;
  body : Body
}.

(** The handler: [req.body] carries [username] and [password] as strings;
    [.get] returns the first selected row, if there is one, and
    [const { password, ...userWithoutPassword } = user] copies every property
    but [password]. *)
Definition login (users : list UserRow) (u p : string) : Response :=
  match find (credentials_match u p) users with
  | Some row =>
      let userWithoutPassword := delete "password" (select_star row) in
      {| http_status := 200;
         body := {| success := true;
                    user := Some userWithoutPassword;
                    message := None |} |}
  | None =>
      {| http_status := 401;
         body := {| success := false;
                    user := None;
                    message := Some "Credenciales incorrectas" |} |}
  end.

(** The table after the seed of server.ts. *)
Definition seeded_users : list UserRow :=
  [ {| id := 1; username := VStr "admin"; password := VStr "admin123";
       full_name := VStr "Psic. Principal" |} ].

Example login_seeded_admin :
  login seeded_users "admin" "admin123"
  = {| http_status := 200;
       body := {| success := true;
                  user := Some {[ "id" := VNum 1; "username" := VStr "admin";
                                  "full_name" := VStr "Psic. Principal" ]};
                  message := None |} |}.
Proof. vm_compute. reflexivity. Qed.

Example login_wrong_password :
  login seeded_users "admin" "admin" 
  = {| http_status := 401;
       body := {| success := false; user := None;
                  message := Some "Credenciales incorrectas" |} |}.
Proof. reflexivity. Qed.

(** C10: the body of a login response never has a [password] property. When
    some row has the given username and password, the answer is 200 with
    [success] true and, as [user], the first such row without its [password]
    property and with every other property as stored; when no row has them,
    the answer is 401 with [success] false and no [user]. *)
Theorem login_never_returns_password users u p :
  let resp := login users u p in
  (forall obj, user (body resp) = Some obj -> obj !! "password" = None) /\
  (forall row, find (credentials_match u p) users = Some row ->
     http_status resp = 200 /\
     success (body resp) = true /\
     user (body resp) = Some (delete "password" (select_star row)) /\
     (forall obj k, user (body resp) = Some obj -> k <> "password" ->
                    obj !! k = select_star row !! k)) /\
  ((forall row, In row users -> credentials_match u p row = false) ->
     http_status resp = 401 /\
     success (body resp) = false /\
     user (body resp) = None).
Proof.
  intros resp. subst resp. unfold login.
  destruct (find (credentials_match u p) users) as [row|] eqn:Hfind; simpl.
  - split; [|split].
    + intros obj [= <-]. apply lookup_delete_eq.
    + intros row' [= <-]. repeat split.
      intros obj k [= <-] Hk. now apply lookup_delete_ne.
    + intros Hnone. apply find_some in Hfind as [Hin Hm].
      rewrite (Hnone row Hin) in Hm. discriminate Hm.
  - split; [|split]; [discriminate | discriminate | auto].
Qed.

End Login.

(* ===================================================================== *)
(** ** PDF export: generateAttentionPDF, in its paginating version and, in
       [Plain], in the version of src/lib/pdf.ts *)
(* ===================================================================== *)

Module Pdf.
Import JS.
Local Open Scope Q_scope.

(** [interface Attention]. *)
Record Attention := {
  id : option string;
  student_name : string;
  grade : string;
  date : string;
  time : option string;
  reason : string;
  observations : string;
  recommendations : string;
  psychologist_id : option string;
  psychologist_name : option string
}.

Inductive Align := AlignLeft | AlignCenter | AlignRight.
Inductive FontStyle := Normal | Bold | Italic.

(** What a drawing call leaves on a page. A text carries the font size and
    style the document had when it was drawn; colours and line widths are
    not recorded. *)
Inductive DrawOp :=
| Rect (x y w h : Q)
| Text (size : Z) (style : FontStyle) (txt : string) (x y : Q) (align : Align)
| TextLines (size : Z) (style : FontStyle) (lines : list string) (x y : Q)
| Table (startY : Q) (body : list (string * string))
| TableContinued
| Line (x1 y1 x2 y2 : Q).

(** The jsPDF document: its pages in order, the number of the page drawing
    calls go to (from 1), and the font state. *)
Record Doc := {
  pages : list (list DrawOp);
  current : nat;
  fontSize : Z;
  fontStyle : FontStyle
}.

(** [new jsPDF({ unit: "mm", format: "a4" })] *)
Definition new_jsPDF : Doc :=
  {| pages := [[]]; current := 1; fontSize := 16; fontStyle := Normal |}.

Definition setFontSize (n : Z) (d : Doc) : Doc :=
  {| pages := pages d; current := current d; fontSize := n; fontStyle := fontStyle d |}.

Definition setFont (s : FontStyle) (d : Doc) : Doc :=
  {| pages := pages d; current := current d; fontSize := fontSize d; fontStyle := s |}.

(** A drawing call appends to the current page. *)
Definition draw (op : DrawOp) (d : Doc) : Doc :=
  {| pages := alter (fun pg => pg ++ [op]) (current d - 1)%nat (pages d);
     current := current d;
     fontSize := fontSize d;
     fontStyle := fontStyle d |}.

Definition text (txt : string) (x y : Q) (align : Align) (d : Doc) : Doc :=
  draw (Text (fontSize d) (fontStyle d) txt x y align) d.

(** [doc.text(lines, x, y)] with an array of lines. *)
Definition textLines (lines : list string) (x y : Q) (d : Doc) : Doc :=
  draw (TextLines (fontSize d) (fontStyle d) lines x y) d.

Definition addPage (d : Doc) : Doc :=
  {| pages := pages d ++ [[]];
     current := S (length (pages d));
     fontSize := fontSize d;
     fontStyle := fontStyle d |}.

(** [doc.setPage(p)] selects an existing page. *)
Definition setPage (p : nat) (d : Doc) : Doc :=
  if ((1 <=? p)%nat && (p <=? length (pages d))%nat)%bool
  then {| pages := pages d; current := p;
          fontSize := fontSize d; fontStyle := fontStyle d |}
  else d.

Definition getNumberOfPages (d : Doc) : nat := length (pages d).

(** What the function takes from its libraries and its environment. *)
Record Env := {
  (** [doc.internal.pageSize.getWidth()] and [getHeight()] *)
  pageW : Q;
  pageH : Q;
  (** [doc.splitTextToSize(text, width)] at the body font *)
  splitTextToSize : string -> Q -> list string;
  (** [autoTable]: the page breaks the table makes for a start height and a
      body, and [lastAutoTable.finalY] *)
  tableBreaks : Q -> list (string * string) -> nat;
  tableFinalY : Q -> list (string * string) -> Q;
  (** [format(new Date(s), "dd 'de' MMMM, yyyy", { locale: es })]; [None]
      when [format] throws its RangeError on an invalid date *)
  formatDate : string -> option string;
  (** [new Date().toLocaleString("es-PE")] as read while page [p] is stamped *)
  nowLocale : nat -> string
}.

(** The cursor [y] of the closure together with the document. *)
Record Layout := {
  doc : Doc;
  y : Q
}.

Definition on_doc (f : Doc -> Doc) (st : Layout) : Layout :=
  {| doc := f (doc st); y := y st |}.

Definition advance (dy : Q) (st : Layout) : Layout :=
  {| doc := doc st; y := y st + dy |}.

Definition marginL : Q := 16.
Definition marginR : Q := 16.
Definition marginB : Q := 28.

Definition dash : string := "—".

Inductive Result :=
| Threw (error : string)
| Saved (filename : string) (d : Doc).

(** *** The document during layout *)

(** Every drawing of the document, page after page. *)
Definition flat (d : Doc) : list DrawOp := concat (pages d).

(** Drawing calls go to the last page: so it is from [new jsPDF] until the
    footer pass selects pages. *)
Definition on_last (d : Doc) : Prop :=
  current d = length (pages d) /\ (0 < length (pages d))%nat.

(** The text of a left-aligned drawing: section titles and wrapped lines are
    the only left-aligned texts of the document. *)
Definition left_str (op : DrawOp) : option string :=
  match op with
  | Text _ _ t _ _ AlignLeft => Some t
  | _ => None
  end.

Definition left_strs (ops : list DrawOp) : list string := omap left_str ops.

(** The blocks of lines drawn by [doc.text(lines, x, y)]. *)
Definition line_block (op : DrawOp) : option (list string) :=
  match op with
  | TextLines _ _ lines _ _ => Some lines
  | _ => None
  end.

Definition line_blocks (ops : list DrawOp) : list (list string) := omap line_block ops.

(** Every string a drawing puts on the page. *)
Definition op_strs (op : DrawOp) : list string :=
  match op with
  | Text _ _ t _ _ _ => [t]
  | TextLines _ _ lines _ _ => lines
  | Table _ body => flat_map (fun row => [row.1; row.2]) body
  | _ => []
  end.

Definition drawn_strs (ops : list DrawOp) : list string := flat_map op_strs ops.

Section Generate.

Variable env : Env.

Definition contentW : Q := pageW env - marginL - marginR.

(** The height below which nothing of the flow may reach. *)
Definition bottom : Q := pageH env - marginB.

Definition newPage (st : Layout) : Layout :=
  let d := addPage (doc st) in
  let y0 := 14 in
  let d := setFontSize 8 d in
  let d := setFont Italic d in
  let d := text "Registro de Atención Psicológica — continuación"
             (pageW env - marginR) y0 AlignRight d in
  {| doc := d; y := y0 + 8 |}.

Definition checkPage (needed : Q) (st : Layout) : Layout :=
  if Qlt_le_dec (pageH env - marginB) (y st + needed) then newPage st else st.

(** The body of [lines.forEach]. *)
Definition printLine (st : Layout) (line : string) : Layout :=
  let st := checkPage 7 st in
  let st := on_doc (text line marginL (y st) AlignLeft) st in
  advance 7 st.

Definition printSection (title txt : string) (gapBefore : Q) (st : Layout) : Layout :=
  let st := advance gapBefore st in
  let st := checkPage 12 st in
  let st := on_doc (setFontSize 12) st in
  let st := on_doc (setFont Bold) st in
  let st := on_doc (text title marginL (y st) AlignLeft) st in
  let st := advance 6 st in
  let st := on_doc (setFontSize 11) st in
  let st := on_doc (setFont Normal) st in
  let lines := splitTextToSize env (or_else txt dash) contentW in
  fold_left printLine lines st.

(** The header band and the title of the first page. *)
Definition header (d : Doc) : Doc :=
  let d := draw (Rect 0 0 (pageW env) 40) d in
  let d := setFontSize 20 d in
  let d := setFont Bold d in
  let d := text "I.E.P. VALORES Y CIENCIAS" (pageW env / 2) 17 AlignCenter d in
  let d := setFontSize 12 d in
  let d := setFont Normal d in
  let d := text "Área de Psicología" (pageW env / 2) 28 AlignCenter d in
  let d := setFontSize 14 d in
  let d := setFont Bold d in
  text "REGISTRO DE ATENCIÓN PSICOLÓGICA" (pageW env / 2) 52 AlignCenter d.

Definition tableBody (a : Attention) (fecha : string) : list (string * string) :=
  [ ("Estudiante", or_else (student_name a) dash);
    ("Grado y Sección", or_else (grade a) dash);
    ("Fecha de Atención", fecha);
    ("Hora", opt_or_else (time a) dash);
    ("Psicólogo(a)", opt_or_else (psychologist_name a) dash) ].

(** [autoTable(doc, { startY, body, ... })]: the table starts on the current
    page and continues on as many new pages as it needs. *)
Definition autoTable (startY : Q) (body : list (string * string)) (d : Doc) : Doc :=
  let d := draw (Table startY body) d in
  Nat.iter (tableBreaks env startY body) (fun d => draw TableContinued (addPage d)) d.

Definition signature (a : Attention) (st : Layout) : Layout :=
  let st := advance 12 st in
  let st := checkPage 30 st in
  let sigX1 := pageW env / 2 - 40 in
  let sigX2 := pageW env / 2 + 40 in
  let st := on_doc (draw (Line sigX1 (y st) sigX2 (y st))) st in
  let st := advance 5 st in
  let st := on_doc (setFontSize 10) st in
  let st := on_doc (setFont Normal) st in
  let st := on_doc (text "Firma del Profesional" (pageW env / 2) (y st) AlignCenter) st in
  let st := advance 5 st in
  on_doc (text (opt_or_else (psychologist_name a) "") (pageW env / 2) (y st) AlignCenter) st.

(** Everything drawn before the footer pass, for a date that formats to
    [fecha]. *)
Definition layout (a : Attention) (fecha : string) : Layout :=
  let d := header new_jsPDF in
  let y0 := 60 in
  let body := tableBody a fecha in
  let d := autoTable y0 body d in
  let st := {| doc := d; y := tableFinalY env y0 body + 4 |} in
  let st := printSection "Motivo de Consulta:" (reason a) 6 st in
  let st := printSection "Observaciones:" (observations a) 8 st in
  let st := printSection "Recomendaciones / Plan de Acción:" (recommendations a) 8 st in
  signature a st.

Definition footerText (p : nat) : string :=
  "I.E.P. Valores y Ciencias - Área de Psicología - Generado: " +:+ nowLocale env p.

Definition pageLabel (p totalPages : nat) : string :=
  "Pág. " +:+ of_nat p +:+ " / " +:+ of_nat totalPages.

(** The body of the footer loop for page [p]. *)
Definition stampPage (totalPages : nat) (d : Doc) (p : nat) : Doc :=
  let d := setPage p d in
  let d := setFontSize 8 d in
  let d := setFont Normal d in
  let d := text (footerText p) (pageW env / 2) (pageH env - 8) AlignCenter d in
  text (pageLabel p totalPages) (pageW env - marginR) (pageH env - 8) AlignRight d.

Definition stampFooters (d : Doc) : Doc :=
  let totalPages := getNumberOfPages d in
  fold_left (stampPage totalPages) (seq 1 totalPages) d.

Definition fileName (a : Attention) : string :=
  "Atencion_" +:+ replace_ws "_" (student_name a) +:+ "_" +:+ date a +:+ ".pdf".

(** The document that is saved: the layout, then the footer pass. *)
Definition rendered (a : Attention) (fecha : string) : Doc :=
  stampFooters (doc (layout a fecha)).

Definition generateAttentionPDF (a : Attention) : Result :=
  match formatDate env (date a) with
  | None => Threw "RangeError: Invalid time value"
  | Some fecha => Saved (fileName a) (rendered a fecha)
  end.

(** A drawing of the flow ends above [bottom]: a section title (the one
    bold left-aligned text) with the twelve millimetres asked for it, any
    other left-aligned text with seven, the signature rule with thirty. *)
Definition fits_op (op : DrawOp) : Prop :=
  match op with
  | Text _ Bold _ _ y0 AlignLeft => y0 + 12 <= bottom
  | Text _ _ _ _ y0 AlignLeft => y0 + 7 <= bottom
  | Line _ y1 _ _ => y1 + 30 <= bottom
  | _ => True
  end.

(** A page tall enough for the largest block under the continuation header. *)
Definition tall : Prop := 14 + 8 + 30 <= bottom.

(** What a stretch of the layout does: it leaves drawing on the last page and
    appends drawings whose left-aligned texts are [strs] and which, on a tall
    page, all fit. *)
Definition step_ok (strs : list string) (st st' : Layout) : Prop :=
  on_last (doc st') /\
  exists ops, flat (doc st') = flat (doc st) ++ ops /\
              left_strs ops = strs /\
              (tall -> Forall fits_op ops).

Definition miniHeader : DrawOp :=
  Text 8 Italic "Registro de Atención Psicológica — continuación"
    (pageW env - marginR) 14 AlignRight.

Definition footerOps (p totalPages : nat) : list DrawOp :=
  [ Text 8 Normal (footerText p) (pageW env / 2) (pageH env - 8) AlignCenter;
    Text 8 Normal (pageLabel p totalPages) (pageW env - marginR) (pageH env - 8)
      AlignRight ].

(** The header and the table leave drawing on the last page; nothing they
    draw is left-aligned text or the signature rule. *)
Definition plain (d : Doc) : Prop :=
  on_last d /\ left_strs (flat d) = [] /\ Forall fits_op (flat d).

(** The left-aligned texts of the three sections of a record. *)
Definition sectionTexts (a : Attention) : list string :=
  ("Motivo de Consulta:"
     :: splitTextToSize env (or_else (reason a) dash) contentW) ++
  ("Observaciones:"
     :: splitTextToSize env (or_else (observations a) dash) contentW) ++
  ("Recomendaciones / Plan de Acción:"
     :: splitTextToSize env (or_else (recommendations a) dash) contentW).

End Generate.

(** *** The generator of src/lib/pdf.ts

    The same export without page breaks, footers or placeholder: everything
    is drawn at heights computed from the end of the table. *)

Module Plain.

Section Generate.

Variable env : Env.

Definition tableBody (a : Attention) (fecha : string) : list (string * string) :=
  [ ("Estudiante", student_name a);
    ("Grado y Sección", grade a);
    ("Fecha de Atención", fecha);
    ("Hora", opt_or_else (time a) "N/A");
    ("Psicólogo(a)", opt_or_else (psychologist_name a) "N/A") ].

(** [lastAutoTable.finalY || 100]: zero is falsy. *)
Definition finalY_or (v : Q) : Q := if Qeq_bool v 0 then 100 else v.

Definition rendered (a : Attention) (fecha : string) : Doc :=
  let d := draw (Rect 0 0 210 40) new_jsPDF in
  let d := setFontSize 22 d in
  let d := setFont Bold d in
  let d := text "I.E. VALORES Y CIENCIAS" 105 20 AlignCenter d in
  let d := setFontSize 14 d in
  let d := setFont Normal d in
  let d := text "Área de Psicología" 105 30 AlignCenter d in
  let d := setFontSize 16 d in
  let d := setFont Bold d in
  let d := text "REGISTRO DE ATENCIÓN PSICOLÓGICA" 105 55 AlignCenter d in
  let body := tableBody a fecha in
  let d := autoTable env 65 body d in
  let finalY := finalY_or (tableFinalY env 65 body) in
  let d := setFontSize 12 d in
  let d := setFont Bold d in
  let d := text "Motivo de Consulta:" 14 (finalY + 15) AlignLeft d in
  let d := setFont Normal d in
  let d := textLines (splitTextToSize env (reason a) 180) 14 (finalY + 22) d in
  let reasonHeight := inject_Z (Z.of_nat (length (splitTextToSize env (reason a) 180))) * 7 in
  let d := setFont Bold d in
  let d := text "Observaciones:" 14 (finalY + 25 + reasonHeight) AlignLeft d in
  let d := setFont Normal d in
  let d := textLines (splitTextToSize env (observations a) 180) 14
             (finalY + 32 + reasonHeight) d in
  let obsHeight :=
    inject_Z (Z.of_nat (length (splitTextToSize env (observations a) 180))) * 7 in
  let d := setFont Bold d in
  let d := text "Recomendaciones / Plan de Acción:" 14
             (finalY + 35 + reasonHeight + obsHeight) AlignLeft d in
  let d := setFont Normal d in
  let d := textLines (splitTextToSize env (recommendations a) 180) 14
             (finalY + 42 + reasonHeight + obsHeight) d in
  let pageHeight := pageH env in
  let d := draw (Line 60 (pageHeight - 40) 150 (pageHeight - 40)) d in
  let d := setFontSize 10 d in
  let d := text "Firma del Profesional" 105 (pageHeight - 35) AlignCenter d in
  text (opt_or_else (psychologist_name a) "") 105 (pageHeight - 30) AlignCenter d.

Definition generateAttentionPDF (a : Attention) : Result :=
  match formatDate env (date a) with
  | None => Threw "RangeError: Invalid time value"
  | Some fecha => Saved (fileName a) (rendered a fecha)
  end.

End Generate.

End Plain.

(** What the generator of src/lib/pdf.ts draws after the table. *)
Definition plainTail (env : Env) (a : Attention) (fecha : string) : list DrawOp :=
  let finalY := Plain.finalY_or (tableFinalY env 65 (Plain.tableBody a fecha)) in
  let reasonHeight := inject_Z (Z.of_nat (length (splitTextToSize env (reason a) 180))) * 7 in
  let obsHeight :=
    inject_Z (Z.of_nat (length (splitTextToSize env (observations a) 180))) * 7 in
  [ Text 12 Bold "Motivo de Consulta:" 14 (finalY + 15) AlignLeft;
    TextLines 12 Normal (splitTextToSize env (reason a) 180) 14 (finalY + 22);
    Text 12 Bold "Observaciones:" 14 (finalY + 25 + reasonHeight) AlignLeft;
    TextLines 12 Normal (splitTextToSize env (observations a) 180) 14
      (finalY + 32 + reasonHeight);
    Text 12 Bold "Recomendaciones / Plan de Acción:" 14
      (finalY + 35 + reasonHeight + obsHeight) AlignLeft;
    TextLines 12 Normal (splitTextToSize env (recommendations a) 180) 14
      (finalY + 42 + reasonHeight + obsHeight);
    Line 60 (pageH env - 40) 150 (pageH env - 40);
    Text 10 Normal "Firma del Profesional" 105 (pageH env - 35) AlignCenter;
    Text 10 Normal (opt_or_else (psychologist_name a) "") 105 (pageH env - 30)
      AlignCenter ].

(** *** An environment to run the function in

    A4 paper, a wrapper that cuts the text every ninety characters, a table
    that fits its page with rows of eight millimetres, a fixed clock, and the
    date formatter below. *)

Fixpoint chunk_go (width room : nat) (piece s : string) : list string :=
  match s with
  | EmptyString => [piece]
  | String c r =>
      match room with
      | O => piece :: chunk_go width (width - 1) (String c EmptyString) r
      | S room' => chunk_go width room' (piece +:+ String c EmptyString) r
      end
  end.

Definition month_name (m : nat) : option string :=
  nth_error
    ["enero"; "febrero"; "marzo"; "abril"; "mayo"; "junio"; "julio"; "agosto";
     "septiembre"; "octubre"; "noviembre"; "diciembre"] (m - 1).

Definition days_in_month (yr m : nat) : nat :=
  match m with
  | 2 => if ((yr mod 4 =? 0) && negb (yr mod 100 =? 0) || (yr mod 400 =? 0))%nat
         then 29 else 28
  | 4 | 6 | 9 | 11 => 30
  | _ => 31
  end%nat.

Definition two_digits (a b : ascii) : option nat :=
  match Ascii.is_nat a, Ascii.is_nat b with
  | Some x, Some y => Some (10 * x + y)%nat
  | _, _ => None
  end.

Definition two_digit_string (n : nat) : string :=
  String (ascii_of_nat (48 + n / 10)) (String (ascii_of_nat (48 + n mod 10)) EmptyString).

(** The formatter on the dates the application stores, [yyyy-MM-dd] with a
    year from 1000 on, as a browser on UTC time prints them: a day up to 31
    is accepted in every month and, when the month is shorter, counted on
    into the next one; any other string, the empty one among them, is not a
    date here. *)
Definition format_iso_date (s : string) : option string :=
  match s with
  | String y1 (String y2 (String y3 (String y4 (String "-" (String m1
      (String m2 (String "-" (String d1 (String d2 EmptyString))))))))) =>
      match two_digits y1 y2, two_digits y3 y4, two_digits m1 m2, two_digits d1 d2 with
      | Some hi, Some lo, Some m, Some d =>
          let yr := (100 * hi + lo)%nat in
          if ((10 <=? hi) && (1 <=? m) && (m <=? 12) && (1 <=? d) && (d <=? 31))%nat
          then
            let dim := days_in_month yr m in
            let day := if (d <=? dim)%nat then d else (d - dim)%nat in
            let month := if (d <=? dim)%nat then m else S m in
            match month_name month with
            | Some name =>
                Some (two_digit_string day +:+ " de " +:+ name +:+ ", "
                      +:+ String y1 (String y2 (String y3 (String y4 EmptyString))))
            | None => None
            end
          else None
      | _, _, _, _ => None
      end
  | _ => None
  end.

Definition a4 : Env :=
  {| pageW := 210;
     pageH := 297;
     splitTextToSize := fun s _ => chunk_go 90 90 EmptyString s;
     tableBreaks := fun _ _ => O;
     tableFinalY := fun startY _ => startY + 40;
     formatDate := format_iso_date;
     nowLocale := fun _ => "2/11/2026, 10:00:00" |}.

Example format_rolls_over : format_iso_date "2026-02-30" = Some "02 de marzo, 2026".
Proof. reflexivity. Qed.

Fixpoint repeat_string (n : nat) (s : string) : string :=
  match n with
  | O => EmptyString
  | S n' => s +:+ repeat_string n' s
  end.

(** A record of the student [n]. *)
Definition name_record (n : string) : Attention :=
  {| id := None; student_name := n; grade := "6to Primaria B";
     date := "2026-02-20"; time := Some "10:45";
     reason := "Ansiedad"; observations := ""; recommendations := "";
     psychologist_id := None; psychologist_name := None |}.

(** A record whose three texts are empty, and one whose observations run to
    thirty lines of ninety characters. *)
Definition blank_record (d : string) : Attention :=
  {| id := None; student_name := "Ana  Belén Torres"; grade := "6to Primaria B";
     date := d; time := Some "10:45";
     reason := ""; observations := ""; recommendations := "";
     psychologist_id := None; psychologist_name := Some "Psic. Principal" |}.

Definition long_record : Attention :=
  {| id := None; student_name := "Juan Pérez"; grade := "5to Primaria A";
     date := "2026-02-15"; time := Some "09:30";
     reason := "Dificultades de concentración.";
     observations := repeat_string 2700 "x";
     recommendations := "Seguimiento semanal.";
     psychologist_id := None; psychologist_name := None |}.

(** One section lying on two pages: a line of the long observations is on
    the first page of the document and another on the second. *)
Definition splits_mid_section : Prop :=
  exists pg1 pg2 sz1 st1 y1 sz2 st2 y2,
    pages (rendered a4 long_record "15 de febrero, 2026") = [pg1; pg2] /\
    In (Text sz1 st1 (repeat_string 90 "x") marginL y1 AlignLeft) pg1 /\
    In (Text sz2 st2 (repeat_string 90 "x") marginL y2 AlignLeft) pg2.

(** *** Facts about the document during layout *)

Lemma alter_last {A} (f : A -> A) (front : list A) (x : A) :
  alter f (length front) (front ++ [x]) = front ++ [f x].
Proof.
  replace (length front) with (length front + 0)%nat by lia.
  now rewrite alter_app_r.
Qed.

Lemma draw_last op d :
  on_last d -> on_last (draw op d) /\ flat (draw op d) = flat d ++ [op].
Proof.
  destruct d as [pgs cur fs fst]. unfold on_last, flat, draw. simpl.
  intros [-> Hlen].
  destruct pgs as [|lp front _] using rev_ind; [simpl in Hlen; lia|].
  rewrite length_alter. split; [auto|].
  rewrite length_app. simpl.
  replace (length front + 1 - 1)%nat with (length front) by lia.
  rewrite alter_last, !concat_app. simpl.
  now rewrite !app_nil_r, app_assoc.
Qed.

Lemma addPage_last d : on_last (addPage d) /\ flat (addPage d) = flat d.
Proof.
  unfold on_last, flat, addPage. simpl. rewrite length_app, concat_app. simpl.
  rewrite app_nil_r. repeat split; lia.
Qed.

Lemma on_last_font d n s :
  on_last d -> on_last (setFontSize n d) /\ on_last (setFont s d).
Proof. intros H. split; exact H. Qed.

Lemma text_last t x y0 al d :
  on_last d ->
  on_last (text t x y0 al d) /\
  flat (text t x y0 al d) = flat d ++ [Text (fontSize d) (fontStyle d) t x y0 al].
Proof. apply draw_last. Qed.

Lemma left_strs_app a b : left_strs (a ++ b) = left_strs a ++ left_strs b.
Proof. apply omap_app. Qed.

Section Layout.

Variable env : Env.

Lemma step_ok_refl st : on_last (doc st) -> step_ok env [] st st.
Proof.
  intros H. split; [exact H|]. exists []. rewrite app_nil_r. repeat split.
  constructor.
Qed.

Lemma step_ok_trans s1 s2 st st' st'' :
  step_ok env s1 st st' -> step_ok env s2 st' st'' ->
  step_ok env (s1 ++ s2) st st''.
Proof.
  intros (_ & ops1 & E1 & L1 & F1) (Hl & ops2 & E2 & L2 & F2).
  split; [exact Hl|]. exists (ops1 ++ ops2).
  rewrite E2, E1, app_assoc, left_strs_app, L1, L2. repeat split.
  intros T. apply Forall_app. auto.
Qed.

(** One drawing on the last page. *)
Lemma step_ok_draw op st :
  on_last (doc st) -> (tall env -> fits_op env op) ->
  step_ok env (left_strs [op]) st (on_doc (draw op) st).
Proof.
  intros H Hfit. destruct (draw_last op (doc st) H) as [Hl E].
  split; [exact Hl|]. exists [op]. simpl. repeat split; auto.
Qed.

Lemma newPage_pages st :
  pages (doc (newPage env st)) = pages (doc st) ++ [[miniHeader env]] /\
  current (doc (newPage env st)) = S (length (pages (doc st))) /\
  y (newPage env st) = 14 + 8.
Proof.
  unfold newPage, text, draw, addPage. simpl.
  rewrite Nat.sub_0_r, alter_last. repeat split.
Qed.

Lemma newPage_ok st : on_last (doc st) -> step_ok env [] st (newPage env st).
Proof.
  intros H. destruct (newPage_pages st) as (Hp & Hc & _).
  unfold step_ok, on_last, flat. rewrite Hp, Hc, length_app, concat_app. simpl.
  split; [split; lia|]. exists [miniHeader env]. repeat split.
  intros _. repeat constructor.
Qed.

Lemma checkPage_cases needed st :
  (bottom env < y st + needed -> checkPage env needed st = newPage env st) /\
  (y st + needed <= bottom env -> checkPage env needed st = st).
Proof.
  unfold checkPage, bottom.
  destruct (Qlt_le_dec (pageH env - marginB) (y st + needed)) as [Hlt|Hle];
    split; intros Hc; try reflexivity; exfalso; lra.
Qed.

Lemma checkPage_ok needed st :
  on_last (doc st) ->
  step_ok env [] st (checkPage env needed st) /\
  (14 + 8 + needed <= bottom env -> y (checkPage env needed st) + needed <= bottom env) /\
  (fontStyle (doc st) <> Bold -> fontStyle (doc (checkPage env needed st)) <> Bold).
Proof.
  intros H. unfold checkPage. fold (bottom env).
  destruct (Qlt_le_dec (bottom env) (y st + needed)) as [Hlt|Hle].
  - split; [now apply newPage_ok|]. split; [intros Hn; exact Hn | discriminate].
  - split; [now apply step_ok_refl|]. split; auto.
Qed.

Lemma printLine_ok st line :
  on_last (doc st) -> fontStyle (doc st) <> Bold ->
  step_ok env [line] st (printLine env st line) /\
  fontStyle (doc (printLine env st line)) <> Bold.
Proof.
  intros H Hf. unfold printLine. cbv zeta.
  destruct (checkPage_ok 7 st H) as (Hck & Hy & Hfont).
  set (st1 := checkPage env 7 st) in *.
  split; [|exact (Hfont Hf)].
  pose proof (Hfont Hf) as Hf1.
  destruct Hck as (Hl1 & ops1 & E1 & L1 & F1).
  destruct (text_last line marginL (y st1) AlignLeft (doc st1) Hl1) as [Hl2 E2].
  split; [exact Hl2|].
  exists (ops1 ++ [Text (fontSize (doc st1)) (fontStyle (doc st1)) line marginL
                     (y st1) AlignLeft]).
  simpl. rewrite E2, E1, app_assoc, left_strs_app, L1. repeat split.
  intros T. apply Forall_app. split; [auto|]. constructor; [|constructor].
  assert (Hfit : y st1 + 7 <= bottom env) by (apply Hy; unfold tall in T; lra).
  simpl. destruct (fontStyle (doc st1)); [exact Hfit | congruence | exact Hfit].
Qed.

Lemma printLines_ok lines st :
  on_last (doc st) -> fontStyle (doc st) <> Bold ->
  step_ok env lines st (fold_left (printLine env) lines st).
Proof.
  revert st. induction lines as [|l ls IH]; intros st H Hf; simpl.
  - now apply step_ok_refl.
  - destruct (printLine_ok st l H Hf) as [Hs Hf'].
    apply (step_ok_trans [l] ls _ _ _ Hs). apply IH; [apply Hs | exact Hf'].
Qed.

Lemma printSection_ok title txt gap st :
  on_last (doc st) ->
  step_ok env (title :: splitTextToSize env (or_else txt dash) (contentW env))
    st (printSection env title txt gap st).
Proof.
  intros H. unfold printSection. cbv zeta.
  destruct (checkPage_ok 12 (advance gap st) H) as (Hck & Hy & _).
  set (st1 := checkPage env 12 (advance gap st)) in *.
  pose proof Hck as (Hl1 & _).
  set (st2 := on_doc (setFont Bold) (on_doc (setFontSize 12) st1)).
  assert (Hl2 : on_last (doc st2)) by exact Hl1.
  assert (Htitle : step_ok env [title] st2
            (on_doc (text title marginL (y st2) AlignLeft) st2)).
  { apply (step_ok_draw (Text 12 Bold title marginL (y st1) AlignLeft) st2 Hl2).
    intros T. simpl. apply Hy. unfold tall in T. lra. }
  set (st3 := on_doc (text title marginL (y st2) AlignLeft) st2) in *.
  set (st4 := on_doc (setFont Normal) (on_doc (setFontSize 11) (advance 6 st3))).
  assert (Hlines := printLines_ok
            (splitTextToSize env (or_else txt dash) (contentW env)) st4
            (proj1 Htitle) ltac:(discriminate)).
  change (title :: ?l) with ([] ++ [title] ++ l).
  eapply step_ok_trans; [|eapply step_ok_trans; [|exact Hlines]].
  - exact Hck.
  - exact Htitle.
Qed.

Lemma signature_ok a st :
  on_last (doc st) -> step_ok env [] st (signature env a st).
Proof.
  intros H. unfold signature. cbv zeta.
  destruct (checkPage_ok 30 (advance 12 st) H) as (Hck & Hy & _).
  set (st1 := checkPage env 30 (advance 12 st)) in *.
  pose proof Hck as (Hl1 & _).
  pose proof (step_ok_draw
    (Line (pageW env / 2 - 40) (y st1) (pageW env / 2 + 40) (y st1)) st1 Hl1
    (fun T => Hy T)) as Hline.
  set (st2 := on_doc (draw (Line _ _ _ _)) st1) in *.
  set (st3 := on_doc (setFont Normal) (on_doc (setFontSize 10) (advance 5 st2))).
  pose proof (step_ok_draw
    (Text 10 Normal "Firma del Profesional" (pageW env / 2) (y st3) AlignCenter)
    st3 (proj1 Hline) (fun _ => I)) as Hfirma.
  set (st4 := on_doc (draw (Text 10 Normal "Firma del Profesional" _ _ _)) st3) in *.
  pose proof (step_ok_draw
    (Text 10 Normal (opt_or_else (psychologist_name a) "") (pageW env / 2)
       (y (advance 5 st4)) AlignCenter)
    (advance 5 st4) (proj1 Hfirma) (fun _ => I)) as Hname.
  change (@nil string) with ([] ++ [] ++ [] ++ @nil string).
  eapply step_ok_trans; [exact Hck|].
  eapply step_ok_trans; [exact Hline|].
  eapply step_ok_trans; [exact Hfirma|exact Hname].
Qed.

Lemma plain_draw op d :
  plain env d -> left_str op = None -> fits_op env op -> plain env (draw op d).
Proof.
  intros (Hl & Hs & Hf) Hop Hfit. destruct (draw_last op d Hl) as [Hl' E].
  split; [exact Hl'|]. rewrite E, left_strs_app, Hs. simpl. rewrite Hop.
  split; [reflexivity|]. apply Forall_app. split; [exact Hf|]. now constructor.
Qed.

Lemma plain_addPage d : plain env d -> plain env (addPage d).
Proof.
  intros (_ & Hs & Hf). destruct (addPage_last d) as [Hl E].
  split; [exact Hl|]. now rewrite E.
Qed.

Lemma plain_header : plain env (header env new_jsPDF).
Proof.
  split; [split; simpl; lia|]. split; [reflexivity|].
  unfold flat. simpl. repeat constructor.
Qed.

Lemma plain_autoTable startY body d : plain env d -> plain env (autoTable env startY body d).
Proof.
  intros Hd. unfold autoTable. cbv zeta.
  induction (tableBreaks env startY body) as [|n IH]; simpl.
  - now apply plain_draw.
  - apply plain_draw; [|reflexivity|exact I]. now apply plain_addPage.
Qed.

Lemma layout_ok a fecha :
  let laid := doc (layout env a fecha) in
  on_last laid /\
  left_strs (flat laid) = sectionTexts env a /\
  (tall env -> Forall (fits_op env) (flat laid)).
Proof.
  unfold layout. cbv zeta.
  pose proof (plain_autoTable 60 (tableBody a fecha) _ plain_header)
    as (Hl0 & Hs0 & Hf0).
  set (st0 := {| doc := autoTable env 60 (tableBody a fecha) (header env new_jsPDF);
                 y := tableFinalY env 60 (tableBody a fecha) + 4 |}) in *.
  pose proof (printSection_ok "Motivo de Consulta:" (reason a) 6 st0 Hl0) as H1.
  set (st1 := printSection env "Motivo de Consulta:" (reason a) 6 st0) in *.
  pose proof (printSection_ok "Observaciones:" (observations a) 8 st1 (proj1 H1)) as H2.
  set (st2 := printSection env "Observaciones:" (observations a) 8 st1) in *.
  pose proof (printSection_ok "Recomendaciones / Plan de Acción:"
                (recommendations a) 8 st2 (proj1 H2)) as H3.
  set (st3 := printSection env "Recomendaciones / Plan de Acción:"
                (recommendations a) 8 st2) in *.
  pose proof (signature_ok a st3 (proj1 H3)) as H4.
  pose proof (step_ok_trans _ _ _ _ _ H1
                (step_ok_trans _ _ _ _ _ H2 (step_ok_trans _ _ _ _ _ H3 H4)))
    as (Hl & ops & E & Hs & Hf).
  split; [exact Hl|]. rewrite E, left_strs_app, Hs.
  change (flat (doc st0)) with
    (flat (autoTable env 60 (tableBody a fecha) (header env new_jsPDF))).
  rewrite Hs0. simpl. unfold sectionTexts. rewrite app_nil_r.
  split; [reflexivity|].
  intros T. apply Forall_app. auto.
Qed.

(** *** The footer pass *)

Lemma stampPage_pages totalPages d p :
  (1 <= p <= length (pages d))%nat ->
  pages (stampPage env totalPages d p)
  = alter (fun pg => pg ++ footerOps env p totalPages) (p - 1)%nat (pages d).
Proof.
  intros [Hp1 Hp2]. unfold stampPage, setPage, text, draw. cbv zeta.
  rewrite (proj2 (Nat.leb_le 1 p) Hp1), (proj2 (Nat.leb_le p _) Hp2). simpl.
  rewrite list_alter_alter_eq. apply list_alter_ext; [|reflexivity].
  intros pg _. simpl. now rewrite <- app_assoc.
Qed.

Lemma stampFooters_upto d k :
  (k <= length (pages d))%nat ->
  let N := length (pages d) in
  let dk := fold_left (stampPage env N) (seq 1 k) d in
  length (pages dk) = N /\
  forall i, pages dk !! i
            = if decide (i < k)%nat
              then (fun pg => pg ++ footerOps env (S i) N) <$> pages d !! i
              else pages d !! i.
Proof.
  intros Hk N. induction k as [|k IH].
  - simpl. split; [reflexivity|]. intros i. reflexivity.
  - destruct IH as [Hlen Hlook]; [lia|]. cbv zeta in *.
    rewrite seq_S, fold_left_app. cbn [fold_left Nat.add].
    set (dk := fold_left (stampPage env N) (seq 1 k) d) in *.
    rewrite stampPage_pages by (rewrite Hlen; unfold N; lia).
    rewrite length_alter. split; [exact Hlen|].
    intros i. replace (S k - 1)%nat with k by lia.
    rewrite list_lookup_alter.
    destruct (decide (k = i)) as [<-|Hne]; rewrite Hlook.
    + rewrite decide_False, decide_True by lia. reflexivity.
    + destruct (decide (i < k)%nat).
      * now rewrite decide_True by lia.
      * now rewrite decide_False by lia.
Qed.

(** The footer pass adds the two footer texts at the end of every page and
    nothing else, with the page count it read before it started. *)
Lemma stampFooters_pages d :
  pages (stampFooters env d)
  = imap (fun i pg => pg ++ footerOps env (S i) (length (pages d))) (pages d).
Proof.
  unfold stampFooters, getNumberOfPages.
  destruct (stampFooters_upto d (length (pages d)) (le_n _)) as [_ Hlook].
  apply list_eq. intros i. rewrite Hlook, list_lookup_imap.
  destruct (decide (i < length (pages d))%nat) as [Hi|Hi]; [reflexivity|].
  now rewrite lookup_ge_None_2 by lia.
Qed.

Lemma flat_imap_footers {A} (F : nat -> list DrawOp)
    (pgs : list (list DrawOp)) (g : list DrawOp -> list A) :
  (forall a b, g (a ++ b) = g a ++ g b) -> (forall i, g (F i) = []) ->
  g (concat (imap (fun i pg => pg ++ F i) pgs)) = g (concat pgs).
Proof.
  intros Happ HF. revert F HF.
  induction pgs as [|pg pgs IH]; intros F HF; [reflexivity|].
  rewrite imap_cons. simpl. rewrite !Happ, HF, app_nil_r. f_equal.
  apply (IH (fun i => F (S i))). intros i. apply HF.
Qed.

Lemma rendered_left_strs a fecha :
  left_strs (flat (rendered env a fecha)) = sectionTexts env a.
Proof.
  unfold rendered, flat. rewrite stampFooters_pages.
  rewrite (flat_imap_footers _ _ left_strs left_strs_app) by reflexivity.
  apply layout_ok.
Qed.

Lemma rendered_page a fecha p pg :
  pages (rendered env a fecha) !! p = Some pg <->
  exists content,
    pages (doc (layout env a fecha)) !! p = Some content /\
    pg = content ++ footerOps env (S p) (length (pages (doc (layout env a fecha)))).
Proof.
  unfold rendered. rewrite stampFooters_pages, list_lookup_imap.
  destruct (pages (doc (layout env a fecha)) !! p) as [content|]; simpl; split.
  - intros [= <-]. now exists content.
  - intros (c & [= <-] & ->). reflexivity.
  - discriminate.
  - intros (c & Hc & _). discriminate Hc.
Qed.

Lemma rendered_length a fecha :
  length (pages (rendered env a fecha)) = length (pages (doc (layout env a fecha))).
Proof. unfold rendered. now rewrite stampFooters_pages, length_imap. Qed.

Lemma rendered_fits a fecha pg op :
  tall env -> In pg (pages (rendered env a fecha)) -> In op pg -> fits_op env op.
Proof.
  intros T Hpg Hop.
  apply list_elem_of_In, list_elem_of_lookup in Hpg as [p Hp].
  apply rendered_page in Hp as (content & Hc & ->).
  apply in_app_or in Hop as [Hop|Hop].
  - destruct (layout_ok a fecha) as (_ & _ & Hf).
    specialize (Hf T). rewrite Forall_forall in Hf. apply Hf.
    apply list_elem_of_In. unfold flat. apply in_concat. exists content.
    split; [|exact Hop]. apply list_elem_of_In. eapply list_elem_of_lookup_2. exact Hc.
  - simpl in Hop. destruct Hop as [<-|[<-|[]]]; exact I.
Qed.

End Layout.

Lemma generate_saved env a f d :
  generateAttentionPDF env a = Saved f d ->
  exists fecha,
    formatDate env (date a) = Some fecha /\ f = fileName a /\ d = rendered env a fecha.
Proof.
  unfold generateAttentionPDF.
  destruct (formatDate env (date a)) as [fecha|]; [|discriminate].
  intros [= <- <-]. now exists fecha.
Qed.

Lemma plain_generate_saved env a f d :
  Plain.generateAttentionPDF env a = Saved f d ->
  exists fecha,
    formatDate env (date a) = Some fecha /\ f = fileName a /\
    d = Plain.rendered env a fecha.
Proof.
  unfold Plain.generateAttentionPDF.
  destruct (formatDate env (date a)) as [fecha|]; [|discriminate].
  intros [= <- <-]. now exists fecha.
Qed.

Lemma tall_of_height env : 80 <= pageH env -> tall env.
Proof. unfold tall, bottom, marginB. intros H. lra. Qed.

Example long_record_splits : splits_mid_section.
Proof.
  unfold splits_mid_section.
  eexists _, _, _, _, _, _, _, _.
  split; [vm_compute; reflexivity|].
  split; vm_compute; repeat first [left; reflexivity | right].
Qed.

(** After a page break inside a section the remaining lines are drawn in the
    font of the continuation header, which [newPage] leaves set. *)
Example line_after_break_font :
  exists pg1 rest,
    pages (rendered a4 long_record "15 de febrero, 2026")
    = [pg1; miniHeader a4 :: Text 8 Italic (repeat_string 90 "x") 16 22 AlignLeft :: rest].
Proof. eexists _, _. vm_compute. reflexivity. Qed.

(** A date string the formatter does not accept makes either generator
    throw before anything is saved. *)
Example blank_record_bad_date_throws :
  generateAttentionPDF a4 (blank_record "") = Threw "RangeError: Invalid time value" /\
  Plain.generateAttentionPDF a4 (blank_record "")
    = Threw "RangeError: Invalid time value".
Proof. repeat split. Qed.

(** *** What the generator of src/lib/pdf.ts draws *)

Lemma draws_flat ops d :
  on_last d ->
  on_last (fold_left (fun d op => draw op d) ops d) /\
  flat (fold_left (fun d op => draw op d) ops d) = flat d ++ ops.
Proof.
  revert d. induction ops as [|op ops IH]; intros d Hl; simpl.
  - now rewrite app_nil_r.
  - destruct (draw_last op d Hl) as [Hl' E].
    destruct (IH _ Hl') as [Hl'' E'].
    split; [exact Hl''|]. now rewrite E', E, <- app_assoc.
Qed.

Definition is_table_op (op : DrawOp) : Prop :=
  match op with
  | Table _ _ | TableContinued => True
  | _ => False
  end.

Lemma autoTable_flat env startY body d :
  on_last d ->
  on_last (autoTable env startY body d) /\
  exists conts,
    flat (autoTable env startY body d) = flat d ++ Table startY body :: conts /\
    Forall (fun op => op = TableContinued) conts.
Proof.
  intros Hl. unfold autoTable. cbv zeta.
  destruct (draw_last (Table startY body) d Hl) as [Hl0 E0].
  induction (tableBreaks env startY body) as [|n (IHl & conts & IHe & IHc)].
  - split; [exact Hl0|]. exists []. split; [exact E0 | constructor].
  - rewrite Nat.iter_succ.
    destruct (addPage_last (Nat.iter n (fun d => draw TableContinued (addPage d))
                              (draw (Table startY body) d))) as [Hla Ea].
    destruct (draw_last TableContinued _ Hla) as [Hl' E'].
    split; [exact Hl'|]. exists (conts ++ [TableContinued]).
    split.
    + rewrite E', Ea, IHe, <- app_assoc. reflexivity.
    + apply Forall_app. split; [exact IHc | repeat constructor].
Qed.

(** The whole of what the generator of src/lib/pdf.ts draws: the header,
    the table with its continuations, and the drawings after the table. *)
Lemma plain_rendered_flat env a fecha :
  exists conts,
    flat (Plain.rendered env a fecha)
    = [ Rect 0 0 210 40;
        Text 22 Bold "I.E. VALORES Y CIENCIAS" 105 20 AlignCenter;
        Text 14 Normal "Área de Psicología" 105 30 AlignCenter;
        Text 16 Bold "REGISTRO DE ATENCIÓN PSICOLÓGICA" 105 55 AlignCenter;
        Table 65 (Plain.tableBody a fecha) ] ++ conts ++ plainTail env a fecha /\
    Forall (fun op => op = TableContinued) conts.
Proof.
  set (d0 := text "REGISTRO DE ATENCIÓN PSICOLÓGICA" 105 55 AlignCenter
               (setFont Bold (setFontSize 16
                  (text "Área de Psicología" 105 30 AlignCenter
                     (setFont Normal (setFontSize 14
                        (text "I.E. VALORES Y CIENCIAS" 105 20 AlignCenter
                           (setFont Bold (setFontSize 22
                              (draw (Rect 0 0 210 40) new_jsPDF)))))))))).
  assert (Hl0 : on_last d0) by (split; simpl; lia).
  destruct (autoTable_flat env 65 (Plain.tableBody a fecha) d0 Hl0)
    as (Hl1 & conts & E1 & Hc).
  set (d1 := autoTable env 65 (Plain.tableBody a fecha) d0) in *.
  destruct (draws_flat (plainTail env a fecha) d1 Hl1) as [_ E2].
  assert (E : flat (Plain.rendered env a fecha)
              = flat (fold_left (fun d op => draw op d) (plainTail env a fecha) d1))
    by reflexivity.
  exists conts. split; [|exact Hc].
  rewrite E, E2, E1. change (flat d0) with
    [ Rect 0 0 210 40;
      Text 22 Bold "I.E. VALORES Y CIENCIAS" 105 20 AlignCenter;
      Text 14 Normal "Área de Psicología" 105 30 AlignCenter;
      Text 16 Bold "REGISTRO DE ATENCIÓN PSICOLÓGICA" 105 55 AlignCenter ].
  rewrite <- app_assoc. reflexivity.
Qed.

Lemma omap_continued {A} (f : DrawOp -> option A) conts :
  f TableContinued = None -> Forall (fun op => op = TableContinued) conts ->
  omap f conts = [].
Proof.
  intros Hf. induction 1 as [|op conts -> _ IH]; [reflexivity|].
  simpl. now rewrite Hf.
Qed.

(** Its left-aligned texts are the three titles, and its blocks of lines are
    what the wrapper makes of the three texts as they are: it has no
    placeholder. *)
Lemma plain_rendered_texts env a fecha :
  left_strs (flat (Plain.rendered env a fecha))
  = ["Motivo de Consulta:"; "Observaciones:"; "Recomendaciones / Plan de Acción:"] /\
  line_blocks (flat (Plain.rendered env a fecha))
  = [ splitTextToSize env (reason a) 180;
      splitTextToSize env (observations a) 180;
      splitTextToSize env (recommendations a) 180 ].
Proof.
  destruct (plain_rendered_flat env a fecha) as (conts & -> & Hc).
  unfold left_strs, line_blocks. rewrite !omap_app.
  rewrite !(omap_continued _ conts) by (reflexivity || exact Hc).
  split; reflexivity.
Qed.

(** C2, as stated, fails: for a record with a date the formatter accepts and
    its three texts empty, the generator of src/lib/pdf.ts saves a document
    on which no placeholder dash is drawn; under each title it draws the
    empty line the wrapper makes of the empty text. *)
Lemma plain_blank_record_has_no_dash :
  let a := blank_record "2026-02-20" in
  reason a = "" /\ observations a = "" /\ recommendations a = "" /\
  exists d,
    Plain.generateAttentionPDF a4 a = Saved "Atencion_Ana_Belén_Torres_2026-02-20.pdf" d /\
    line_blocks (flat d) = [[""]; [""]; [""]] /\
    ~ In dash (drawn_strs (flat d)).
Proof.
  cbv zeta. repeat split. eexists. split; [reflexivity|].
  split; [vm_compute; reflexivity|].
  vm_compute. intros H.
  repeat (destruct H as [H|H]; [discriminate H|]). exact H.
Qed.

(** C2, amended: for a record whose date the formatter accepts and whose
    three texts are empty, both generators save a document. In the document
    of the paginating generator the left-aligned texts are, in order, each
    section title followed by the lines the wrapper makes of the placeholder
    dash: the dash itself when the wrapper leaves it whole. In the document
    of the generator of src/lib/pdf.ts the left-aligned texts are the three
    titles alone, and the block of lines under each title is what the
    wrapper makes of the empty text: that generator has no placeholder. *)
Theorem blank_sections_render_dash env a fecha :
  formatDate env (date a) = Some fecha ->
  reason a = "" -> observations a = "" -> recommendations a = "" ->
  let d := rendered env a fecha in
  let p := Plain.rendered env a fecha in
  let dashLines := splitTextToSize env dash (contentW env) in
  let emptyLines := splitTextToSize env "" 180 in
  generateAttentionPDF env a = Saved (fileName a) d /\
  Plain.generateAttentionPDF env a = Saved (fileName a) p /\
  left_strs (flat d)
    = ("Motivo de Consulta:" :: dashLines) ++
      ("Observaciones:" :: dashLines) ++
      ("Recomendaciones / Plan de Acción:" :: dashLines) /\
  (dashLines = [dash] ->
   left_strs (flat d)
     = ["Motivo de Consulta:"; dash; "Observaciones:"; dash;
        "Recomendaciones / Plan de Acción:"; dash]) /\
  left_strs (flat p)
    = ["Motivo de Consulta:"; "Observaciones:"; "Recomendaciones / Plan de Acción:"] /\
  line_blocks (flat p) = [emptyLines; emptyLines; emptyLines].
Proof.
  intros Hdate Hr Ho Hc d p dashLines emptyLines.
  assert (Hstrs : left_strs (flat d)
    = ("Motivo de Consulta:" :: dashLines) ++
      ("Observaciones:" :: dashLines) ++
      ("Recomendaciones / Plan de Acción:" :: dashLines)).
  { subst d. rewrite rendered_left_strs. unfold sectionTexts.
    now rewrite Hr, Ho, Hc. }
  split; [unfold generateAttentionPDF; now rewrite Hdate|].
  split; [unfold Plain.generateAttentionPDF; now rewrite Hdate|].
  split; [exact Hstrs|].
  split; [intros Hd; rewrite Hstrs, Hd; reflexivity|].
  destruct (plain_rendered_texts env a fecha) as [Hleft Hblocks].
  split; [exact Hleft|].
  subst p emptyLines. rewrite Hblocks, Hr, Ho, Hc. reflexivity.
Qed.

Lemma blank_sections_render_dash_witness :
  left_strs (flat (rendered a4 (blank_record "2026-02-20") "20 de febrero, 2026"))
  = ["Motivo de Consulta:"; dash; "Observaciones:"; dash;
     "Recomendaciones / Plan de Acción:"; dash].
Proof.
  exact (proj1 (proj2 (proj2 (proj2
           (blank_sections_render_dash a4 (blank_record "2026-02-20")
              "20 de febrero, 2026" eq_refl eq_refl eq_refl eq_refl))))
           eq_refl).
Defined.

(** C3: the saved document is the laid-out document after the footer pass;
    the pass adds no page, and it ends every page p with the footer line and
    the label "Pág. p / N", N being the number of pages of the saved
    document, however many pages the texts run to. *)
Theorem footer_on_every_page env a f d :
  generateAttentionPDF env a = Saved f d ->
  exists fecha,
    formatDate env (date a) = Some fecha /\
    let laid := doc (layout env a fecha) in
    let N := length (pages d) in
    d = stampFooters env laid /\
    N = length (pages laid) /\
    (forall p content, pages laid !! p = Some content ->
       pages d !! p = Some (content ++ footerOps env (S p) N)) /\
    (forall p pg, pages d !! p = Some pg ->
       In (Text 8 Normal ("Pág. " +:+ of_nat (S p) +:+ " / " +:+ of_nat N)
             (pageW env - marginR) (pageH env - 8) AlignRight) pg).
Proof.
  intros Hgen. apply generate_saved in Hgen as (fecha & Hdate & _ & ->).
  exists fecha. split; [exact Hdate|]. cbv zeta.
  rewrite rendered_length. split; [reflexivity|]. split; [reflexivity|]. split.
  - intros p content Hc. apply rendered_page. now exists content.
  - intros p pg Hpg. apply rendered_page in Hpg as (content & _ & ->).
    apply in_or_app. right. simpl. auto.
Qed.

Lemma footer_on_every_page_witness :
  length (pages (rendered a4 long_record "15 de febrero, 2026")) = 2%nat /\
  forall p pg,
    pages (rendered a4 long_record "15 de febrero, 2026") !! p = Some pg ->
    In (Text 8 Normal ("Pág. " +:+ of_nat (S p) +:+ " / " +:+ of_nat 2)
          (pageW a4 - marginR) (pageH a4 - 8) AlignRight) pg.
Proof.
  split; [vm_compute; reflexivity|].
  destruct (footer_on_every_page a4 long_record _ _ eq_refl)
    as (fecha & Hdate & _ & _ & _ & Hlabel).
  exact Hlabel.
Defined.

(** C4: [checkPage] starts a new page exactly when the block would pass the
    bottom margin; the new page opens with the continuation header at 14 and
    leaves the cursor at 22, and after the check the block fits. On a page of
    at least 80 mm every section title, every wrapped line and the signature
    rule of a saved document is drawn at a height from which the space asked
    for it ends above the bottom margin; the lines are checked one by one, and
    a section can lie on two pages. *)
Theorem page_break_keeps_flow_above_margin env :
  80 <= pageH env ->
  (forall needed st,
     (bottom env < y st + needed -> checkPage env needed st = newPage env st) /\
     (y st + needed <= bottom env -> checkPage env needed st = st) /\
     pages (doc (newPage env st)) = pages (doc st) ++ [[miniHeader env]] /\
     y (newPage env st) = 22 /\
     (needed <= 30 -> y (checkPage env needed st) + needed <= bottom env)) /\
  (forall st line,
     printLine env st line
     = advance 7 (on_doc (text line marginL (y (checkPage env 7 st)) AlignLeft)
                    (checkPage env 7 st))) /\
  (forall a f d pg op,
     generateAttentionPDF env a = Saved f d ->
     In pg (pages d) -> In op pg -> fits_op env op) /\
  splits_mid_section.
Proof.
  intros Hh. pose proof (tall_of_height env Hh) as T.
  split; [|split; [reflexivity|split; [|exact long_record_splits]]].
  - intros needed st. destruct (checkPage_cases env needed st) as [Hbreak Hstay].
    destruct (newPage_pages env st) as (Hp & _ & Hy).
    split; [exact Hbreak|]. split; [exact Hstay|]. split; [exact Hp|].
    split; [exact Hy|].
    intros Hn. unfold checkPage. fold (bottom env).
    destruct (Qlt_le_dec (bottom env) (y st + needed)) as [Hlt|Hle]; [|exact Hle].
    rewrite Hy. unfold tall in T. lra.
  - intros a f d pg op Hgen Hpg Hop.
    apply generate_saved in Hgen as (fecha & _ & _ & ->).
    exact (rendered_fits env a fecha pg op T Hpg Hop).
Qed.

Lemma page_break_keeps_flow_above_margin_witness :
  80 <= pageH a4 /\
  forall pg op,
    In pg (pages (rendered a4 long_record "15 de febrero, 2026")) ->
    In op pg -> fits_op a4 op.
Proof.
  assert (H80 : 80 <= pageH a4) by (unfold Qle; simpl; lia).
  split; [exact H80|].
  intros pg op.
  exact (proj1 (proj2 (proj2 (page_break_keeps_flow_above_margin a4 H80)))
           long_record _ _ pg op eq_refl).
Defined.

(** C9: the name a document is saved under, by either generator, is
    "Atencion_", the student name with each maximal run of whitespace
    characters replaced by one underscore, "_", the date and ".pdf"; the
    replacement is the join by underscores of the stretches between the
    runs, it copies a stretch in which no whitespace character begins and
    turns a whole run into a single underscore; two records with the same
    student name and date are saved under the same name. *)
Theorem filename_from_name_and_date env a f d :
  generateAttentionPDF env a = Saved f d \/
  Plain.generateAttentionPDF env a = Saved f d ->
  f = "Atencion_" +:+ replace_ws "_" (student_name a) +:+ "_" +:+ date a +:+ ".pdf" /\
  replace_ws "_" (student_name a) = String.concat "_" (split_ws (student_name a)) /\
  (forall w s, clear_of_ws w s = true -> replace_ws "_" (w +:+ s) = w +:+ replace_ws "_" s) /\
  (forall run s, run <> "" -> blanks run = true -> starts_ws s = false ->
     replace_ws "_" (run +:+ s) = "_" +:+ replace_ws "_" s) /\
  (forall env' b f' d',
     generateAttentionPDF env' b = Saved f' d' \/
     Plain.generateAttentionPDF env' b = Saved f' d' ->
     student_name b = student_name a -> date b = date a -> f' = f).
Proof.
  assert (Hname : forall e r g x,
            generateAttentionPDF e r = Saved g x \/
            Plain.generateAttentionPDF e r = Saved g x -> g = fileName r).
  { intros e r g x [H|H].
    - now apply generate_saved in H as (? & _ & -> & _).
    - now apply plain_generate_saved in H as (? & _ & -> & _). }
  intros Hgen. rewrite (Hname _ _ _ _ Hgen).
  split; [reflexivity|]. split; [apply replace_ws_join|].
  split; [intros w s; apply replace_ws_word|].
  split; [intros run s; apply replace_ws_run|].
  intros env' b f' d' Hb Hn Hd. rewrite (Hname _ _ _ _ Hb).
  unfold fileName. now rewrite Hn, Hd.
Qed.

Lemma filename_from_name_and_date_witness :
  "Atencion_Ana_Belén_Torres_2026-02-20.pdf"
  = "Atencion_" +:+ replace_ws "_" "Ana  Belén Torres" +:+ "_" +:+ "2026-02-20" +:+ ".pdf".
Proof.
  exact (proj1 (filename_from_name_and_date a4 (blank_record "2026-02-20")
                  "Atencion_Ana_Belén_Torres_2026-02-20.pdf"
                  (rendered a4 (blank_record "2026-02-20") "20 de febrero, 2026")
                  (or_introl eq_refl))).
Defined.

(** A no-break space and an ideographic space in the name are whitespace
    like any other. *)
Example filename_unicode_spaces :
  fileName (name_record ("Ana" +:+ NBSP +:+ IDSP +:+ "Torres"))
  = "Atencion_Ana_Torres_2026-02-20.pdf".
Proof. reflexivity. Qed.

End Pdf.

(* ===================================================================== *)
(** ** The gate over several runs of its effect *)
(* ===================================================================== *)

Module GateRuns.
Import JS Gate.

(** What one run of the effect of [RequireAuth] meets: whether the component
    is still mounted when its awaits return, and what they return. The
    effect runs again whenever [allowedRoles] or the path changes, on the
    state the previous run left. *)
Record Run := {
  run_url : string;
  run_mounted : bool;
  run_session : Awaited (option Session);
  run_fetch : string -> Awaited ProfileResponse
}.

Section Runs.

Variable engine : Engine.
Variable portalUrl : string.
Variable encodeURIComponent : string -> string.
Variable allowedRoles : list UserRole.

Definition run_once (st : GateState) (r : Run) : GateState :=
  state (checkAuth engine portalUrl encodeURIComponent allowedRoles (run_url r)
           (run_mounted r) (run_session r) (run_fetch r) st).

Definition run_all (rs : list Run) (st : GateState) : GateState :=
  fold_left run_once rs st.

Lemma run_once_loading st r : loading st = false -> loading (run_once st r) = false.
Proof.
  intros Hl. unfold run_once, checkAuth, stopLoading.
  destruct (run_session r) as [[s|]|]; simpl; auto; [|destruct (run_mounted r); auto].
  destruct (run_fetch r (user_id s)) as [resp|]; simpl; [|destruct (run_mounted r); auto].
  destruct (error resp), (data resp); simpl; destruct (run_mounted r); simpl; auto.
Qed.

Lemma run_once_forbidden st r : forbidden st = true -> forbidden (run_once st r) = true.
Proof. apply forbidden_sticky. Qed.

Lemma run_all_forbidden rs st :
  forbidden st = true -> forbidden (run_all rs st) = true.
Proof.
  revert st. induction rs as [|r rs IH]; intros st H; simpl; [exact H|].
  apply IH. now apply run_once_forbidden.
Qed.

Lemma run_all_loading rs st :
  loading st = false -> loading (run_all rs st) = false.
Proof.
  revert st. induction rs as [|r rs IH]; intros st H; simpl; [exact H|].
  apply IH. now apply run_once_loading.
Qed.

(** Once the gate has denied access it never shows the children again, and
    once it has stopped loading it never shows the spinner again, whatever
    the later runs of its effect meet: no run resets either cell. *)
Theorem gate_cells_never_reset rs st :
  (forbidden st = true -> render (run_all rs st) <> Children) /\
  (loading st = false -> render (run_all rs st) <> Spinner) /\
  (loading st = false -> forbidden st = true ->
   render (run_all rs st) = Forbidden403).
Proof.
  pose proof (run_all_forbidden rs st) as Hf.
  pose proof (run_all_loading rs st) as Hl.
  unfold render. repeat split.
  - intros H E. rewrite (Hf H) in E.
    destruct (loading (run_all rs st)); discriminate E.
  - intros H E. rewrite (Hl H) in E.
    destruct (forbidden (run_all rs st)); discriminate E.
  - intros H1 H2. now rewrite (Hl H1), (Hf H2).
Qed.

(** The gate sends the browser to the login page exactly when the component
    is mounted and there is no session; the address is then the portal's
    login view with the visited address as its return parameter, and the
    state is left as it was (the spinner stays). With a session, whatever
    the profile lookup gives, no run redirects. *)
Theorem redirect_iff_no_session url mounted sess fetch st :
  let out := checkAuth engine portalUrl encodeURIComponent allowedRoles url mounted sess fetch st in
  (href out <> None <-> mounted = true /\ sess = Resolved None) /\
  (href out <> None ->
     href out = Some (portalUrl +:+ "?view=login&returnTo=" +:+ encodeURIComponent url) /\
     state out = st).
Proof.
  unfold checkAuth, stopLoading, loginUrl.
  destruct sess as [[s|]|e]; simpl.
  - destruct (fetch (user_id s)) as [resp|e]; simpl.
    + destruct (error resp), (data resp); simpl; try destruct mounted; simpl;
        (split; [split; [congruence | intros [_ H]; discriminate H] | congruence]).
    + split; [split; [congruence | intros [_ H]; discriminate H] | congruence].
  - destruct mounted; simpl.
    + split; [split; [auto | discriminate] | auto].
    + split; [split; [congruence | intros [H _]; discriminate H] | congruence].
  - split; [split; [congruence | intros [_ H]; discriminate H] | congruence].
Qed.

(** A run whose awaits return after the component was unmounted changes no
    cell and does not redirect, whatever they return. *)
Theorem unmounted_run_does_nothing url sess fetch st :
  checkAuth engine portalUrl encodeURIComponent allowedRoles url false sess fetch st
  = {| state := st; href := None |}.
Proof.
  unfold checkAuth, stopLoading.
  destruct sess as [[s|]|e]; simpl; try reflexivity.
  destruct (fetch (user_id s)) as [resp|e]; simpl; try reflexivity.
  destruct (error resp), (data resp); reflexivity.
Qed.

End Runs.

End GateRuns.

(* ===================================================================== *)
(** ** The application shell: menu and routes (Layout, MainApp) *)
(* ===================================================================== *)

Module Shell.
Import JS Gate.

(** [user?.role === UserRole.PSICOLOGA]: strict equality with the member's
    string, with no normalisation. *)
Definition isPsicologa (user : option Profile) : bool :=
  match user with
  | Some p =>
      match role p with
      | Some r => String.eqb r (role_value PSICOLOGA)
      | None => false
      end
  | None => false
  end.

(** [menuItems] of [Layout]: label and path. *)
Definition menuItems (psicologa : bool) : list (string * string) :=
  if psicologa
  then [ ("Inicio", "/"); ("Agenda", "/schedule"); ("Recordatorios", "/reminders");
         ("Historial", "/history"); ("Registrar Atención", "/new") ]
  else [ ("Historial", "/history") ].

Inductive Page := HomePage | SchedulePage | RemindersPage | HistoryPage | NewAttentionPage.

Inductive Element :=
| Show (p : Page)
| Navigate (to : string).

(** The [<Route>] children of [MainApp], the catch-all apart. *)
Definition routes (psicologa : bool) : list (string * Element) :=
  [ ("/", if psicologa then Show HomePage else Navigate "/history") ] ++
  (if psicologa then [ ("/schedule", Show SchedulePage) ] else []) ++
  (if psicologa then [ ("/reminders", Show RemindersPage) ] else []) ++
  [ ("/history", Show HistoryPage) ] ++
  (if psicologa then [ ("/new", Show NewAttentionPage) ] else []).

(** [<Route path="*" element={<Navigate to="/" replace />} />] *)
Definition catchAll : Element := Navigate "/".

(** The paths the routes are registered under. *)
Definition staticPaths : list string :=
  ["/"; "/schedule"; "/reminders"; "/history"; "/new"].

Section Router.

(** The router's test of a location against a registered path. *)
Variable matches : string -> string -> bool.

Definition element_at (psicologa : bool) (location : string) : Element :=
  match find (fun r => matches r.1 location) (routes psicologa) with
  | Some r => r.2
  | None => catchAll
  end.

(** The page shown for a location, following at most [fuel] redirects. *)
Fixpoint page_at (fuel : nat) (psicologa : bool) (location : string) : option Page :=
  match element_at psicologa location with
  | Show p => Some p
  | Navigate to =>
      match fuel with
      | O => None
      | S fuel' => page_at fuel' psicologa to
      end
  end.

(** Among the registered paths the router tells one from another. *)
Definition separates : Prop :=
  forall p q, In p staticPaths -> In q staticPaths ->
              (matches p q = true <-> p = q).

End Router.

Lemma separates_eqb : separates String.eqb.
Proof. intros p q _ _. apply String.eqb_eq. Qed.

Lemma element_at_other matches location :
  element_at matches false location
  = if matches "/" location then Navigate "/history"
    else if matches "/history" location then Show HistoryPage
    else Navigate "/".
Proof.
  unfold element_at. simpl.
  destruct (matches "/" location); [reflexivity|].
  destruct (matches "/history" location); reflexivity.
Qed.

Lemma page_at_eq matches fuel psicologa location :
  page_at matches fuel psicologa location
  = match element_at matches psicologa location with
    | Show p => Some p
    | Navigate to =>
        match fuel with
        | O => None
        | S fuel' => page_at matches fuel' psicologa to
        end
    end.
Proof. destruct fuel; reflexivity. Qed.

Section OtherRoles.

Variable matches : string -> string -> bool.
Hypothesis Hsep : separates matches.

Lemma matches_root : matches "/" "/" = true.
Proof. apply Hsep; simpl; auto. Qed.

Lemma matches_history : matches "/history" "/history" = true.
Proof. apply Hsep; simpl; auto 6. Qed.

Lemma root_not_history : matches "/" "/history" = false.
Proof.
  destruct (matches "/" "/history") eqn:E; [|reflexivity].
  apply Hsep in E; [discriminate E | simpl; auto | simpl; auto 6].
Qed.

Lemma history_stays n : page_at matches n false "/history" = Some HistoryPage.
Proof.
  rewrite page_at_eq, element_at_other, root_not_history, matches_history.
  reflexivity.
Qed.

Lemma root_to_history n : page_at matches (S n) false "/" = Some HistoryPage.
Proof. rewrite page_at_eq, element_at_other, matches_root. apply history_stays. Qed.

Lemma history_within_two_redirects location fuel :
  page_at matches (2 + fuel) false location = Some HistoryPage.
Proof.
  rewrite page_at_eq, element_at_other.
  destruct (matches "/" location); [apply history_stays|].
  destruct (matches "/history" location); [reflexivity|]. apply root_to_history.
Qed.

End OtherRoles.



(** Every entry of the menu leads, without a redirect, to a page that is
    registered for the role the menu was built for. *)
Theorem menu_entries_are_routed matches psicologa label path :
  separates matches ->
  In (label, path) (menuItems psicologa) ->
  exists p, element_at matches psicologa path = Show p.
Proof.
  intros Hsep Hin.
  assert (Hm : forall p q, In p staticPaths -> In q staticPaths ->
                           matches p q = if String.eqb p q then true else false).
  { intros p q Hp Hq. destruct (String.eqb_spec p q) as [->|Hne].
    - now apply Hsep.
    - destruct (matches p q) eqn:E; [|reflexivity]. now apply Hsep in E. }
  unfold element_at.
  destruct psicologa; simpl in Hin;
    repeat (destruct Hin as [[= <- <-]|Hin]); try contradiction; simpl;
    rewrite ?Hm by (simpl; auto 10); simpl; eauto.
Qed.

Lemma menu_entries_are_routed_witness :
  exists p, element_at String.eqb true "/reminders" = Show p.
Proof.
  exact (menu_entries_are_routed String.eqb true "Recordatorios" "/reminders"
           separates_eqb (or_intror (or_intror (or_introl eq_refl)))).
Defined.

(** The gate and the application read the role differently: a profile whose
    role is "psicologa" up to letter case or surrounding whitespace, but not
    letter for letter, is let in by a gate that allows PSICOLOGA and is then
    not a psicologa for the application. *)
Theorem role_spelling_gate_vs_app e portal enc allowed url uid fetch p st s :
  forbidden st = false ->
  fetch uid = Resolved {| data := Some p; error := None |} ->
  In PSICOLOGA allowed ->
  role p = Some s -> role_variant s "psicologa" -> s <> "psicologa" ->
  gate_view e portal enc allowed url (Resolved (Some {| user_id := uid |})) fetch st
    = Children /\
  isPsicologa (Some p) = false /\
  menuItems (isPsicologa (Some p)) = [ ("Historial", "/history") ].
Proof.
  intros Hf Hfetch Hin Hrole Hvar Hne.
  assert (Hps : isPsicologa (Some p) = false).
  { unfold isPsicologa. rewrite Hrole. now apply String.eqb_neq. }
  split; [|split; [exact Hps | now rewrite Hps]].
  rewrite (gate_view_profile e portal enc allowed url uid fetch p st Hfetch), Hf.
  rewrite Hrole, opt_or_else_empty.
  assert (Hal : isAllowed e allowed (normalize e s) = true).
  { apply isAllowed_spec. exists PSICOLOGA. split; [exact Hin|].
    symmetry. now apply normalize_role_variant. }
  now rewrite Hal.
Qed.

Lemma role_spelling_gate_vs_app_witness :
  gate_view ascii_engine "https://portal.example" (fun u => u)
    [PSICOLOGA; ADMIN; SUPERVISOR]
    "https://app.example/" (Resolved (Some {| user_id := "u-1" |}))
    (fun _ => Resolved {| data := Some sample_profile; error := None |})
    initial_state = Children /\
  isPsicologa (Some sample_profile) = false.
Proof.
  assert (Hv : role_variant " Psicologa " "psicologa").
  { exists " ", "Psicologa", " ". repeat split.
    repeat first
      [ apply cv_nil
      | apply cv_cons;
        [ first [ left; reflexivity | right; left; reflexivity ] | ] ]. }
  pose proof (role_spelling_gate_vs_app ascii_engine
                "https://portal.example" (fun u => u)
                [PSICOLOGA; ADMIN; SUPERVISOR] "https://app.example/" "u-1"
                (fun _ => Resolved {| data := Some sample_profile; error := None |})
                sample_profile initial_state " Psicologa "
                eq_refl eq_refl (or_introl eq_refl) eq_refl Hv
                ltac:(discriminate)) as (H1 & H2 & _).
  split; [exact H1 | exact H2].
Defined.

End Shell.

(* ===================================================================== *)
(** ** Student search: the debounced effect and further facts *)
(* ===================================================================== *)

Module SearchEffect.
Import JS Search.

(** What the debounced effect stores in [students] once the term has
    settled and the round trip has succeeded: terms shorter than two
    characters clear the list. *)
Definition settled (storeIlike : string -> string -> bool)
    (searchTerm : string) (table : list Student) : list Student :=
  if (2 <=? str_length searchTerm)%nat
  then searchStudents storeIlike searchTerm table
  else [].




Lemma filter_sublist {A} (f : A -> bool) (l : list A) : sublist (List.filter f l) l.
Proof.
  induction l as [|x l IH]; simpl; [constructor|].
  destruct (f x); now constructor.
Qed.



(** The list the effect stores never has more than ten students and is the
    table with rows left out: no row is invented, repeated or moved. *)
Theorem settled_is_bounded_sublist storeIlike term table :
  (length (settled storeIlike term table) <= 10)%nat /\
  sublist (settled storeIlike term table) table.
Proof.
  unfold settled. destruct (2 <=? str_length term)%nat.
  - rewrite searchStudents_eq. split.
    + rewrite length_take. lia.
    + etransitivity; [apply sublist_take | apply filter_sublist].
  - split; [simpl; lia | apply sublist_nil_l].
Qed.

End SearchEffect.

(* ===================================================================== *)
(** ** The agenda and the dashboard over the appointment table
       (Schedule, Home, and the server's /api/stats) *)
(* ===================================================================== *)

Module Agenda.
Import Appointments.

Lemma filter_sublist_mono {A} (P : A -> Prop) `{!forall x, Decision (P x)}
    (l1 l2 : list A) :
  sublist l1 l2 -> sublist (filter P l1) (filter P l2).
Proof.
  induction 1 as [|x l1 l2 _ IH|x l1 l2 _ IH]; [constructor| |];
    rewrite ?filter_cons; destruct (decide (P x)); auto using sublist_skip, sublist_cons.
Qed.

Section Views.

Context `{Countable Id} {Rem : Type}.

Abbreviation Table := (gmap Id Appointment).

(** What the count query of the dashboard returns on a table:
    [.eq('psychologist_id', user.id).eq('date', today).eq('status', 'pending')]
    with [{ count: 'exact', head: true }]; [today] is the day the clock
    shows when [fetchDashboardData] runs. *)
Definition todayCount (uid today : string) (db : Table) : nat :=
  length (filter (fun ia => psychologist_id ia.2 = uid /\ date ia.2 = today /\
                            status ia.2 = "pending")
            (map_to_list db)).

(** The state of [Home]: [stats], [appointments] and [reminders]. The rows
    of the reminders are of a type the dashboard only passes along. *)
Record Home := {
  totalAttentions : nat;
  todayAppointments : nat;
  appointments : list (Id * Appointment);
  reminders : list Rem
}.

Definition initial_home : Home :=
  {| totalAttentions := 0; todayAppointments := 0; appointments := []; reminders := [] |}.

(** What the four requests of [fetchDashboardData] come back with: [count]
    of the two counting requests and [data] of the two listing ones, each
    absent when its request fails. *)
Record Answers := {
  attCount : option nat;
  apptToday : option nat;
  appts : option (list (Id * Appointment));
  rems : option (list Rem)
}.

(** [fetchDashboardData]: nothing without a user; the counts fall back to 0
    ([count ?? 0]), the lists are kept when their request brings no data. *)
Definition fetchDashboardData (user : option string) (ans : Answers) (h : Home) : Home :=
  match user with
  | None => h
  | Some _ =>
      {| totalAttentions := default 0 (attCount ans);
         todayAppointments := default 0 (apptToday ans);
         appointments := default (appointments h) (appts ans);
         reminders := default (reminders h) (rems ans) |}
  end.

(** [appointments.filter(a => a.date === todayStr)]; [todayStr] is the day
    the clock shows when [Home] renders. *)
Definition todayAppts (todayStr : string) (appointments : list (Id * Appointment))
    : list (Id * Appointment) :=
  filter (fun ia => date ia.2 = todayStr) appointments.

(** [todayAppointments] of [GET /api/stats]:
    [COUNT( * ) ... WHERE date = ? AND status = 'pending']. *)
Definition stats_todayAppointments (today : string) (db : Table) : nat :=
  length (filter (fun ia => date ia.2 = today /\ status ia.2 = "pending")
            (map_to_list db)).

(** The appointments of [uid] that are pending and dated before [today]. *)
Definition overdue (uid today : string) (db : Table) : list (Id * Appointment) :=
  filter (fun ia => psychologist_id ia.2 = uid /\ status ia.2 = "pending" /\
                    String.ltb (date ia.2) today = true)
    (map_to_list db).

Lemma compare_refl s : String.compare s s = Eq.
Proof.
  induction s as [|c s IH]; simpl; [reflexivity|].
  unfold Ascii.compare. now rewrite N.compare_refl.
Qed.

Lemma leb_iff s t : String.leb s t = true <-> String.le s t.
Proof. unfold String.le. symmetry. apply Is_true_true. Qed.

Lemma compare_Lt_leb s t : String.compare s t = Lt -> String.leb s t = true.
Proof. unfold String.leb. now intros ->. Qed.

Lemma compare_Lt_ne s t : String.compare s t = Lt -> s <> t.
Proof. intros Hc ->. rewrite compare_refl in Hc. discriminate. Qed.

Lemma leb_ne_Lt s t : String.leb s t = true -> s <> t -> String.compare s t = Lt.
Proof.
  unfold String.leb. destruct (String.compare s t) eqn:E; try congruence.
  intros _ Hne. now apply String.compare_eq_iff in E.
Qed.

Lemma leb_trans s t u :
  String.leb s t = true -> String.leb t u = true -> String.leb s u = true.
Proof. rewrite !leb_iff. apply transitivity. Qed.

(** Strictly before, then at most: strictly before. *)
Lemma lt_le_Lt s t u :
  String.compare s t = Lt -> String.leb t u = true -> String.compare s u = Lt.
Proof.
  intros Hst Htu. apply leb_ne_Lt.
  - exact (leb_trans _ _ _ (compare_Lt_leb _ _ Hst) Htu).
  - intros ->. apply (compare_Lt_ne _ _ Hst).
    apply String.leb_antisym; [exact (compare_Lt_leb _ _ Hst) | exact Htu].
Qed.

Lemma le_lt_Lt s t u :
  String.leb s t = true -> String.compare t u = Lt -> String.compare s u = Lt.
Proof.
  intros Hst Htu. apply leb_ne_Lt.
  - exact (leb_trans _ _ _ Hst (compare_Lt_leb _ _ Htu)).
  - intros ->. apply (compare_Lt_ne _ _ Htu).
    apply String.leb_antisym; [exact (compare_Lt_leb _ _ Htu) | exact Hst].
Qed.

Lemma before_b_date x y : before_b x y = true -> String.leb (date x) (date y) = true.
Proof.
  unfold before_b, String.leb. destruct (String.compare (date x) (date y)); congruence.
Qed.

Lemma before_b_trans x y z :
  before_b x y = true -> before_b y z = true -> before_b x z = true.
Proof.
  unfold before_b.
  destruct (String.compare (date x) (date y)) eqn:Exy; try discriminate;
    destruct (String.compare (date y) (date z)) eqn:Eyz; try discriminate; intros Hxy Hyz.
  - apply String.compare_eq_iff in Exy, Eyz. rewrite Exy, Eyz, compare_refl.
    eapply leb_trans; eassumption.
  - apply String.compare_eq_iff in Exy. now rewrite Exy, Eyz.
  - apply String.compare_eq_iff in Eyz. now rewrite <- Eyz, Exy.
  - now rewrite (lt_le_Lt _ _ _ Exy (compare_Lt_leb _ _ Eyz)).
Qed.

Lemma before_b_total x y : before_b x y = true \/ before_b y x = true.
Proof.
  unfold before_b. rewrite (String.compare_antisym (date y) (date x)).
  destruct (String.compare (date x) (date y)) eqn:E; simpl; auto.
  apply String.leb_total.
Qed.

#[local] Instance by_date_time_trans : Transitive (by_date_time (Id:=Id)).
Proof.
  intros x y z. unfold by_date_time. rewrite !Is_true_true. apply before_b_trans.
Qed.

#[local] Instance by_date_time_total : Total (by_date_time (Id:=Id)).
Proof.
  intros x y. unfold by_date_time. rewrite !Is_true_true. apply before_b_total.
Qed.

Lemma fetchAppointments_elem uid (db : Table) i a :
  (i, a) ∈ fetchAppointments uid db <->
  db !! i = Some a /\ psychologist_id a = uid /\ status a = "pending".
Proof.
  unfold fetchAppointments.
  rewrite merge_sort_Permutation, list_elem_of_filter, elem_of_map_to_list.
  simpl. tauto.
Qed.

Lemma fetchAppointments_sorted uid (db : Table) :
  StronglySorted by_date_time (fetchAppointments uid db).
Proof. apply StronglySorted_merge_sort; apply _. Qed.

Lemma fetchAppointments_NoDup uid (db : Table) : NoDup (fetchAppointments uid db).
Proof.
  unfold fetchAppointments. rewrite merge_sort_Permutation.
  apply NoDup_filter, NoDup_map_to_list.
Qed.

(** The agenda lists exactly the pending appointments of the psychologist,
    each once, ordered by date and, within a date, by time. *)
Theorem agenda_is_exact_and_ordered uid (db : Table) :
  (forall i a, (i, a) ∈ fetchAppointments uid db <->
               db !! i = Some a /\ psychologist_id a = uid /\ status a = "pending") /\
  NoDup (fetchAppointments uid db) /\
  StronglySorted by_date_time (fetchAppointments uid db).
Proof.
  split; [intros i a; apply fetchAppointments_elem|].
  split; [apply fetchAppointments_NoDup | apply fetchAppointments_sorted].
Qed.

(** Scheduling under a free key adds one pending appointment that the agenda
    of its psychologist lists and no other agenda does, and keeps every row
    the agendas listed; under a key already taken it changes nothing. *)
Theorem scheduled_appointment_is_listed new_id created fd uid (db : Table) :
  let db' := insert_pending new_id created fd uid db in
  (db !! new_id = None ->
     (exists a, (new_id, a) ∈ fetchAppointments uid db' /\
                student_name a = fd_student_name fd /\ grade a = fd_grade fd /\
                date a = fd_date fd /\ time a = fd_time fd) /\
     (forall other a, other <> uid -> (new_id, a) ∉ fetchAppointments other db') /\
     (forall who i a, (i, a) ∈ fetchAppointments who db ->
                      (i, a) ∈ fetchAppointments who db')) /\
  (db !! new_id <> None -> db' = db).
Proof.
  intros db'. subst db'. unfold insert_pending. split.
  - intros Hfree. rewrite Hfree. split; [|split].
    + eexists. rewrite fetchAppointments_elem, lookup_insert_eq. simpl. auto 10.
    + intros other a Hne. rewrite fetchAppointments_elem, lookup_insert_eq.
      intros ([= <-] & Hown & _). simpl in Hown. congruence.
    + intros who i a. rewrite !fetchAppointments_elem. intros (Hi & Hrest).
      split; [|exact Hrest]. rewrite lookup_insert_ne; [exact Hi | congruence].
  - intros Htaken. destruct (db !! new_id); [reflexivity | congruence].
Qed.

(** Writes of the status compose as assignments do: a write to a key the
    table does not hold changes nothing, of two writes to the same key the
    last one stands, and writes to different keys can be swapped. *)
Theorem status_writes_compose (db : Table) i j s t :
  (db !! i = None -> updateStatus i s db = db) /\
  updateStatus i t (updateStatus i s db) = updateStatus i t db /\
  (i <> j ->
   updateStatus i s (updateStatus j t db) = updateStatus j t (updateStatus i s db)).
Proof.
  split; [|split].
  - intros Hnone. apply map_eq. intros k. rewrite updateStatus_lookup.
    destruct (decide (i = k)) as [<-|]; [now rewrite Hnone | reflexivity].
  - apply map_eq. intros k. rewrite !updateStatus_lookup.
    destruct (decide (i = k)); [|reflexivity].
    destruct (db !! k); reflexivity.
  - intros Hne. apply map_eq. intros k. rewrite !updateStatus_lookup.
    destruct (decide (i = k)), (decide (j = k)); congruence.
Qed.

Lemma today_filter_length uid today (db : Table) :
  length (filter (fun ia : Id * Appointment => date ia.2 = today)
            (fetchAppointments uid db))
  = todayCount uid today db.
Proof.
  unfold fetchAppointments, todayCount.
  rewrite merge_sort_Permutation, list_filter_filter.
  f_equal. apply list_filter_iff. intros [i a]. simpl. tauto.
Qed.

(** On the dashboard the list of today's appointments holds rows of the
    list [Home] keeps, dated the day of the render; the count beside it is
    what the counting request returned, or 0 when that request failed, and
    a listing request that brings no data leaves the list as it was. When
    the listing request was answered on a table, the rows shown are pending
    appointments of the user in that table dated the day of the render, none
    twice and at most five; when moreover the counting request was answered
    on the same table and no midnight lies between the fetch and the render,
    they are no more than the count shown. *)
Theorem today_list_within_count uid today todayStr (db : Table) (ans : Answers)
    (h : Home) :
  let h' := fetchDashboardData (Some uid) ans h in
  let shown := todayAppts todayStr (appointments h') in
  (forall ia, ia ∈ shown <-> ia ∈ appointments h' /\ date ia.2 = todayStr) /\
  todayAppointments h' = default 0 (apptToday ans) /\
  (appts ans = None -> appointments h' = appointments h) /\
  (appts ans = Some (dashboardAppointments uid db) ->
     (forall i a, (i, a) ∈ shown ->
        db !! i = Some a /\ psychologist_id a = uid /\ status a = "pending" /\
        date a = todayStr) /\
     NoDup shown /\
     (length shown <= 5)%nat /\
     (apptToday ans = Some (todayCount uid today db) -> todayStr = today ->
        (length shown <= todayAppointments h')%nat)).
Proof.
  intros h' shown. subst h' shown. unfold todayAppts. cbn [fetchDashboardData
    appointments todayAppointments].
  split; [|split; [reflexivity|split]].
  - intros ia. rewrite list_elem_of_filter. tauto.
  - now intros ->.
  - intros ->. cbn [default from_option id]. unfold dashboardAppointments. split; [|split; [|split]].
    + intros i a [Hd Hin]%list_elem_of_filter.
      apply (subseteq_take 5), fetchAppointments_elem in Hin. simpl in Hd. tauto.
    + apply NoDup_filter.
      eapply sublist_NoDup; [apply fetchAppointments_NoDup | apply sublist_take].
    + etransitivity; [apply length_filter|]. rewrite length_take. lia.
    + intros -> ->. cbn [default from_option id]. rewrite <- today_filter_length.
      apply sublist_length. apply filter_sublist_mono, sublist_take.
Qed.

(** The count of [/api/stats] is the number of rows dated today in the
    answer of [GET /api/appointments]. *)
Theorem stats_count_matches_listing today (db : Table) :
  stats_todayAppointments today db
  = length (filter (fun ia : Id * Appointment => date ia.2 = today)
              (get_api_appointments db)).
Proof.
  unfold stats_todayAppointments, get_api_appointments.
  rewrite merge_sort_Permutation, list_filter_filter. reflexivity.
Qed.

Lemma filter_none {A} (P : A -> Prop) `{!forall x, Decision (P x)} (l : list A) :
  Forall (fun x => ~ P x) l -> filter P l = [].
Proof.
  induction 1 as [|x l Hx _ IH]; [reflexivity|].
  now rewrite filter_cons, decide_False.
Qed.

Lemma sorted_prefix {A} (R : relation A) (P : A -> Prop)
    `{!forall x, Decision (P x)} (l : list A) :
  StronglySorted R l -> (forall x y, R x y -> P y -> P x) ->
  l = filter P l ++ filter (fun x => ~ P x) l.
Proof.
  intros Hs Hdown. induction Hs as [|x l Hs IH Hall]; [reflexivity|].
  rewrite !filter_cons. destruct (decide (P x)) as [Hx|Hx].
  - rewrite decide_False by tauto. simpl. now rewrite <- IH.
  - rewrite decide_True by exact Hx.
    assert (Hnone : filter P l = []).
    { apply filter_none. rewrite Forall_forall in Hall |- *.
      intros y Hy Py. apply Hx. exact (Hdown x y (Hall y Hy) Py). }
    rewrite Hnone in IH |- *. simpl in *. now rewrite <- IH.
Qed.

Lemma overdue_length uid today (db : Table) :
  length (filter (fun ia : Id * Appointment => String.ltb (date ia.2) today = true)
            (fetchAppointments uid db))
  = length (overdue uid today db).
Proof.
  unfold fetchAppointments, overdue.
  rewrite merge_sort_Permutation, list_filter_filter.
  f_equal. apply list_filter_iff. intros [i a]. simpl. tauto.
Qed.

Lemma before_today_down today (x y : Id * Appointment) :
  by_date_time x y ->
  String.ltb (date y.2) today = true -> String.ltb (date x.2) today = true.
Proof.
  unfold by_date_time. rewrite Is_true_true. intros Hxy%before_b_date.
  unfold String.ltb.
  destruct (String.compare (date y.2) today) eqn:E; try discriminate. intros _.
  now rewrite (le_lt_Lt _ _ _ Hxy E).
Qed.

(** The dashboard reads the first five pending appointments in date order
    and only then keeps those of today: once five pending appointments of
    the user lie in the past, the list of today's appointments is empty,
    however many appointments of today the count beside it reports. *)
Theorem overdue_crowd_out_today uid todayStr (db : Table) :
  (5 <= length (overdue uid todayStr db))%nat ->
  todayAppts todayStr (dashboardAppointments uid db) = [] /\
  (forall (ans : Answers) (h : Home),
     appts ans = Some (dashboardAppointments uid db) ->
     todayAppts todayStr (appointments (fetchDashboardData (Some uid) ans h)) = []).
Proof.
  intros Hfive.
  assert (Hnone : todayAppts todayStr (dashboardAppointments uid db) = []).
  { unfold todayAppts, dashboardAppointments.
    set (P := fun ia : Id * Appointment => String.ltb (date ia.2) todayStr = true).
    rewrite (sorted_prefix by_date_time P (fetchAppointments uid db)
               (fetchAppointments_sorted uid db) (before_today_down todayStr)).
    rewrite take_app_le by (unfold P; rewrite overdue_length; exact Hfive).
    apply filter_none. apply Forall_forall. intros ia Hin Htoday.
    apply (subseteq_take 5), list_elem_of_filter in Hin as [Hlt _].
    unfold P, String.ltb in Hlt. rewrite Htoday, compare_refl in Hlt. discriminate. }
  split; [exact Hnone|].
  intros ans h Hans. cbn [fetchDashboardData appointments]. now rewrite Hans.
Qed.

End Views.

Definition crowded_table : gmap string Appointment :=
  let appt d :=
    {| psychologist_id := "u-1"; student_id := None; student_name := "E";
       grade := "1ro"; date := d; time := "08:00"; status := "pending";
       created_at := "" |} in
  {[ "a" := appt "2026-02-23"; "b" := appt "2026-02-24"; "c" := appt "2026-02-25";
     "d" := appt "2026-02-26"; "e" := appt "2026-02-27"; "f" := appt "2026-03-02" ]}.

Lemma overdue_crowd_out_today_witness :
  todayCount "u-1" "2026-03-02" crowded_table = 1%nat /\
  todayAppts "2026-03-02" (dashboardAppointments "u-1" crowded_table) = [].
Proof.
  split; [vm_compute; reflexivity|].
  refine (proj1 (overdue_crowd_out_today (Rem:=unit) "u-1" "2026-03-02" crowded_table _)).
  vm_compute. repeat constructor.
Defined.

Definition evening_table : gmap string Appointment :=
  {[ "a" := {| psychologist_id := "u-1"; student_id := None; student_name := "E";
               grade := "1ro"; date := "2026-03-03"; time := "08:00";
               status := "pending"; created_at := "" |} ]}.

(** Both requests answered on the same table the evening before: after
    midnight the list shows the appointment of the new day beside a count
    of 0. *)
Example list_outgrows_count_over_midnight :
  let ans : Answers (Rem:=unit) :=
    {| attCount := Some 0%nat;
       apptToday := Some (todayCount "u-1" "2026-03-02" evening_table);
       appts := Some (dashboardAppointments "u-1" evening_table);
       rems := Some [] |} in
  let h := fetchDashboardData (Some "u-1") ans initial_home in
  todayAppointments h = 0%nat /\
  length (todayAppts "2026-03-03" (appointments h)) = 1%nat.
Proof. vm_compute. split; reflexivity. Qed.

(** The counting request fails, the listing one does not: the count shown
    is 0 beside a list of one. *)
Example failed_count_shows_zero :
  let ans : Answers (Rem:=unit) :=
    {| attCount := None; apptToday := None;
       appts := Some (dashboardAppointments "u-1" evening_table);
       rems := None |} in
  let h := fetchDashboardData (Some "u-1") ans initial_home in
  todayAppointments h = 0%nat /\
  length (todayAppts "2026-03-03" (appointments h)) = 1%nat.
Proof. vm_compute. split; reflexivity. Qed.

End Agenda.

(* ===================================================================== *)
(** ** Reminders (Reminders page and the dashboard's reminder cards) *)
(* ===================================================================== *)

Module Reminders.

(** A row of [psych_reminders], without its key; [is_completed] is optional
    in [interface PsychReminder]. *)
Record Reminder := {
  psychologist_id : string;
  title : string;
  description : string;
  type : string;
  is_completed : option bool;
  created_at : string
}.

(** The form of the modal. *)
Record FormData := {
  fd_title : string;
  fd_description : string;
  fd_type : string
}.

(** A missing flag is falsy. *)
Definition truthy (c : option bool) : bool := default false c.

Definition set_completed (b : bool) (r : Reminder) : Reminder :=
  {| psychologist_id := psychologist_id r; title := title r;
     description := description r; type := type r;
     is_completed := Some b; created_at := created_at r |}.


(** [.order('is_completed', { ascending: true })
     .order('created_at', { ascending: false })]; a null flag sorts last. *)
Definition rank (c : option bool) : nat :=
  match c with
  | Some false => 0
  | Some true => 1
  | None => 2
  end.

Definition page_before_b (x y : Reminder) : bool :=
  if (rank (is_completed x) <? rank (is_completed y))%nat then true
  else if (rank (is_completed x) =? rank (is_completed y))%nat
       then String.leb (created_at y) (created_at x)
       else false.

Section Store.

Context `{Countable Id}.

Abbreviation Table := (gmap Id Reminder).

Definition page_order (x y : Id * Reminder) : Prop := page_before_b x.2 y.2.

#[local] Instance page_order_dec : RelDecision page_order.
Proof. intros x y. unfold page_order. apply _. Defined.

Definition newest_first (x y : Id * Reminder) : Prop :=
  String.leb (created_at y.2) (created_at x.2).

#[local] Instance newest_first_dec : RelDecision newest_first.
Proof. intros x y. unfold newest_first. apply _. Defined.

(** [Reminders.fetchReminders] *)
Definition fetchReminders (uid : string) (db : Table) : list (Id * Reminder) :=
  merge_sort page_order
    (filter (fun ir => psychologist_id ir.2 = uid) (map_to_list db)).


(** The page: the list it holds and the table behind it. *)
Record World := {
  store : Table;
  shown : list (Id * Reminder)
}.




(** [toggleComplete(reminder)]: the row as the page shows it decides the new
    flag, which goes to the list at once; the update is sent after that and
    its result is not read, so the list stays changed whether the update
    went through ([landed]) or not. *)
Definition toggleComplete (landed : bool) (reminder : Id * Reminder) (w : World) : World :=
  let updated := negb (truthy (is_completed reminder.2)) in
  {| store := if landed then alter (set_completed updated) reminder.1 (store w)
              else store w;
     shown := (fun r => if decide (r.1 = reminder.1)
                        then (r.1, set_completed updated r.2) else r) <$> shown w |}.

(** [handleDelete(id)]: the result of the delete is not read either. *)
Definition handleDelete (landed : bool) (id : Id) (w : World) : World :=
  {| store := if landed then delete id (store w) else store w;
     shown := filter (fun r => r.1 <> id) (shown w) |}.






Lemma fetchReminders_elem uid (db : Table) i r :
  (i, r) ∈ fetchReminders uid db <-> db !! i = Some r /\ psychologist_id r = uid.
Proof.
  unfold fetchReminders.
  rewrite merge_sort_Permutation, list_elem_of_filter, elem_of_map_to_list.
  simpl. tauto.
Qed.








(** Pressing the check of a shown card, when the update goes through, flips
    the flag of that reminder in the table (a missing flag counts as not
    done), the next fetch of its owner lists it with the new flag, and
    pressing the check of the updated card brings the flag back. Nothing
    else of the reminder changes. When the update does not go through, the
    table stays as it was. *)
Theorem toggle_flips_and_restores i r w :
  store w !! i = Some r ->
  let flipped := set_completed (negb (truthy (is_completed r))) r in
  let w' := toggleComplete true (i, r) w in
  store w' !! i = Some flipped /\
  (i, flipped) ∈ fetchReminders (psychologist_id r) (store w') /\
  store (toggleComplete true (i, flipped) w') !! i
    = Some (set_completed (truthy (is_completed r)) r) /\
  (forall j, j <> i -> store w' !! j = store w !! j) /\
  store (toggleComplete false (i, r) w) = store w.
Proof.
  intros Hr flipped w'. subst flipped w'. unfold toggleComplete. simpl.
  assert (H1 : alter (set_completed (negb (truthy (is_completed r)))) i (store w) !! i
               = Some (set_completed (negb (truthy (is_completed r))) r)).
  { now rewrite lookup_alter_eq, Hr. }
  split; [exact H1|]. split; [|split].
  - apply fetchReminders_elem. split; [exact H1 | reflexivity].
  - rewrite lookup_alter_eq, H1. simpl. now rewrite negb_involutive.
  - split; [|reflexivity]. intros j Hj. apply lookup_alter_ne. congruence.
Qed.


End Store.

Definition sample_reminder (flag : option bool) : Reminder :=
  {| psychologist_id := "u-1"; title := "Taller de Convivencia";
     description := "Preparar materiales"; type := "info";
     is_completed := flag; created_at := "2026-02-27T10:00:00Z" |}.


Definition sample_world : World (Id:=string) :=
  {| store := {[ "r-1" := sample_reminder None ]};
     shown := [ ("r-1", sample_reminder None) ] |}.


(** The update behind the check fails: the card shows the reminder as done,
    the table still has it without a flag. *)
Example refused_check_shows_wrong_flag :
  let w := toggleComplete false ("r-1", sample_reminder None) sample_world in
  shown w = [ ("r-1", sample_reminder (Some true)) ] /\
  store w !! "r-1" = Some (sample_reminder None).
Proof. split; reflexivity. Qed.

Lemma toggle_flips_and_restores_witness :
  store (toggleComplete true ("r-1", sample_reminder None) sample_world) !! "r-1"
  = Some (sample_reminder (Some true)).
Proof.
  exact (proj1 (toggle_flips_and_restores "r-1" (sample_reminder None) sample_world
                  eq_refl)).
Defined.


End Reminders.

(* ===================================================================== *)
(** ** Session records: the history page and the form that logs a session
       (History, NewAttention) *)
(* ===================================================================== *)

Module Attentions.
Import JS.

(** A row of [psych_attentions], without its key ([interface PsychAttention]). *)
Record PsychAttention := {
  psychologist_id : string;
  student_id : option string;
  student_name : string;
  grade : string;
  date : string;
  time : string;
  reason : string;
  observations : string;
  recommendations : string;
  created_at : string;
  psychologist_name : option string
}.

(** The form of [NewAttention]. *)
Record FormData := {
  fd_student_name : string;
  fd_grade : string;
  fd_date : string;
  fd_time : string;
  fd_reason : string;
  fd_observations : string;
  fd_recommendations : string
}.

(** [.order('date', desc).order('time', desc)] *)
Definition latest_first_b (x y : PsychAttention) : bool :=
  match String.compare (date y) (date x) with
  | Lt => true
  | Eq => String.leb (time y) (time x)
  | Gt => false
  end.

(** The test of [filteredAttentions], on the engine [e]. *)
Definition matchesFilters (e : Engine) (searchTerm filterDate : string)
    (a : PsychAttention) : bool :=
  includes (toLowerCase e (student_name a)) (toLowerCase e searchTerm) &&
  (if nonempty filterDate then String.eqb (date a) filterDate else true).




Section Store.

Context `{Countable Id}.

Abbreviation Table := (gmap Id PsychAttention).

Definition latest_first (x y : Id * PsychAttention) : Prop := latest_first_b x.2 y.2.

#[local] Instance latest_first_dec : RelDecision latest_first.
Proof. intros x y. unfold latest_first. apply _. Defined.

(** [History.fetchAttentions]: without a user nothing is fetched; only a
    psicologa is limited to her own records. *)
Definition fetchAttentions (user : option Gate.Profile) (db : Table)
    : option (list (Id * PsychAttention)) :=
  match user with
  | None => None
  | Some p =>
      Some (merge_sort latest_first
              (filter (fun ia => Shell.isPsicologa user = true ->
                                 psychologist_id ia.2 = Gate.id p)
                 (map_to_list db)))
  end.

Definition filteredAttentions (e : Engine) (searchTerm filterDate : string)
    (attentions : list (Id * PsychAttention)) : list (Id * PsychAttention) :=
  List.filter (fun ia => matchesFilters e searchTerm filterDate ia.2) attentions.

(** The page: the list it holds and the table behind it. *)
Record World := {
  store : Table;
  attentions : list (Id * PsychAttention)
}.

(** [History.handleDelete(id)]; [confirmed] is the answer to the dialog. *)
Definition handleDelete (confirmed : bool) (id : Id) (w : World) : World :=
  if confirmed
  then {| store := delete id (store w);
          attentions := filter (fun ia => ia.1 <> id) (attentions w) |}
  else w.




Lemma includes_empty hay : includes hay "" = true.
Proof. destruct hay; reflexivity. Qed.

Lemma matchesFilters_none e a : matchesFilters e "" "" a = true.
Proof. unfold matchesFilters. simpl. now rewrite includes_empty. Qed.

Lemma is_ascii_upper s : is_ascii (map_chars upper_char s) = is_ascii s.
Proof.
  induction s as [|c s IH]; simpl; [reflexivity|]. rewrite IH. f_equal.
  destruct c as [[] [] [] [] [] [] [] []]; reflexivity.
Qed.

Lemma map_lower_upper s :
  map_chars lower_char (map_chars upper_char s) = map_chars lower_char s.
Proof.
  induction s as [|c s IH]; simpl; [reflexivity|].
  now rewrite IH, lower_upper_char.
Qed.

(** On an ASCII term, lower-casing undoes upper-casing. *)
Lemma toLowerCase_upper e term :
  is_ascii term = true -> toLowerCase e (toUpperCase e term) = toLowerCase e term.
Proof.
  intros Ht.
  rewrite (toUpperCase_basic e term (is_ascii_basic term Ht)).
  rewrite (toLowerCase_basic e term (is_ascii_basic term Ht)).
  rewrite toLowerCase_basic by (apply is_ascii_basic; now rewrite is_ascii_upper).
  apply map_lower_upper.
Qed.

Lemma matchesFilters_upper e term fdate a :
  is_ascii term = true ->
  matchesFilters e (toUpperCase e term) fdate a = matchesFilters e term fdate a.
Proof. intros Ht. unfold matchesFilters. now rewrite (toLowerCase_upper e term Ht). Qed.

Lemma fetched_elem p (db : Table) l i a :
  fetchAttentions (Some p) db = Some l ->
  ((i, a) ∈ l <->
   db !! i = Some a /\
   (Shell.isPsicologa (Some p) = true -> psychologist_id a = Gate.id p)).
Proof.
  unfold fetchAttentions. intros [= <-].
  rewrite merge_sort_Permutation, list_elem_of_filter, elem_of_map_to_list.
  simpl. tauto.
Qed.

(** The history lists, each once, the session records of the user herself
    when the application takes her for a psicologa, and the records of every
    psychologist otherwise; without a user nothing is fetched. *)
Theorem history_scope_by_role p (db : Table) :
  fetchAttentions None db = None /\
  exists l,
    fetchAttentions (Some p) db = Some l /\
    NoDup l /\
    (Shell.isPsicologa (Some p) = true ->
       forall i a, (i, a) ∈ l <-> db !! i = Some a /\ psychologist_id a = Gate.id p) /\
    (Shell.isPsicologa (Some p) = false ->
       forall i a, (i, a) ∈ l <-> db !! i = Some a).
Proof.
  split; [reflexivity|].
  destruct (fetchAttentions (Some p) db) as [l|] eqn:Hl; [|discriminate Hl].
  exists l. split; [reflexivity|]. split; [|split].
  - injection Hl as <-. rewrite merge_sort_Permutation.
    apply NoDup_filter, NoDup_map_to_list.
  - intros Hps i a. rewrite (fetched_elem p db l i a Hl). tauto.
  - intros Hps i a. rewrite (fetched_elem p db l i a Hl), Hps.
    split; [tauto | intros Hi; split; [exact Hi | discriminate]].
Qed.

(** The filters of the history keep a record exactly when the term, mapped
    to lower case, occurs in its student name mapped to lower case and, if a
    date is chosen, its date is that date; with both filters empty every
    record is kept, and for a term of ASCII characters the letter case of
    the term plays no part. *)
Theorem history_filters e term fdate (l : list (Id * PsychAttention)) :
  filteredAttentions e "" "" l = l /\
  (is_ascii term = true ->
   filteredAttentions e (toUpperCase e term) fdate l = filteredAttentions e term fdate l) /\
  (forall ia, In ia (filteredAttentions e term fdate l) <->
     In ia l /\
     (exists pre post,
        toLowerCase e (student_name ia.2) = pre +:+ toLowerCase e term +:+ post) /\
     (fdate = "" \/ date ia.2 = fdate)).
Proof.
  unfold filteredAttentions. split; [|split].
  - induction l as [|x l IH]; simpl; [reflexivity|].
    now rewrite matchesFilters_none, IH.
  - intros Ht. apply filter_ext. intros ia. now apply matchesFilters_upper.
  - intros ia. rewrite filter_In. unfold matchesFilters.
    rewrite andb_true_iff, includes_spec.
    destruct fdate as [|c f]; simpl.
    + intuition.
    + rewrite String.eqb_eq. intuition congruence.
Qed.

(** On a name with letters beyond ASCII the engine decides: with an engine
    that maps É to é, the term "JOSÉ" keeps José Ñandú. *)
Example history_filter_beyond_ascii :
  let e := {| upperCase := fun s => s;
              lowerCase := fun s => if String.eqb s "JOSÉ" then "josé"
                                    else if String.eqb s "José Ñandú" then "josé ñandú"
                                    else s |} in
  includes (toLowerCase e "José Ñandú") (toLowerCase e "JOSÉ") = true.
Proof. reflexivity. Qed.

(** Deleting a record, once confirmed, removes it from the table and from
    the list at once, the next fetch does not list it, and every other
    record stays where it was; a declined confirmation changes nothing. *)
Theorem deleted_attention_leaves_history id user (w : World) :
  let w' := handleDelete true id w in
  store w' !! id = None /\
  (forall a, (id, a) ∉ attentions w') /\
  (forall l a, fetchAttentions user (store w') = Some l -> (id, a) ∉ l) /\
  (forall j a, j <> id ->
     ((j, a) ∈ attentions w' <-> (j, a) ∈ attentions w) /\
     store w' !! j = store w !! j) /\
  handleDelete false id w = w.
Proof.
  intros w'. subst w'. unfold handleDelete. simpl.
  split; [apply lookup_delete_eq|]. split; [|split; [|split; [|reflexivity]]].
  - intros a [Hne _]%list_elem_of_filter. now apply Hne.
  - intros l a Hl Hin. destruct user as [p|]; [|discriminate Hl].
    apply (fetched_elem p _ l id a Hl) in Hin as [Hin _].
    rewrite lookup_delete_eq in Hin. discriminate Hin.
  - intros j a Hj. split; [|now apply lookup_delete_ne].
    rewrite list_elem_of_filter. simpl. tauto.
Qed.


End Store.



End Attentions.

(* ===================================================================== *)
(** ** Further facts about the PDF export *)
(* ===================================================================== *)

Module PdfFacts.
Import JS Pdf.
Local Open Scope Q_scope.

(** A left-aligned text in the small italic of the continuation header. *)
Definition small_italic (op : DrawOp) : Prop :=
  match op with
  | Text size style _ _ _ AlignLeft => size = 8%Z /\ style = Italic
  | _ => True
  end.

(** The three drawings of the signature block at height [y0]. *)
Definition signatureBlock (env : Env) (a : Attention) (y0 : Q) : list DrawOp :=
  [ Line (pageW env / 2 - 40) y0 (pageW env / 2 + 40) y0;
    Text 10 Normal "Firma del Profesional" (pageW env / 2) (y0 + 5) AlignCenter;
    Text 10 Normal (opt_or_else (psychologist_name a) "") (pageW env / 2)
      (y0 + 5 + 5) AlignCenter ].

Section Facts.

Variable env : Env.

Lemma draw_length op d : length (pages (draw op d)) = length (pages d).
Proof. unfold draw. simpl. apply length_alter. Qed.

Lemma draw_on_last op d : on_last d -> on_last (draw op d).
Proof. intros Hl. apply (draw_last op d Hl). Qed.

(** A line for which the page has no room is drawn on a new page, under the
    continuation header, at the height the header leaves the cursor at and
    in the header's font. *)
Lemma printLine_break st line :
  on_last (doc st) -> bottom env < y st + 7 ->
  let st' := printLine env st line in
  on_last (doc st') /\
  flat (doc st') = flat (doc st) ++ [miniHeader env; Text 8 Italic line marginL 22 AlignLeft] /\
  fontSize (doc st') = 8%Z /\ fontStyle (doc st') = Italic.
Proof.
  intros Hl Hroom. unfold printLine. cbv zeta.
  rewrite (proj1 (checkPage_cases env 7 st) Hroom).
  destruct (newPage_ok env st Hl) as (Hl1 & _).
  destruct (newPage_pages env st) as (Hp & _ & Hy).
  destruct (text_last line marginL (y (newPage env st)) AlignLeft
              (doc (newPage env st)) Hl1) as [Hl2 E2].
  assert (Ef : flat (doc (newPage env st)) = flat (doc st) ++ [miniHeader env]).
  { unfold flat. rewrite Hp, concat_app. reflexivity. }
  unfold advance, on_doc. cbn [doc y].
  split; [exact Hl2|]. split; [|split; reflexivity].
  rewrite E2, Ef, <- app_assoc. reflexivity.
Qed.

(** In the header's font a line is drawn in the header's font, and leaves
    it set. *)
Lemma printLine_small st line :
  on_last (doc st) -> fontSize (doc st) = 8%Z -> fontStyle (doc st) = Italic ->
  let st' := printLine env st line in
  on_last (doc st') /\
  fontSize (doc st') = 8%Z /\ fontStyle (doc st') = Italic /\
  exists ops, flat (doc st') = flat (doc st) ++ ops /\
              left_strs ops = [line] /\ Forall small_italic ops.
Proof.
  intros Hl Hs Hi. unfold printLine. cbv zeta. unfold checkPage.
  destruct (Qlt_le_dec (pageH env - marginB) (y st + 7)) as [Hlt|Hle].
  - destruct (printLine_break st line Hl Hlt) as (Hl' & E & Hs' & Hi').
    unfold printLine, checkPage in Hl', E, Hs', Hi'. cbv zeta in Hl', E, Hs', Hi'.
    destruct (Qlt_le_dec (pageH env - marginB) (y st + 7)); [|exfalso; lra].
    split; [exact Hl'|]. split; [exact Hs'|]. split; [exact Hi'|].
    eexists. split; [exact E|]. split; [reflexivity|].
    repeat constructor.
  - destruct (text_last line marginL (y st) AlignLeft (doc st) Hl) as [Hl2 E2].
    split; [exact Hl2|]. split; [exact Hs|]. split; [exact Hi|].
    eexists. split; [exact E2|]. split; [reflexivity|].
    rewrite Hs, Hi. repeat constructor.
Qed.

Lemma printLines_small lines st :
  on_last (doc st) -> fontSize (doc st) = 8%Z -> fontStyle (doc st) = Italic ->
  exists ops, flat (doc (fold_left (printLine env) lines st)) = flat (doc st) ++ ops /\
              left_strs ops = lines /\ Forall small_italic ops.
Proof.
  revert st. induction lines as [|l ls IH]; intros st Hl Hs Hi; simpl.
  - exists []. rewrite app_nil_r. repeat split. constructor.
  - destruct (printLine_small st l Hl Hs Hi) as (Hl' & Hs' & Hi' & ops1 & E1 & L1 & F1).
    destruct (IH _ Hl' Hs' Hi') as (ops2 & E2 & L2 & F2).
    exists (ops1 ++ ops2). rewrite E2, E1, app_assoc, left_strs_app, L1, L2.
    repeat split. now apply Forall_app.
Qed.

Lemma pages_split d : on_last d -> exists front lp, pages d = front ++ [lp].
Proof.
  intros [_ Hlen].
  destruct (pages d) as [|lp front _] using rev_ind; [simpl in Hlen; lia|].
  now exists front, lp.
Qed.

Lemma draw_at_last op d front lp :
  on_last d -> pages d = front ++ [lp] ->
  pages (draw op d) = front ++ [lp ++ [op]].
Proof.
  intros [Hc _] Hp. unfold draw. cbn [pages]. rewrite Hc, Hp, length_app. simpl.
  replace (length front + 1 - 1)%nat with (length front) by lia.
  now rewrite alter_last.
Qed.

(** The signature block goes, whole, to the end of the page the check for
    thirty millimetres leaves it on. *)
Lemma signature_pages a st front lp :
  on_last (doc st) ->
  pages (doc (checkPage env 30 (advance 12 st))) = front ++ [lp] ->
  pages (doc (signature env a st))
  = front ++ [lp ++ signatureBlock env a (y (checkPage env 30 (advance 12 st)))].
Proof.
  intros Hl Hp. unfold signature. cbv zeta.
  destruct (checkPage_ok env 30 (advance 12 st) Hl) as ((Hl1 & _) & _ & _).
  set (st1 := checkPage env 30 (advance 12 st)) in *.
  set (L := Line (pageW env / 2 - 40) (y st1) (pageW env / 2 + 40) (y st1)).
  set (T1 := Text 10 Normal "Firma del Profesional" (pageW env / 2) (y st1 + 5)
               AlignCenter).
  set (T2 := Text 10 Normal (opt_or_else (psychologist_name a) "") (pageW env / 2)
               (y st1 + 5 + 5) AlignCenter).
  pose proof (draw_at_last L (doc st1) front lp Hl1 Hp) as P1.
  pose proof (draw_on_last L (doc st1) Hl1) as O1.
  set (d2 := setFont Normal (setFontSize 10 (draw L (doc st1)))).
  pose proof (draw_at_last T1 d2 front (lp ++ [L]) O1 P1) as P2.
  pose proof (draw_on_last T1 d2 O1) as O2.
  pose proof (draw_at_last T2 (draw T1 d2) front ((lp ++ [L]) ++ [T1]) O2 P2) as P3.
  unfold signatureBlock. fold L T1 T2.
  change (lp ++ [L; T1; T2]) with (lp ++ [L] ++ [T1] ++ [T2]).
  rewrite !app_assoc. exact P3.
Qed.

(** The table is the only thing in the generator of src/lib/pdf.ts that can
    add a page. *)
Lemma autoTable_pages startY body d :
  on_last d ->
  on_last (autoTable env startY body d) /\
  length (pages (autoTable env startY body d))
  = (length (pages d) + tableBreaks env startY body)%nat.
Proof.
  intros Hl. unfold autoTable. cbv zeta.
  induction (tableBreaks env startY body) as [|n [IHl IHn]].
  - cbn [Nat.iter nat_rect].
    split; [now apply draw_on_last|]. rewrite draw_length. lia.
  - rewrite Nat.iter_succ.
    split; [apply draw_on_last, addPage_last|].
    rewrite draw_length. unfold addPage at 1. cbn [pages].
    rewrite length_app, IHn. simpl. lia.
Qed.

(** Drawings made one after the other all go to the end of the last page. *)
Lemma draws_at_last ops d front lp :
  on_last d -> pages d = front ++ [lp] ->
  on_last (fold_left (fun d op => draw op d) ops d) /\
  pages (fold_left (fun d op => draw op d) ops d) = front ++ [lp ++ ops].
Proof.
  revert d lp. induction ops as [|op ops IH]; intros d lp Hl Hp; simpl.
  - now rewrite app_nil_r.
  - destruct (IH (draw op d) (lp ++ [op]) (draw_on_last op d Hl)
                (draw_at_last op d front lp Hl Hp)) as [Hl' Hp'].
    split; [exact Hl'|]. now rewrite Hp', <- app_assoc.
Qed.

End Facts.

Lemma imap_snoc {A B} (f : nat -> A -> B) (l : list A) (x : A) :
  imap f (l ++ [x]) = imap f l ++ [f (length l) x].
Proof.
  rewrite imap_app. simpl. now rewrite Nat.add_0_r.
Qed.

(** In the paginating generator a line that finds no room is drawn on a new
    page under the continuation header, and from there to the end of its
    section every line is drawn in the header's eight-point italic: nothing
    sets the text font again after the page break. *)
Theorem section_continues_in_header_font env st line more :
  on_last (doc st) -> bottom env < y st + 7 ->
  exists ops,
    flat (doc (fold_left (printLine env) (line :: more) st))
    = flat (doc st) ++ miniHeader env :: ops /\
    left_strs ops = line :: more /\
    Forall small_italic ops.
Proof.
  intros Hl Hroom. cbn [fold_left].
  destruct (printLine_break env st line Hl Hroom) as (Hl' & E & Hs & Hi).
  destruct (printLines_small env more _ Hl' Hs Hi) as (ops & E2 & L2 & F2).
  exists (Text 8 Italic line marginL 22 AlignLeft :: ops).
  rewrite E2, E, <- app_assoc. split; [reflexivity|].
  simpl. rewrite L2. split; [reflexivity|].
  constructor; [split; reflexivity|exact F2].
Qed.

Lemma section_continues_in_header_font_witness :
  exists ops,
    flat (doc (fold_left (printLine a4) ["uno"; "dos"] {| doc := new_jsPDF; y := 265 |}))
    = flat new_jsPDF ++ miniHeader a4 :: ops /\
    left_strs ops = ["uno"; "dos"] /\
    Forall small_italic ops.
Proof.
  apply (section_continues_in_header_font a4 {| doc := new_jsPDF; y := 265 |}
           "uno" ["dos"]).
  - split; simpl; lia.
  - reflexivity.
Defined.

(** The saved document of the paginating generator ends with the signature
    block: the last page closes with the rule, the caption and the name, in
    that order and at heights five millimetres apart, followed by nothing
    but that page's footer; on a page tall enough for it the block lies
    whole above the bottom margin. *)
Theorem signature_closes_last_page env a fecha :
  exists front body y0,
    pages (rendered env a fecha)
    = front ++ [body ++ signatureBlock env a y0
                     ++ footerOps env (S (length front)) (S (length front))] /\
    (tall env -> y0 + 30 <= bottom env).
Proof.
  pose proof (plain_autoTable env 60 (tableBody a fecha) _ (plain_header env))
    as (Hl0 & _ & _).
  set (st0 := {| doc := autoTable env 60 (tableBody a fecha) (header env new_jsPDF);
                 y := tableFinalY env 60 (tableBody a fecha) + 4 |}) in *.
  pose proof (printSection_ok env "Motivo de Consulta:" (reason a) 6 st0 Hl0) as [H1 _].
  set (st1 := printSection env "Motivo de Consulta:" (reason a) 6 st0) in *.
  pose proof (printSection_ok env "Observaciones:" (observations a) 8 st1 H1) as [H2 _].
  set (st2 := printSection env "Observaciones:" (observations a) 8 st1) in *.
  pose proof (printSection_ok env "Recomendaciones / Plan de Acción:"
                (recommendations a) 8 st2 H2) as [H3 _].
  set (st3 := printSection env "Recomendaciones / Plan de Acción:"
                (recommendations a) 8 st2) in *.
  destruct (checkPage_ok env 30 (advance 12 st3) H3) as ((Hl4 & _) & Hy & _).
  destruct (pages_split _ Hl4) as (front & lp & Hp).
  pose proof (signature_pages env a st3 front lp H3 Hp) as Hsig.
  exists (imap (fun i pg => pg ++ footerOps env (S i) (S (length front))) front),
         lp, (y (checkPage env 30 (advance 12 st3))).
  split; [|exact Hy].
  unfold rendered. rewrite stampFooters_pages.
  change (layout env a fecha) with (signature env a st3).
  rewrite Hsig, imap_snoc, length_app, length_imap. simpl.
  replace (length front + 1)%nat with (S (length front)) by lia.
  now rewrite <- app_assoc.
Qed.

(** Pagination loses nothing: whenever the paginating generator saves a
    document, its left-aligned texts, read page after page, are exactly the
    three section titles, each followed by the lines the wrapper made of its
    text (or of the placeholder), in the order of the record: no line is
    dropped, repeated or moved by a page break. *)
Theorem pagination_keeps_every_line env a f d :
  generateAttentionPDF env a = Saved f d ->
  left_strs (flat d)
  = ("Motivo de Consulta:"
       :: splitTextToSize env (or_else (reason a) dash) (contentW env)) ++
    ("Observaciones:"
       :: splitTextToSize env (or_else (observations a) dash) (contentW env)) ++
    ("Recomendaciones / Plan de Acción:"
       :: splitTextToSize env (or_else (recommendations a) dash) (contentW env)).
Proof.
  intros Hgen. destruct (generate_saved env a f d Hgen) as (fecha & _ & _ & ->).
  rewrite rendered_left_strs. reflexivity.
Qed.

Lemma pagination_keeps_every_line_witness :
  length (left_strs (flat (rendered a4 long_record "15 de febrero, 2026"))) = 35%nat.
Proof.
  rewrite (pagination_keeps_every_line a4 long_record (fileName long_record)
             (rendered a4 long_record "15 de febrero, 2026") eq_refl).
  vm_compute. reflexivity.
Defined.

(** The generator of src/lib/pdf.ts never starts a page for the texts: its
    document has one page and the table's continuation pages, however long
    the three texts are, and on the last of them both the recommendations,
    at a height that grows by seven millimetres with every line of the two
    texts before them, and the signature rule, at its fixed height of forty
    millimetres above the page's end. *)
Theorem plain_generator_never_breaks env a fecha :
  let d := Plain.rendered env a fecha in
  let finalY := Plain.finalY_or (tableFinalY env 65 (Plain.tableBody a fecha)) in
  let lines s := inject_Z (Z.of_nat (length (splitTextToSize env s 180))) in
  length (pages d) = S (tableBreaks env 65 (Plain.tableBody a fecha)) /\
  exists front lp,
    pages d = front ++ [lp] /\
    In (TextLines 12 Normal (splitTextToSize env (recommendations a) 180) 14
          (finalY + 42 + lines (reason a) * 7 + lines (observations a) * 7)) lp /\
    In (Line 60 (pageH env - 40) 150 (pageH env - 40)) lp.
Proof.
  cbv zeta.
  set (d1 := autoTable env 65 (Plain.tableBody a fecha)
               (text "REGISTRO DE ATENCIÓN PSICOLÓGICA" 105 55 AlignCenter
                  (setFont Bold (setFontSize 16
                     (text "Área de Psicología" 105 30 AlignCenter
                        (setFont Normal (setFontSize 14
                           (text "I.E. VALORES Y CIENCIAS" 105 20 AlignCenter
                              (setFont Bold (setFontSize 22
                                 (draw (Rect 0 0 210 40) new_jsPDF))))))))))).
  assert (Hl1 : on_last d1 /\ length (pages d1)
                = S (tableBreaks env 65 (Plain.tableBody a fecha))).
  { apply autoTable_pages. split; simpl; lia. }
  destruct Hl1 as [Hl1 Hn1].
  destruct (pages_split _ Hl1) as (front & lp & Hp).
  destruct (draws_at_last (plainTail env a fecha) d1 front lp Hl1 Hp) as [_ Hq].
  assert (E : pages (Plain.rendered env a fecha)
              = pages (fold_left (fun d op => draw op d) (plainTail env a fecha) d1))
    by reflexivity.
  rewrite E, Hq. split.
  - rewrite <- Hn1, Hp, !length_app. reflexivity.
  - exists front, (lp ++ plainTail env a fecha). split; [reflexivity|].
    split; apply in_or_app; right; unfold plainTail; simpl; tauto.
Qed.

End PdfFacts.

(* ===================================================================== *)
(** ** The root component: session, gate and pages together *)
(* ===================================================================== *)

Module AppRoot.
Import JS Gate Shell.

(** The roles [App] hands to [RequireAuth]. *)
Definition appAllowedRoles : list UserRole := [PSICOLOGA; ADMIN; SUPERVISOR].

(** The two [useState] cells of [App]. *)
Record AppState := {
  appUser : option Profile;
  appLoading : bool
}.

Definition app_initial : AppState := {| appUser := None; appLoading := true |}.

(** What a run of [handleSession] leaves: the cells, and whether the [catch]
    branch called [handleLogout]. *)
Record AppOutcome := {
  app : AppState;
  loggedOut : bool
}.

(** [handleSession(session)]. [mountedAtCall] is the value of [mounted] when
    the function is entered, [mountedAfter] its value once the profile query
    has been awaited. The query answers [{ data, error }]; only [data] is
    read, and it is cast to [Profile] as it is. [handleLogout] clears the
    user whatever [mounted] is. *)
Definition handleSession (mountedAtCall mountedAfter : bool)
    (session : option Session)
    (fetchProfile : string -> Awaited ProfileResponse)
    (st : AppState) : AppOutcome :=
  if negb mountedAtCall then {| app := st; loggedOut := false |}
  else
    match session with
    | Some s =>
        match fetchProfile (user_id s) with
        | Resolved resp =>
            {| app := if mountedAfter
                      then {| appUser := data resp; appLoading := false |}
                      else st;
               loggedOut := false |}
        | Rejected _ =>
            {| app := {| appUser := None;
                         appLoading := if mountedAfter then false else appLoading st |};
               loggedOut := true |}
        end
    | None =>
        {| app := if mountedAfter
                  then {| appUser := None; appLoading := false |}
                  else st;
           loggedOut := false |}
    end.

(** What the window shows. *)
Inductive Screen :=
| Starting            (* the spinner of [App] *)
| Authenticating      (* [AuthCallback] *)
| Checking            (* the spinner of [RequireAuth] *)
| Denied              (* the 403 view of [RequireAuth] *)
| Blank               (* [MainApp] returning null *)
| Redirecting         (* a [Navigate] not yet followed *)
| Shown (p : Page).

Section Render.

(** The router's test of a location against a registered path. *)
Variable matches : string -> string -> bool.

(** [MainApp]. *)
Definition mainApp (fuel : nat) (user : option Profile) (location : string) : Screen :=
  match user with
  | None => Blank
  | Some _ =>
      match page_at matches fuel (isPsicologa user) location with
      | Some p => Shown p
      | None => Redirecting
      end
  end.

(** What [App] returns: its spinner while loading, then the callback page
    at its route and the gate around [MainApp] everywhere else. *)
Definition screen (fuel : nat) (location : string) (a : AppState) (g : GateState) : Screen :=
  if appLoading a then Starting
  else if matches "/auth/callback" location then Authenticating
  else match render g with
       | Spinner => Checking
       | Forbidden403 => Denied
       | Children => mainApp fuel (appUser a) location
       end.

(** The window once the session is known to both components: [App] has run
    [handleSession] and the gate [checkAuth], each with its own answer from
    the [profiles] table, both still mounted. [href] is the whole address,
    [location] its path. *)
Definition settled_screen (e : Engine) (portal : string) (enc : string -> string)
    (fuel : nat)
    (href location : string) (session : Session)
    (gateFetch appFetch : string -> Awaited ProfileResponse) : Screen :=
  screen fuel location
    (app (handleSession true true (Some session) appFetch app_initial))
    (state (checkAuth e portal enc appAllowedRoles href true
              (Resolved (Some session)) gateFetch initial_state)).

End Render.

(** *** The callback page *)

(** The three parameters [handleCallback] reads from the fragment of the
    address; [get] gives null for a parameter that is absent. *)
Record HashParams := {
  access_token : option string;
  refresh_token : option string;
  returnTo : option string
}.

Inductive CallbackOutcome :=
| NavigateTo (to : string)   (* the fragment is cleared first *)
| Portal (url : string).

(** [handleCallback]; [setSession] answers [{ error }] or rejects. *)
Definition handleCallback (portalUrl : string) (params : HashParams)
    (setSession : string -> string -> Awaited (option string)) : CallbackOutcome :=
  let target := opt_or_else (returnTo params) "/" in
  match access_token params, refresh_token params with
  | Some a, Some r =>
      if nonempty a && nonempty r
      then match setSession a r with
           | Resolved None => NavigateTo target
           | _ => Portal (portalUrl +:+ "?view=login&error=session_error")
           end
      else Portal (portalUrl +:+ "?view=login")
  | _, _ => Portal (portalUrl +:+ "?view=login")
  end.

(** *** Facts *)

Lemma failed_gate_state e portal enc location uid fetch :
  (match fetch uid with
   | Rejected _ => True
   | Resolved resp => error resp <> None \/ data resp = None
   end) ->
  state (checkAuth e portal enc appAllowedRoles location true
           (Resolved (Some {| user_id := uid |})) fetch initial_state)
  = {| loading := false; user := None; forbidden := false |}.
Proof. intros H. now rewrite lookup_failure_state. Qed.

(** A role the gate's list does not hold, under the gate's normalisation, is
    not the psicologa's under the application's strict test. *)
Lemma denied_not_psicologa e p :
  isAllowed e appAllowedRoles (normalize e (opt_or_else (role p) "")) = false ->
  isPsicologa (Some p) = false.
Proof.
  intros Hden. unfold isPsicologa.
  destruct (role p) as [r|] eqn:Hr; [|reflexivity].
  destruct (String.eqb_spec r (role_value PSICOLOGA)) as [->|]; [|reflexivity].
  vm_compute in Hden. discriminate Hden.
Qed.

(** When the profile query fails for the gate and answers without a row for
    the application, the window is blank at every address but the
    callback's: the gate lets its children through and [MainApp] returns
    null. No 403 view and no redirect. *)
Theorem failed_lookups_leave_blank_screen
    e matches portal enc fuel href location session gateFetch appFetch resp :
  matches "/auth/callback" location = false ->
  (match gateFetch (user_id session) with
   | Rejected _ => True
   | Resolved r => error r <> None \/ data r = None
   end) ->
  appFetch (user_id session) = Resolved resp -> data resp = None ->
  settled_screen matches e portal enc fuel href location session gateFetch appFetch = Blank.
Proof.
  intros Hloc Hgate Happ Hdata. unfold settled_screen, screen.
  destruct session as [uid]. simpl in Hgate, Happ.
  rewrite (failed_gate_state _ _ _ _ _ _ Hgate).
  unfold handleSession. cbn [user_id negb]. rewrite Happ.
  cbn [app appLoading appUser render loading forbidden]. rewrite Hloc, Hdata.
  reflexivity.
Qed.

Lemma failed_lookups_leave_blank_screen_witness :
  settled_screen String.eqb ascii_engine "https://portal" (fun s => s) 2
    "https://psych.example/history" "/history"
    {| user_id := "u-1" |}
    (fun _ => Resolved {| data := None; error := Some "no rows" |})
    (fun _ => Resolved {| data := None; error := Some "no rows" |})
  = Blank.
Proof.
  apply (failed_lookups_leave_blank_screen ascii_engine String.eqb "https://portal"
           (fun s => s) 2
           "https://psych.example/history" "/history" {| user_id := "u-1" |} _ _
           {| data := None; error := Some "no rows" |}).
  - reflexivity.
  - left. discriminate.
  - reflexivity.
  - reflexivity.
Defined.

(** The role is checked by the gate alone. For a profile whose role the gate
    denies: when the gate's query returns the profile the window shows the
    403 view; when the gate's query fails and the application's returns the
    same profile, the window shows the history page at every address but
    the callback's. *)
Theorem failed_gate_lookup_admits_denied_role
    e matches portal enc fuel href location session gateFetch appFetch p :
  separates matches ->
  matches "/auth/callback" location = false ->
  isAllowed e appAllowedRoles (normalize e (opt_or_else (role p) "")) = false ->
  appFetch (user_id session) = Resolved {| data := Some p; error := None |} ->
  (gateFetch (user_id session) = Resolved {| data := Some p; error := None |} ->
   settled_screen matches e portal enc (2 + fuel) href location session gateFetch appFetch
   = Denied) /\
  ((match gateFetch (user_id session) with
    | Rejected _ => True
    | Resolved r => error r <> None \/ data r = None
    end) ->
   settled_screen matches e portal enc (2 + fuel) href location session gateFetch appFetch
   = Shown HistoryPage).
Proof.
  intros Hsep Hloc Hden Happ. destruct session as [uid]. simpl in Happ.
  split; simpl user_id.
  - intros Hgate. unfold settled_screen, screen, handleSession, checkAuth.
    cbn [user_id negb app appLoading]. rewrite Happ, Hgate.
    cbn [data error Gate.state appLoading]. rewrite Hden, Hloc. reflexivity.
  - intros Hgate. unfold settled_screen, screen.
    rewrite (failed_gate_state _ _ _ _ _ _ Hgate).
    unfold handleSession. cbn [user_id negb]. rewrite Happ.
    cbn [app appLoading appUser data render loading forbidden]. rewrite Hloc.
    unfold mainApp. rewrite (denied_not_psicologa e p Hden).
    now rewrite (history_within_two_redirects matches Hsep location fuel).
Qed.

Lemma failed_gate_lookup_admits_denied_role_witness :
  settled_screen String.eqb ascii_engine "https://portal" (fun s => s) 2
    "https://psych.example/new" "/new"
    {| user_id := "u-9" |}
    (fun _ => Rejected "network")
    (fun _ => Resolved {| data := Some {| id := "u-9"; email := "d@example.org";
                                         role := Some "docente"; full_name := "D";
                                         created_at := "2026-01-01";
                                         birth_date := None; dni := None;
                                         active := Some true |};
                         error := None |})
  = Shown HistoryPage.
Proof.
  refine (proj2 (failed_gate_lookup_admits_denied_role ascii_engine String.eqb
           "https://portal"
           (fun s => s) 0 "https://psych.example/new" "/new" {| user_id := "u-9" |} (fun _ => Rejected "network") _
           {| id := "u-9"; email := "d@example.org"; role := Some "docente";
              full_name := "D"; created_at := "2026-01-01"; birth_date := None;
              dni := None; active := Some true |}
           separates_eqb eq_refl eq_refl eq_refl) I).
Defined.

(** The callback page enters the application only with a session: it
    navigates exactly when both tokens are present and not empty and
    [setSession] resolved without an error, and then to the [returnTo] of
    the fragment, or to the root when that is absent or empty. When a token
    is missing [setSession] has no part in the outcome, which is the
    portal's login without an error mark. *)
Theorem callback_enters_only_with_session portal params setSession :
  (forall to,
     handleCallback portal params setSession = NavigateTo to <->
     exists a r,
       access_token params = Some a /\ refresh_token params = Some r /\
       a <> "" /\ r <> "" /\
       setSession a r = Resolved None /\
       to = opt_or_else (returnTo params) "/") /\
  ((forall a r, access_token params = Some a -> refresh_token params = Some r ->
                a = "" \/ r = "") ->
   forall other,
     handleCallback portal params other = Portal (portal +:+ "?view=login")).
Proof.
  unfold handleCallback. cbv zeta. split.
  - intros to.
    destruct (access_token params) as [a|], (refresh_token params) as [r|];
      try (split; [discriminate | intros (a' & r' & Ha & Hr & _); discriminate]).
    destruct a as [|ca a']; [split; [discriminate|];
      intros (a0 & r0 & [= <-] & _ & Hne & _); congruence|].
    destruct r as [|cr r']; [split; [discriminate|];
      intros (a0 & r0 & _ & [= <-] & _ & Hne & _); congruence|].
    simpl. split.
    + destruct (setSession (String ca a') (String cr r')) as [[e|]|e] eqn:E;
        try discriminate.
      intros [= <-]. exists (String ca a'), (String cr r').
      repeat split; try discriminate. exact E.
    + intros (a0 & r0 & [= <-] & [= <-] & _ & _ & E & ->). now rewrite E.
  - intros Hmiss other.
    destruct (access_token params) as [a|], (refresh_token params) as [r|];
      try reflexivity.
    destruct (Hmiss a r eq_refl eq_refl) as [-> | ->]; [reflexivity|].
    destruct a; reflexivity.
Qed.

End AppRoot.

(* ===================================================================== *)
(** ** The idle timeout of the root component *)
(* ===================================================================== *)

Module Idle.
Import JS.
Local Open Scope Z_scope.

(** Milliseconds. *)
Definition IDLE_TIMEOUT : Z := 2 * 60 * 60 * 1000.
Definition CHECK_INTERVAL : Z := 60 * 1000.

(** [n.toString()] for an integer. *)
Definition toString (n : Z) : string := NilEmpty.string_of_int (Z.to_int n).

Definition is_digit (c : ascii) : bool :=
  match c with
  | "0" | "1" | "2" | "3" | "4" | "5" | "6" | "7" | "8" | "9" => true
  | _ => false
  end%char.

(** The longest prefix of decimal digits. *)
Fixpoint digits (s : string) : string :=
  match s with
  | EmptyString => EmptyString
  | String c r => if is_digit c then String c (digits r) else EmptyString
  end.

Definition parse_digits (s : string) : option Z :=
  match digits s with
  | EmptyString => None
  | ds => Z.of_uint <$> NilEmpty.uint_of_string ds
  end.

(** [parseInt(s, 10)]: leading whitespace, an optional sign, then as many
    digits as there are; [None] is NaN. Integers are exact (the times at
    hand are far below 2^53). *)
Definition parseInt (s : string) : option Z :=
  match trimStart s with
  | String "-" r => Z.opp <$> parse_digits r
  | String "+" r => parse_digits r
  | t => parse_digits t
  end.

(** What the timeout reads and writes: whether [user] is set, the item of
    [localStorage] under [ACTIVITY_KEY], whether the listeners and the
    interval of the effect are installed, and the address [handleLogout]
    assigns. *)
Record Browser := {
  user : bool;
  lastActivity : option string;
  watching : bool;
  href : option string
}.

Section Timeout.

(** [import.meta.env.VITE_PORTAL_URL] *)
Variable portalEnv : option string.

Definition portalUrl : string :=
  opt_or_else portalEnv "https://portal-vc-academico.vercel.app".

(** [handleLogout], taken as one step: sign out, clear the user (which
    runs the cleanup of the effect), remove the item, leave for the
    portal. *)
Definition handleLogout (st : Browser) : Browser :=
  {| user := false; lastActivity := None; watching := false;
     href := Some (portalUrl +:+ "?view=login") |}.

(** The test of [checkIdleTimeout] at time [now]. A comparison with NaN is
    false. *)
Definition checkIdleTimeout (now : Z) (st : Browser) : bool :=
  match lastActivity st with
  | Some s =>
      if nonempty s
      then match parseInt s with
           | Some t => IDLE_TIMEOUT <? now - t
           | None => false
           end
      else false
  | None => false
  end.

Definition updateActivity (now : Z) (st : Browser) : Browser :=
  {| user := user st; lastActivity := Some (toString now);
     watching := watching st; href := href st |}.

(** The effect, run at [now] because [user] has just been set. *)
Definition idleEffect (now : Z) (st : Browser) : Browser :=
  if checkIdleTimeout now st then handleLogout st
  else let st := updateActivity now st in
       {| user := true; lastActivity := lastActivity st;
          watching := true; href := href st |}.

Inductive Event :=
| SetUser (now : Z)     (* [handleSession] has set a profile *)
| Activity (now : Z)    (* one of the five window events *)
| Tick (now : Z).       (* the interval fires *)

Definition step (st : Browser) (ev : Event) : Browser :=
  match ev with
  | SetUser now => idleEffect now st
  | Activity now => if watching st then updateActivity now st else st
  | Tick now =>
      if watching st
      then if checkIdleTimeout now st then handleLogout st else st
      else st
  end.

Definition run (evs : list Event) (st : Browser) : Browser := fold_left step evs st.

(** A session being watched whose last recorded activity was at [last]. *)
Definition tracked (last : Z) (st : Browser) : Prop :=
  user st = true /\ watching st = true /\ lastActivity st = Some (toString last).

(** Every check in the run comes at most [IDLE_TIMEOUT] after the activity
    recorded before it. *)
Fixpoint within (last : Z) (evs : list Event) : Prop :=
  match evs with
  | [] => True
  | Activity t :: evs => within t evs
  | Tick t :: evs => t - last <= IDLE_TIMEOUT /\ within last evs
  | SetUser t :: evs => t - last <= IDLE_TIMEOUT /\ within t evs
  end.

(** The activity recorded at the end of the run. *)
Fixpoint final (last : Z) (evs : list Event) : Z :=
  match evs with
  | [] => last
  | Activity t :: evs | SetUser t :: evs => final t evs
  | Tick _ :: evs => final last evs
  end.

Definition is_SetUser (ev : Event) : bool :=
  match ev with SetUser _ => true | _ => false end.

End Timeout.

(** *** Reading back a written time *)

Lemma digits_string_of_uint d :
  digits (NilEmpty.string_of_uint d) = NilEmpty.string_of_uint d.
Proof. induction d; simpl; congruence. Qed.

Lemma parse_digits_string_of_uint d :
  d <> Decimal.Nil ->
  parse_digits (NilEmpty.string_of_uint d) = Some (Z.of_uint d).
Proof.
  intros Hd. unfold parse_digits. rewrite digits_string_of_uint.
  destruct (NilEmpty.string_of_uint d) eqn:E.
  - destruct d; simpl in E; congruence.
  - rewrite <- E, NilEmpty.usu. reflexivity.
Qed.

Lemma parseInt_string_of_uint d :
  d <> Decimal.Nil ->
  parseInt (NilEmpty.string_of_uint d) = Some (Z.of_uint d).
Proof.
  intros Hd. rewrite <- (parse_digits_string_of_uint d Hd).
  destruct d; [congruence| | | | | | | | | |].
  all: unfold parseInt; cbn [NilEmpty.string_of_uint].
  all: now rewrite trimStart_ascii by reflexivity.
Qed.

Lemma parseInt_toString n : parseInt (toString n) = Some n.
Proof.
  unfold toString. destruct n as [|p|p]; [reflexivity| |].
  - simpl. rewrite parseInt_string_of_uint by apply DecimalPos.Unsigned.to_uint_nonnil.
    unfold Z.of_uint. now rewrite DecimalPos.Unsigned.of_to.
  - simpl. unfold parseInt. rewrite trimStart_ascii by reflexivity.
    change (Z.opp <$> parse_digits (NilEmpty.string_of_uint (Pos.to_uint p)) = Some (Z.neg p)).
    rewrite parse_digits_string_of_uint by apply DecimalPos.Unsigned.to_uint_nonnil.
    unfold Z.of_uint. now rewrite DecimalPos.Unsigned.of_to.
Qed.

Lemma toString_nonempty n : nonempty (toString n) = true.
Proof.
  unfold toString. destruct n as [|p|p]; [reflexivity| |reflexivity].
  pose proof (DecimalPos.Unsigned.to_uint_nonnil p) as H. simpl.
  destruct (Pos.to_uint p); [congruence| | | | | | | | | |]; reflexivity.
Qed.

Lemma checkIdleTimeout_tracked now st last :
  lastActivity st = Some (toString last) ->
  checkIdleTimeout now st = (IDLE_TIMEOUT <? now - last).
Proof.
  intros H. unfold checkIdleTimeout.
  now rewrite H, toString_nonempty, parseInt_toString.
Qed.

Lemma step_tracked portal st last ev :
  tracked last st -> within last [ev] ->
  tracked (final last [ev]) (step portal st ev) /\ href (step portal st ev) = href st.
Proof.
  intros (Hu & Hw & Hl) Hin. destruct ev as [t|t|t]; simpl in *.
  - unfold idleEffect. rewrite (checkIdleTimeout_tracked _ _ _ Hl).
    destruct Hin as [Hin _]. rewrite (proj2 (Z.ltb_ge _ _) Hin).
    repeat split.
  - rewrite Hw. repeat split; auto.
  - rewrite Hw, (checkIdleTimeout_tracked _ _ _ Hl).
    destruct Hin as [Hin _]. rewrite (proj2 (Z.ltb_ge _ _) Hin).
    repeat split; auto.
Qed.

Lemma logged_out_rests portal evs st :
  watching st = false -> forallb (fun ev => negb (is_SetUser ev)) evs = true ->
  run portal evs st = st.
Proof.
  intros Hw. induction evs as [|ev evs IH]; [reflexivity|].
  simpl. intros Hall. apply andb_true_iff in Hall as [Hev Hall].
  destruct ev; simpl in *; try discriminate; rewrite Hw; now apply IH.
Qed.

(** While every check comes within two hours of the activity recorded
    before it, the session stays open through any run of logins, window
    events and interval ticks: the user stays set, the watch stays on, the
    stored item is the time of the latest login or window event, and no
    address is assigned. *)
Theorem active_session_stays_open portal evs st last :
  tracked last st -> within last evs ->
  tracked (final last evs) (run portal evs st) /\
  href (run portal evs st) = href st.
Proof.
  revert st last. induction evs as [|ev evs IH]; intros st last Ht Hin.
  - split; [exact Ht|reflexivity].
  - assert (H1 : within last [ev]) by (destruct ev; simpl in *; tauto).
    assert (H2 : within (final last [ev]) evs) by (destruct ev; simpl in *; tauto).
    destruct (step_tracked portal st last ev Ht H1) as [Ht' Hh'].
    destruct (IH _ _ Ht' H2) as [Ht'' Hh''].
    split.
    + simpl. destruct ev; exact Ht''.
    + simpl. simpl in Hh''. now rewrite Hh''.
Qed.

(** The first tick more than two hours after the recorded activity ends the
    session: the user is cleared, the stored item removed, the window sent
    to the portal's login; and until a profile is set again neither window
    events nor ticks change anything, so no time is stored again. *)
Theorem idle_tick_ends_session portal st last now evs :
  tracked last st -> IDLE_TIMEOUT < now - last ->
  forallb (fun ev => negb (is_SetUser ev)) evs = true ->
  run portal (Tick now :: evs) st
  = {| user := false; lastActivity := None; watching := false;
       href := Some (portalUrl portal +:+ "?view=login") |}.
Proof.
  intros (Hu & Hw & Hl) Hlate Hall. simpl.
  rewrite Hw, (checkIdleTimeout_tracked _ _ _ Hl), (proj2 (Z.ltb_lt _ _) Hlate).
  now apply logged_out_rests.
Qed.

(** A time left in the store by a session that ended without logout ejects
    the next login: if a profile is set more than two hours after that time
    the effect logs out at once, before any listener is installed, and
    removes the item, so that the login after that one opens a session,
    whenever it comes. *)
Theorem stale_timestamp_ejects_next_login portal st last now again :
  lastActivity st = Some (toString last) -> IDLE_TIMEOUT < now - last ->
  step portal st (SetUser now)
  = {| user := false; lastActivity := None; watching := false;
       href := Some (portalUrl portal +:+ "?view=login") |} /\
  tracked again (run portal [SetUser now; SetUser again] st).
Proof.
  intros Hl Hlate.
  assert (E : step portal st (SetUser now) = handleLogout portal st).
  { simpl. unfold idleEffect.
    now rewrite (checkIdleTimeout_tracked _ _ _ Hl), (proj2 (Z.ltb_lt _ _) Hlate). }
  split; [exact E|].
  unfold run. cbn [fold_left]. rewrite E. repeat split.
Qed.

(** A session opened at second one of the clock, used below. *)
Definition sample_session : Browser :=
  {| user := true; lastActivity := Some (toString 1000); watching := true;
     href := None |}.

Lemma active_session_stays_open_witness :
  tracked 70000
    (run None [Activity 5000; Tick 60000; SetUser 70000; Tick 7000000] sample_session) /\
  href (run None [Activity 5000; Tick 60000; SetUser 70000; Tick 7000000] sample_session)
  = None.
Proof.
  apply (active_session_stays_open None
           [Activity 5000; Tick 60000; SetUser 70000; Tick 7000000] sample_session 1000).
  - repeat split.
  - simpl. unfold IDLE_TIMEOUT. lia.
Defined.

Lemma idle_tick_ends_session_witness :
  run None [Tick 7201001; Activity 7202000; Tick 7261001] sample_session
  = {| user := false; lastActivity := None; watching := false;
       href := Some "https://portal-vc-academico.vercel.app?view=login" |}.
Proof.
  apply (idle_tick_ends_session None sample_session 1000 7201001
           [Activity 7202000; Tick 7261001]).
  - repeat split.
  - unfold IDLE_TIMEOUT. lia.
  - reflexivity.
Defined.

Lemma stale_timestamp_ejects_next_login_witness :
  step None {| user := false; lastActivity := Some (toString 1000);
               watching := false; href := None |} (SetUser 9000000)
  = {| user := false; lastActivity := None; watching := false;
       href := Some "https://portal-vc-academico.vercel.app?view=login" |} /\
  tracked 9000500
    (run None [SetUser 9000000; SetUser 9000500]
       {| user := false; lastActivity := Some (toString 1000);
          watching := false; href := None |}).
Proof.
  apply (stale_timestamp_ejects_next_login None
           {| user := false; lastActivity := Some (toString 1000);
              watching := false; href := None |} 1000 9000000 9000500).
  - reflexivity.
  - unfold IDLE_TIMEOUT. lia.
Defined.

End Idle.

(* ===================================================================== *)
(** ** The local server's attention endpoints *)
(* ===================================================================== *)

Module Server.
Local Open Scope Z_scope.

(** A row of [users] as far as the attention endpoints read it. *)
Record User := {
  user_id : Z;
  full_name : option string
}.

(** A row of [attentions]: the text columns and the psychologist's key are
    nullable. *)
Record Attention := {
  id : Z;
  student_name : option string;
  grade : option string;
  date : option string;
  time : option string;
  reason : option string;
  observations : option string;
  recommendations : option string;
  psychologist_id : option Z
}.

(** The tables, and the last key [AUTOINCREMENT] gave out for
    [attentions]. *)
Record DB := {
  users : list User;
  attentions : list Attention;
  seq : Z
}.

(** [req.body] of [POST /api/attentions] with texts or null in the text
    fields and an integer or null as [psychologist_id]. *)
Record Body := {
  b_student_name : option string;
  b_grade : option string;
  b_date : option string;
  b_time : option string;
  b_reason : option string;
  b_observations : option string;
  b_recommendations : option string;
  b_psychologist_id : option Z
}.

(** [a.psychologist_id = u.id]: null equals nothing. *)
Definition join_on (a : Attention) (u : User) : bool :=
  match psychologist_id a with
  | Some n => n =? user_id u
  | None => false
  end.

(** The order of a text column: null first, then texts byte by byte. *)
Definition text_compare (x y : option string) : comparison :=
  match x, y with
  | None, None => Eq
  | None, Some _ => Lt
  | Some _, None => Gt
  | Some s, Some t => String.compare s t
  end.

(** [ORDER BY a.date DESC, a.time DESC] *)
Definition latest_first_b (x y : Attention * option string) : bool :=
  match text_compare (date x.1) (date y.1) with
  | Gt => true
  | Lt => false
  | Eq => match text_compare (time x.1) (time y.1) with
          | Lt => false
          | _ => true
          end
  end.

Definition latest_first (x y : Attention * option string) : Prop :=
  latest_first_b x y.

#[local] Instance latest_first_dec : RelDecision latest_first.
Proof. intros x y. unfold latest_first. apply _. Defined.

(** [FROM attentions a JOIN users u ON a.psychologist_id = u.id], each row
    with [a.*] and [u.full_name as psychologist_name]. *)
Definition joined (db : DB) : list (Attention * option string) :=
  flat_map (fun a => map (fun u => (a, full_name u))
                       (List.filter (join_on a) (users db)))
    (attentions db).

(** [GET /api/attentions]; rows that tie in date and time come in the order
    of the join. *)
Definition get_api_attentions (db : DB) : list (Attention * option string) :=
  merge_sort latest_first (joined db).

(** [totalAttentions] of [GET /api/stats]: [SELECT COUNT( * ) FROM attentions]. *)
Definition totalAttentions (db : DB) : nat := length (attentions db).

(** The foreign key of [attentions]: a key that is not null must be a
    user's. *)
Definition references_user (db : DB) (pid : option Z) : bool :=
  match pid with
  | Some n => existsb (fun u => n =? user_id u) (users db)
  | None => true
  end.

(** [POST /api/attentions]: the new key and the table, or nothing when the
    statement fails on the foreign key ([foreign_keys] tells whether the
    connection enforces it). *)
Definition post_attention (foreign_keys : bool) (b : Body) (db : DB) : option (Z * DB) :=
  if foreign_keys && negb (references_user db (b_psychologist_id b))
  then None
  else
    let new_id := seq db + 1 in
    Some (new_id,
          {| users := users db;
             attentions :=
               attentions db ++
               [ {| id := new_id;
                    student_name := b_student_name b; grade := b_grade b;
                    date := b_date b; time := b_time b;
                    reason := b_reason b; observations := b_observations b;
                    recommendations := b_recommendations b;
                    psychologist_id := b_psychologist_id b |} ];
             seq := new_id |}).

(** The attention has a psychologist among the users. *)
Definition has_psychologist (db : DB) (a : Attention) : bool :=
  existsb (join_on a) (users db).

(** *** Facts *)

Lemma filter_unique_key (n : Z) (us : list User) :
  NoDup (map user_id us) ->
  List.filter (fun u => n =? user_id u) us
  = match find (fun u => n =? user_id u) us with
    | Some u => [u]
    | None => []
    end.
Proof.
  induction us as [|u us IH]; [reflexivity|].
  simpl. intros Hnd. apply NoDup_cons in Hnd as [Hnot Hnd].
  destruct (Z.eqb_spec n (user_id u)) as [->|Hne]; [|now apply IH].
  f_equal. clear IH Hnd. induction us as [|v us IH]; [reflexivity|].
  simpl. destruct (Z.eqb_spec (user_id u) (user_id v)) as [E|_].
  - exfalso. apply Hnot. rewrite E. now left.
  - apply IH. intros Hin. apply Hnot. now right.
Qed.

Lemma joined_rows (us : list User) (a : Attention) :
  NoDup (map user_id us) ->
  map fst (map (fun u => (a, full_name u)) (List.filter (join_on a) us))
  = if existsb (join_on a) us then [a] else [].
Proof.
  intros Hnd. unfold join_on. destruct (psychologist_id a) as [n|].
  - rewrite (filter_unique_key n us Hnd).
    destruct (find (fun u => n =? user_id u) us) as [u|] eqn:Hf.
    + apply find_some in Hf as [Hin Hm].
      assert (E : existsb (fun u => n =? user_id u) us = true)
        by (apply existsb_exists; eauto).
      now rewrite E.
    + assert (E : existsb (fun u => n =? user_id u) us = false).
      { apply not_true_is_false. intros Hex. apply existsb_exists in Hex as (u & Hin & Hm).
        now rewrite (find_none _ _ Hf u Hin) in Hm. }
      now rewrite E.
  - assert (E : List.filter (fun _ : User => false) us = []).
    { clear Hnd. induction us; simpl; auto. }
    rewrite E. simpl. clear Hnd. induction us; simpl; auto.
Qed.

Lemma joined_attentions (db : DB) :
  NoDup (map user_id (users db)) ->
  map fst (joined db) = List.filter (has_psychologist db) (attentions db).
Proof.
  intros Hnd. unfold joined, has_psychologist.
  induction (attentions db) as [|a l IH]; [reflexivity|].
  simpl. rewrite map_app, IH, (joined_rows _ a Hnd).
  destruct (existsb (join_on a) (users db)); reflexivity.
Qed.

(** With the users' keys distinct (the primary key), the listing holds one
    row for each attention whose psychologist is a user and none for any
    other; so it never has more rows than the count of [/api/stats], and
    has fewer as soon as one attention has no psychologist among the
    users. *)
Theorem listing_holds_attentions_with_psychologist (db : DB) :
  NoDup (map user_id (users db)) ->
  map fst (get_api_attentions db)
    ≡ₚ List.filter (has_psychologist db) (attentions db) /\
  (length (get_api_attentions db) <= totalAttentions db)%nat /\
  (forall a, In a (attentions db) -> has_psychologist db a = false ->
             (length (get_api_attentions db) < totalAttentions db)%nat).
Proof.
  intros Hnd.
  assert (Hperm : map fst (get_api_attentions db)
                    ≡ₚ List.filter (has_psychologist db) (attentions db)).
  { unfold get_api_attentions. rewrite merge_sort_Permutation.
    now rewrite joined_attentions. }
  assert (Hlen : length (get_api_attentions db)
                 = length (List.filter (has_psychologist db) (attentions db))).
  { rewrite <- (length_map fst). now apply Permutation_length. }
  split; [exact Hperm|]. rewrite Hlen. unfold totalAttentions. split.
  - apply filter_length_le.
  - intros a Hin Hno. clear Hperm Hlen Hnd.
    induction (attentions db) as [|x l IH]; [destruct Hin|].
    simpl. destruct Hin as [->|Hin].
    + rewrite Hno. pose proof (filter_length_le (has_psychologist db) l). lia.
    + specialize (IH Hin). destruct (has_psychologist db x); simpl; lia.
Qed.

(** An attention posted without a psychologist is stored and counted, and
    is in no listing: the statement succeeds whether or not the foreign key
    is enforced, the count of [/api/stats] grows by one, and the answer of
    [GET /api/attentions] is what it was. *)
Theorem unassigned_attention_counted_not_listed foreign_keys b db :
  b_psychologist_id b = None ->
  exists new_id db',
    post_attention foreign_keys b db = Some (new_id, db') /\
    new_id = seq db + 1 /\
    totalAttentions db' = S (totalAttentions db) /\
    get_api_attentions db' = get_api_attentions db.
Proof.
  intros Hnone. unfold post_attention. rewrite Hnone. simpl.
  rewrite andb_false_r. eexists _, _. split; [reflexivity|].
  split; [reflexivity|]. split.
  - unfold totalAttentions. simpl. rewrite length_app. simpl. lia.
  - unfold get_api_attentions, joined. simpl.
    rewrite flat_map_app. simpl. unfold join_on at 2. simpl.
    assert (E : List.filter (fun _ : User => false) (users db) = [])
      by (induction (users db); simpl; auto).
    rewrite E. simpl. now rewrite app_nil_r.
Qed.

Definition sample_db : DB :=
  {| users := [ {| user_id := 1; full_name := Some "Psic. Principal" |} ];
     attentions :=
       [ {| id := 1; student_name := Some "Ana Torres"; grade := Some "6to B";
            date := Some "2026-02-20"; time := Some "10:45";
            reason := Some "Ansiedad"; observations := None; recommendations := None;
            psychologist_id := Some 1 |};
         {| id := 2; student_name := Some "Luis Ramos"; grade := Some "4to A";
            date := Some "2026-02-21"; time := Some "09:00";
            reason := Some "Seguimiento"; observations := None;
            recommendations := None; psychologist_id := None |} ];
     seq := 2 |}.

Lemma listing_holds_attentions_with_psychologist_witness :
  (length (get_api_attentions sample_db) < totalAttentions sample_db)%nat.
Proof.
  refine (proj2 (proj2 (listing_holds_attentions_with_psychologist sample_db _))
            (nth 1 (attentions sample_db) (nth 0 (attentions sample_db)
               {| id := 0; student_name := None; grade := None; date := None;
                  time := None; reason := None; observations := None;
                  recommendations := None; psychologist_id := None |}))
            _ eq_refl).
  - simpl. repeat constructor. intros H. inversion H.
  - simpl. right. left. reflexivity.
Defined.

Lemma unassigned_attention_counted_not_listed_witness :
  exists new_id db',
    post_attention true
      {| b_student_name := Some "Eva Luna"; b_grade := Some "3ro C";
         b_date := Some "2026-03-01"; b_time := Some "11:00";
         b_reason := Some "Entrevista"; b_observations := None;
         b_recommendations := None; b_psychologist_id := None |} sample_db
    = Some (new_id, db') /\
    new_id = 3 /\
    totalAttentions db' = 3%nat /\
    get_api_attentions db' = get_api_attentions sample_db.
Proof.
  exact (unassigned_attention_counted_not_listed true
           {| b_student_name := Some "Eva Luna"; b_grade := Some "3ro C";
              b_date := Some "2026-03-01"; b_time := Some "11:00";
              b_reason := Some "Entrevista"; b_observations := None;
              b_recommendations := None; b_psychologist_id := None |}
           sample_db eq_refl).
Defined.

End Server.
